(** * A shallow embedding of [examples/basic_context_manager.py]

    The Python program keeps [ContextSegment] objects in three dictionaries
    (the memory tiers) and mutates them in place.  The embedding follows that
    shape:

    - a segment object lives in a heap and is named by a reference; the
      tier dictionaries and every list of segments hold references, so a
      write through one name is seen through all the others;
    - a [dict] is an association list in insertion order, which is the
      order in which [dict.values()] enumerates it;
    - Python [float] is IEEE binary64, embedded as Rocq's primitive floats;
      a Python [int] is an integer of any size, and its conversion to
      [float] rounds to the nearest value or raises [OverflowError];
    - [datetime.now()] reads a clock oracle, one reading per call;
    - a method is a computation in a state-and-exception monad over the
      world (heap, clock position, the [ContextManager] instance); the
      state reached when an exception is raised is kept, as in Python.

    Strings are sequences of code points below 256. *)

From Stdlib Require Import ZArith Floats Uint63 Ascii String List Bool Lia.
From Stdlib Require Import Permutation Sorted.
From stdpp Require Import base gmap strings list pretty.

Set Warnings "-inexact-float".

Local Open Scope string_scope.
Local Open Scope list_scope.
Local Open Scope Z_scope.

(** ** Exceptions *)

Inductive exn :=
| ValueError (msg : string)
| OverflowError
| ZeroDivisionError
| DanglingReference.   (* no Python counterpart: a reference outside the heap *)

Inductive outcome (A : Type) :=
| Ret (a : A)
| Raise (e : exn).
Arguments Ret {A} a.
Arguments Raise {A} e.

(** ** Python numbers *)

Module PyNum.

(** [float(n)], which is also the conversion of an [int] operand of a
    float operation: the binary64 value nearest to [n], ties to even;
    Python raises [OverflowError] when that is beyond the range. *)
Definition float_of_int (z : Z) : outcome float :=
  match binary_normalize prec emax z 0 false with
  | S754_infinity _ => Raise OverflowError
  | x => Ret (SF2Prim x)
  end.

(** [int(x)] for a float [x]: truncation toward zero; Python raises
    [ValueError] on NaN and [OverflowError] on the infinities. *)
Definition int_of_float (x : float) : outcome Z :=
  match Prim2SF x with
  | S754_zero _ => Ret 0
  | S754_finite s m e =>
      let a := if 0 <=? e then Z.shiftl (Zpos m) e else Z.shiftr (Zpos m) (- e) in
      Ret (if s then - a else a)
  | S754_infinity _ => Raise OverflowError
  | S754_nan => Raise (ValueError "cannot convert float NaN to integer")
  end.

(** [a / b] on two Python [int]s (true division), [b] not zero: the
    exact quotient rounded once to the nearest binary64 value, ties to
    even, a zero taking the sign of the quotient.  The operands of this
    program are lengths, sizes of sets and the microseconds of a
    [timedelta], so the quotient stays within the range (Python raises
    [OverflowError] beyond it). *)
Definition int_truediv (a b : Z) : float :=
  let s := xorb (a <? 0) (b <? 0) in
  match Z.abs a, Z.abs b with
  | Z.pos ma, Z.pos mb =>
      let '(q, e, l) := SFdiv_core_binary prec emax (Z.pos ma) 0 (Z.pos mb) 0 in
      SF2Prim (binary_round_aux prec emax s q e l)
  | 0, Z.pos _ => SF2Prim (S754_zero s)
  | _, _ => nan
  end.

End PyNum.
Import PyNum.

(** ** Python sequences: slices and the stable sort *)

Module PySeq.

Section Slices.
Context {A : Type}.

(** [l[:k]] *)
Definition slice_to (l : list A) (k : Z) : list A :=
  if 0 <=? k then firstn (Z.to_nat k) l
  else firstn (Z.to_nat (Z.of_nat (length l) + k)) l.

(** [l[k:]] *)
Definition slice_from (l : list A) (k : Z) : list A :=
  if 0 <=? k then skipn (Z.to_nat k) l
  else skipn (Z.to_nat (Z.of_nat (length l) + k)) l.
End Slices.

(** [list.sort(key=..., reverse=True)] on a list already decorated with
    its keys.  Python's sort is stable, also with [reverse=True], and it
    compares keys with [<] only.  The head [x] of the input precedes every
    other element, so in the result it stands behind exactly the elements
    whose key is strictly greater.  Where [<] orders the keys weakly (for
    floats: no NaN among them) the stable descending arrangement is unique
    (lemma [sort_desc_unique]) and this is it; so it is where [<] holds
    between no two keys, the list staying as it is.  With a NaN among keys
    that [<] does order, what Python returns depends on the runs its sort
    finds and is not what this function returns: no statement about an
    order below is about such keys. *)
Section Sort.
Context {K A : Type}.
Variable lt : K -> K -> bool.

Fixpoint insert_desc (x : K * A) (l : list (K * A)) : list (K * A) :=
  match l with
  | [] => [x]
  | y :: l' => if lt (fst x) (fst y) then y :: insert_desc x l'
               else x :: y :: l'
  end.

Fixpoint sort_desc (l : list (K * A)) : list (K * A) :=
  match l with
  | [] => []
  | x :: l' => insert_desc x (sort_desc l')
  end.

(** No element is followed by one with a strictly greater key. *)
Definition descending (l : list (K * A)) : Prop :=
  Sorted (fun a b => lt (fst a) (fst b) = false) l.

(** [l.sort(key=f, reverse=True)] for a key function without effects: the
    keys are taken once per element, the pairs are sorted, the keys are
    dropped. *)
Definition sort_by (f : A -> K) (l : list A) : list A :=
  map snd (sort_desc (map (fun a => (f a, a)) l)).
End Sort.

End PySeq.
Import PySeq.

(** ** Python strings *)

Module PyStr.

Definition code (c : ascii) : nat := nat_of_ascii c.

(** [c.isspace()] on the code points below 256. *)
Definition is_space (c : ascii) : bool :=
  let n := code c in
  ((9 <=? n) && (n <=? 13) || (28 <=? n) && (n <=? 32)
   || (n =? 133) || (n =? 160))%nat.

(** [c.lower()] on the code points below 256: the ASCII capitals and the
    Latin-1 capitals [U+00C0]..[U+00DE] without the multiplication sign. *)
Definition lower_char (c : ascii) : ascii :=
  let n := code c in
  if ((65 <=? n) && (n <=? 90)
      || (192 <=? n) && (n <=? 222) && negb (n =? 215))%nat
  then ascii_of_nat (n + 32) else c.

Fixpoint lower (s : string) : string :=
  match s with
  | EmptyString => EmptyString
  | String c s' => String (lower_char c) (lower s')
  end.

(** [s.split()]: the maximal runs of non-space characters.  [w] holds the
    word being read, last character first. *)
Fixpoint split_from (w : list ascii) (s : string) : list string :=
  match s with
  | EmptyString =>
      match w with [] => [] | _ => [string_of_list_ascii (rev w)] end
  | String c s' =>
      if is_space c then
        match w with
        | [] => split_from [] s'
        | _ => string_of_list_ascii (rev w) :: split_from [] s'
        end
      else split_from (c :: w) s'
  end.

Definition split (s : string) : list string := split_from [] s.

Definition len (s : string) : Z := Z.of_nat (String.length s).

(** [s[:k]] and [s[k:]] *)
Definition slice_to (s : string) (k : Z) : string :=
  string_of_list_ascii (PySeq.slice_to (list_ascii_of_string s) k).
Definition slice_from (s : string) (k : Z) : string :=
  string_of_list_ascii (PySeq.slice_from (list_ascii_of_string s) k).

End PyStr.

(** ** The data model *)

Definition datetime := Z.            (* microseconds on the clock's axis *)
Definition timedelta := Z.           (* microseconds *)

Definition timedelta_of_days (d : Z) : timedelta := d * 86400000000.

(** [timedelta(minutes=m)]: Python raises [OverflowError] when the number
    of days is beyond 999999999 in magnitude. *)
Definition timedelta_of_minutes (m : Z) : outcome timedelta :=
  let days := m * 60000000 / 86400000000 in
  if (-999999999 <=? days) && (days <=? 999999999) then Ret (m * 60000000)
  else Raise OverflowError.

(** [td.total_seconds()] *)
Definition total_seconds (td : timedelta) : float := int_truediv td 1000000.

Record ContextSegment := mkContextSegment {
  id : string;
  content : string;
  metadata : list (string * string);
  timestamp : datetime;
  relevance_score : float;
  access_count : Z;
  compression_ratio : float
}.

Record ContextMetrics := mkContextMetrics {
  total_segments : Z;
  active_segments : Z;
  total_size_bytes : Z;
  m_compression_ratio : float;
  cache_hit_rate : float;
  average_retrieval_time_ms : float;
  memory_usage_bytes : Z
}.

Module MemoryTier.
Definition ACTIVE := "active".
Definition WORKING := "working".
Definition LONG_TERM := "long_term".
End MemoryTier.

Module CompressionStrategy.
Definition NONE := "none".
Definition GZIP := "gzip".
Definition SEMANTIC := "semantic".
Definition ADAPTIVE := "adaptive".
End CompressionStrategy.

Module RetrievalStrategy.
Definition KEYWORD := "keyword".
Definition SEMANTIC := "semantic".
Definition HYBRID := "hybrid".
End RetrievalStrategy.

Record ContextConfig := mkContextConfig {
  max_context_size : Z;
  working_memory_size : Z;
  compression_strategy : string;
  compression_target_ratio : float;
  compression_quality_threshold : float;
  retrieval_strategy : string;
  similarity_threshold : float;
  max_retrieval_results : Z;
  cleanup_interval_minutes : Z;
  metrics_enabled : bool
}.

Definition default_config : ContextConfig :=
  {| max_context_size := 32000;
     working_memory_size := 128000;
     compression_strategy := CompressionStrategy.ADAPTIVE;
     compression_target_ratio := 0.3%float;
     compression_quality_threshold := 0.8%float;
     retrieval_strategy := RetrievalStrategy.HYBRID;
     similarity_threshold := 0.7%float;
     max_retrieval_results := 20;
     cleanup_interval_minutes := 60;
     metrics_enabled := true |}.

(** ** The world: heap, clock position and the manager instance *)

Abbreviation ref := nat.
Abbreviation dict := (list (string * ref)).

Record MemoryManager := mkMemoryManager {
  active_memory : dict;
  working_memory : dict;
  long_term_memory : dict
}.

Record ContextManager := mkContextManager {
  config : ContextConfig;
  memory_manager : MemoryManager;
  metrics : ContextMetrics;
  _last_cleanup : datetime
}.

Record World := mkWorld {
  heap : list ContextSegment;
  ticks : nat;                       (* clock readings made so far *)
  self : ContextManager
}.

Definition with_heap (h : list ContextSegment) (w : World) : World :=
  {| heap := h; ticks := ticks w; self := self w |}.
Definition with_ticks (n : nat) (w : World) : World :=
  {| heap := heap w; ticks := n; self := self w |}.
Definition with_self (c : ContextManager) (w : World) : World :=
  {| heap := heap w; ticks := ticks w; self := c |}.

Definition with_memory_manager (m : MemoryManager) (c : ContextManager) : ContextManager :=
  {| config := config c; memory_manager := m; metrics := metrics c;
     _last_cleanup := _last_cleanup c |}.
Definition with_metrics (m : ContextMetrics) (c : ContextManager) : ContextManager :=
  {| config := config c; memory_manager := memory_manager c; metrics := m;
     _last_cleanup := _last_cleanup c |}.
Definition with_last_cleanup (t : datetime) (c : ContextManager) : ContextManager :=
  {| config := config c; memory_manager := memory_manager c; metrics := metrics c;
     _last_cleanup := t |}.

Definition with_active (d : dict) (m : MemoryManager) : MemoryManager :=
  {| active_memory := d; working_memory := working_memory m;
     long_term_memory := long_term_memory m |}.
Definition with_working (d : dict) (m : MemoryManager) : MemoryManager :=
  {| active_memory := active_memory m; working_memory := d;
     long_term_memory := long_term_memory m |}.
Definition with_long_term (d : dict) (m : MemoryManager) : MemoryManager :=
  {| active_memory := active_memory m; working_memory := working_memory m;
     long_term_memory := d |}.

Definition with_content (c : string) (x : ContextSegment) : ContextSegment :=
  {| id := id x; content := c; metadata := metadata x; timestamp := timestamp x;
     relevance_score := relevance_score x; access_count := access_count x;
     compression_ratio := compression_ratio x |}.
Definition with_relevance_score (r : float) (x : ContextSegment) : ContextSegment :=
  {| id := id x; content := content x; metadata := metadata x; timestamp := timestamp x;
     relevance_score := r; access_count := access_count x;
     compression_ratio := compression_ratio x |}.
Definition with_access_count (n : Z) (x : ContextSegment) : ContextSegment :=
  {| id := id x; content := content x; metadata := metadata x; timestamp := timestamp x;
     relevance_score := relevance_score x; access_count := n;
     compression_ratio := compression_ratio x |}.
Definition with_compression_ratio (r : float) (x : ContextSegment) : ContextSegment :=
  {| id := id x; content := content x; metadata := metadata x; timestamp := timestamp x;
     relevance_score := relevance_score x; access_count := access_count x;
     compression_ratio := r |}.

(** ** The monad of methods *)

Definition M (A : Type) : Type := World -> outcome A * World.

Definition ret {A} (a : A) : M A := fun w => (Ret a, w).
Definition raise {A} (e : exn) : M A := fun w => (Raise e, w).
Definition bind {A B} (m : M A) (k : A -> M B) : M B :=
  fun w => match m w with
           | (Ret a, w') => k a w'
           | (Raise e, w') => (Raise e, w')
           end.
Definition lift {A} (o : outcome A) : M A := fun w => (o, w).
Definition get : M World := fun w => (Ret w, w).
Definition modify (f : World -> World) : M unit := fun w => (Ret tt, f w).

Declare Scope py_scope.
Delimit Scope py_scope with py.
Notation "x <- m ;; k" := (bind m (fun x => k))
  (at level 100, m at next level, right associativity) : py_scope.
Notation "m ;;; k" := (bind m (fun _ => k))
  (at level 100, right associativity) : py_scope.
Local Open Scope py_scope.

(** [for x in l: body x] *)
Fixpoint for_each {A} (l : list A) (body : A -> M unit) : M unit :=
  match l with
  | [] => ret tt
  | x :: l' => body x ;;; for_each l' body
  end.

(** [[f x for x in l]], the calls made left to right *)
Fixpoint map_m {A B} (f : A -> M B) (l : list A) : M (list B) :=
  match l with
  | [] => ret []
  | x :: l' => y <- f x ;; ys <- map_m f l' ;; ret (y :: ys)
  end.

(** Reading and writing an object through a reference. *)
Definition deref (r : ref) : M ContextSegment :=
  fun w => match heap w !! r with
           | Some x => (Ret x, w)
           | None => (Raise DanglingReference, w)
           end.

Definition update (r : ref) (f : ContextSegment -> ContextSegment) : M unit :=
  x <- deref r ;; modify (fun w => with_heap (<[r := f x]> (heap w)) w).

(** A constructor call: the new object is placed at the end of the heap. *)
Definition alloc (x : ContextSegment) : M ref :=
  fun w => (Ret (length (heap w)), with_heap (heap w ++ [x]) w).

(** ** Python dictionaries, in insertion order *)

Fixpoint dict_get (d : dict) (k : string) : option ref :=
  match d with
  | [] => None
  | (k', v) :: d' => if String.eqb k' k then Some v else dict_get d' k
  end.

(** [d[k] = v]: an existing key keeps its place. *)
Fixpoint dict_set (d : dict) (k : string) (v : ref) : dict :=
  match d with
  | [] => [(k, v)]
  | (k', v') :: d' => if String.eqb k' k then (k', v) :: d'
                      else (k', v') :: dict_set d' k v
  end.

(** [d.pop(k, None)] *)
Fixpoint dict_pop (d : dict) (k : string) : option ref * dict :=
  match d with
  | [] => (None, [])
  | (k', v) :: d' =>
      if String.eqb k' k then (Some v, d')
      else let '(r, d'') := dict_pop d' k in (r, (k', v) :: d'')
  end.

Definition dict_values (d : dict) : list ref := map snd d.
Definition dict_keys (d : dict) : list string := map fst d.

(** ** The engines *)

Definition obind {A B} (o : outcome A) (k : A -> outcome B) : outcome B :=
  match o with
  | Ret a => k a
  | Raise e => Raise e
  end.

Module BasicCompressionEngine.

Definition marker_mid : string := "...[truncated]...".
Definition marker_end : string := "...[truncated]".

Definition compress (content : string) (target_ratio : float) : outcome string :=
  obind (float_of_int (PyStr.len content)) (fun n =>
  obind (int_of_float (PrimFloat.mul n target_ratio)) (fun target_length =>
  if PyStr.len content <=? target_length then Ret content
  else
  obind (float_of_int target_length) (fun t =>
  obind (int_of_float (PrimFloat.mul t 0.7%float)) (fun keep_start =>
  let keep_end := target_length - keep_start in
  if 0 <? keep_end then
    Ret (PyStr.slice_to content keep_start ++ marker_mid
         ++ PyStr.slice_from content (- keep_end))%string
  else
    Ret (PyStr.slice_to content keep_start ++ marker_end)%string)))).

Definition decompress (compressed_content : string) : outcome string :=
  Ret compressed_content.

Definition get_compression_ratio (original compressed : string) : float :=
  if 0 <? PyStr.len original
  then int_truediv (PyStr.len compressed) (PyStr.len original)
  else 1.0%float.

End BasicCompressionEngine.

Module BasicRetrievalEngine.

Definition words (s : string) : gset string :=
  list_to_set (PyStr.split (PyStr.lower s)).

(** The body of the [for] loop, with the list [scored_segments] it builds. *)
Fixpoint score_loop (query_words : gset string) (segments : list ref) : M (list ref) :=
  match segments with
  | [] => ret []
  | segment :: rest =>
      x <- deref segment ;;
      let content_words := words (content x) in
      let overlap := Z.of_nat (size (query_words ∩ content_words)) in
      if 0 <? overlap then
        let score := int_truediv overlap (Z.of_nat (size query_words)) in
        update segment (with_relevance_score score) ;;;
        scored <- score_loop query_words rest ;;
        ret (segment :: scored)
      else score_loop query_words rest
  end.

Definition sort_key (segment : ref) : M (float * ref) :=
  x <- deref segment ;; ret (relevance_score x, segment).

Definition retrieve (query : string) (segments : list ref) (limit : Z) : M (list ref) :=
  let query_words := words query in
  scored_segments <- score_loop query_words segments ;;
  keyed <- map_m sort_key scored_segments ;;
  let sorted := map snd (sort_desc PrimFloat.ltb keyed) in
  ret (slice_to sorted limit).

End BasicRetrievalEngine.

(** ** [MemoryManager] *)

Module MemoryManager.

Definition tiers : M MemoryManager :=
  fun w => (Ret (memory_manager (self w)), w).
Definition set_tiers (f : MemoryManager -> MemoryManager) : M unit :=
  modify (fun w => with_self (with_memory_manager (f (memory_manager (self w))) (self w)) w).

Definition store (tier : string) (segment : ref) : M string :=
  (if String.eqb tier MemoryTier.ACTIVE then
     x <- deref segment ;;
     set_tiers (fun m => with_active (dict_set (active_memory m) (id x) segment) m)
   else if String.eqb tier MemoryTier.WORKING then
     x <- deref segment ;;
     set_tiers (fun m => with_working (dict_set (working_memory m) (id x) segment) m)
   else if String.eqb tier MemoryTier.LONG_TERM then
     x <- deref segment ;;
     set_tiers (fun m => with_long_term (dict_set (long_term_memory m) (id x) segment) m)
   else raise (ValueError ("Unknown memory tier: " ++ tier)%string)) ;;;
  x <- deref segment ;;
  ret (id x).

(** [if segment: segment.access_count += 1] and [return segment] *)
Definition touch (segment : option ref) : M (option ref) :=
  match segment with
  | Some r =>
      update r (fun x => with_access_count (access_count x + 1) x) ;;;
      ret (Some r)
  | None => ret None
  end.

Definition retrieve (tier : string) (segment_id : string) : M (option ref) :=
  m <- tiers ;;
  if String.eqb tier MemoryTier.ACTIVE then
    touch (dict_get (active_memory m) segment_id)
  else if String.eqb tier MemoryTier.WORKING then
    touch (dict_get (working_memory m) segment_id)
  else if String.eqb tier MemoryTier.LONG_TERM then
    touch (dict_get (long_term_memory m) segment_id)
  else ret None.

Definition is_not_None {A} (o : option A) : bool :=
  match o with Some _ => true | None => false end.

Definition delete (tier : string) (segment_id : string) : M bool :=
  m <- tiers ;;
  if String.eqb tier MemoryTier.ACTIVE then
    let '(r, d) := dict_pop (active_memory m) segment_id in
    set_tiers (with_active d) ;;; ret (is_not_None r)
  else if String.eqb tier MemoryTier.WORKING then
    let '(r, d) := dict_pop (working_memory m) segment_id in
    set_tiers (with_working d) ;;; ret (is_not_None r)
  else if String.eqb tier MemoryTier.LONG_TERM then
    let '(r, d) := dict_pop (long_term_memory m) segment_id in
    set_tiers (with_long_term d) ;;; ret (is_not_None r)
  else ret false.

Definition get_all_segments (tier : string) : M (list ref) :=
  m <- tiers ;;
  if String.eqb tier MemoryTier.ACTIVE then ret (dict_values (active_memory m))
  else if String.eqb tier MemoryTier.WORKING then ret (dict_values (working_memory m))
  else if String.eqb tier MemoryTier.LONG_TERM then ret (dict_values (long_term_memory m))
  else ret [].

Record usage := mkUsage {
  u_active : Z; u_working : Z; u_long_term : Z; u_total : Z
}.

Definition get_memory_usage : M usage :=
  m <- tiers ;;
  let a := Z.of_nat (length (active_memory m)) in
  let b := Z.of_nat (length (working_memory m)) in
  let c := Z.of_nat (length (long_term_memory m)) in
  ret {| u_active := a; u_working := b; u_long_term := c; u_total := a + b + c |}.

End MemoryManager.

(** ** [ContextManager] *)

Section Manager.

(** The clock: [now_at n] is what the [n]-th call of [datetime.now()]
    returns. *)
Variable now_at : nat -> datetime.

(** [hashlib.md5(f"{content}{t}".encode()).hexdigest()] *)
Variable md5_hexdigest : string -> datetime -> string.

Definition now : M datetime :=
  fun w => (Ret (now_at (ticks w)), with_ticks (S (ticks w)) w).

Definition the_config : M ContextConfig := fun w => (Ret (config (self w)), w).
Definition the_metrics : M ContextMetrics := fun w => (Ret (metrics (self w)), w).
Definition set_metrics (f : ContextMetrics -> ContextMetrics) : M unit :=
  modify (fun w => with_self (with_metrics (f (metrics (self w))) (self w)) w).

Definition with_total_segments (n : Z) (m : ContextMetrics) : ContextMetrics :=
  {| total_segments := n; active_segments := active_segments m;
     total_size_bytes := total_size_bytes m;
     m_compression_ratio := m_compression_ratio m;
     cache_hit_rate := cache_hit_rate m;
     average_retrieval_time_ms := average_retrieval_time_ms m;
     memory_usage_bytes := memory_usage_bytes m |}.
Definition with_active_segments (n : Z) (m : ContextMetrics) : ContextMetrics :=
  {| total_segments := total_segments m; active_segments := n;
     total_size_bytes := total_size_bytes m;
     m_compression_ratio := m_compression_ratio m;
     cache_hit_rate := cache_hit_rate m;
     average_retrieval_time_ms := average_retrieval_time_ms m;
     memory_usage_bytes := memory_usage_bytes m |}.
Definition with_average_retrieval_time_ms (t : float) (m : ContextMetrics) : ContextMetrics :=
  {| total_segments := total_segments m; active_segments := active_segments m;
     total_size_bytes := total_size_bytes m;
     m_compression_ratio := m_compression_ratio m;
     cache_hit_rate := cache_hit_rate m;
     average_retrieval_time_ms := t;
     memory_usage_bytes := memory_usage_bytes m |}.

(** [ContextManager(config)] in an empty heap. *)
Definition new (cfg : ContextConfig) : World :=
  {| heap := [];
     ticks := 1;
     self := {| config := cfg;
                memory_manager := {| active_memory := []; working_memory := [];
                                     long_term_memory := [] |};
                metrics := {| total_segments := 0; active_segments := 0;
                              total_size_bytes := 0;
                              m_compression_ratio := 1.0%float;
                              cache_hit_rate := 0.0%float;
                              average_retrieval_time_ms := 0.0%float;
                              memory_usage_bytes := 0 |};
                _last_cleanup := now_at 0 |} |}.

Definition _generate_segment_id (content : string) : M string :=
  t <- now ;; ret (md5_hexdigest content t).

(** [score_segment], the key of the sort in [_optimize_active_memory]:
    its value for a segment [x] when the clock shows [t]. *)
Definition score_value (t : datetime) (x : ContextSegment) : outcome float :=
  let seconds := total_seconds (t - timestamp x) in
  obind (float_of_int 3600) (fun hour =>
  let time_decay := PrimFloat.div seconds hour in
  let d := PrimFloat.add 1.0%float time_decay in
  if PrimFloat.eqb d 0%float then Raise ZeroDivisionError
  else
    let recency := PrimFloat.div 1.0%float d in
    obind (float_of_int (access_count x)) (fun n =>
    Ret (PrimFloat.mul (PrimFloat.mul (relevance_score x) recency) n))).

Definition score_segment (segment : ref) : M float :=
  t <- now ;;
  x <- deref segment ;;
  lift (score_value t x).

Definition sort_key (segment : ref) : M (float * ref) :=
  k <- score_segment segment ;; ret (k, segment).

(** One turn of the loop over [move_to_working]. *)
Definition move_to_working_step (segment : ref) : M unit :=
  x <- deref segment ;;
  MemoryManager.delete MemoryTier.ACTIVE (id x) ;;;
  MemoryManager.store MemoryTier.WORKING segment ;;;
  ret tt.

Definition keep_count (n : Z) : outcome Z :=
  obind (float_of_int n) (fun x => int_of_float (PrimFloat.mul x 0.6%float)).

Definition _optimize_active_memory : M unit :=
  active_segments <- MemoryManager.get_all_segments MemoryTier.ACTIVE ;;
  keyed <- map_m sort_key active_segments ;;
  let active_segments := map snd (sort_desc PrimFloat.ltb keyed) in
  k <- lift (keep_count (Z.of_nat (length active_segments))) ;;
  let keep_active := slice_to active_segments k in
  k' <- lift (keep_count (Z.of_nat (length active_segments))) ;;
  let move_to_working := slice_from active_segments k' in
  for_each move_to_working move_to_working_step.

Fixpoint sum_len (l : list ref) : M Z :=
  match l with
  | [] => ret 0
  | r :: l' => x <- deref r ;; n <- sum_len l' ;; ret (PyStr.len (content x) + n)
  end.

Definition _maybe_optimize_memory : M unit :=
  active_segments <- MemoryManager.get_all_segments MemoryTier.ACTIVE ;;
  current_size <- sum_len active_segments ;;
  cfg <- the_config ;;
  if max_context_size cfg <? current_size then _optimize_active_memory
  else ret tt.

Definition add_context (content : string) (metadata : option (list (string * string)))
  : M string :=
  let metadata := match metadata with None => [] | Some m => m end in
  segment_id <- _generate_segment_id content ;;
  t <- now ;;
  segment <- alloc {| id := segment_id; content := content; metadata := metadata;
                      timestamp := t; relevance_score := 1.0%float;
                      access_count := 0; compression_ratio := 1.0%float |} ;;
  MemoryManager.store MemoryTier.ACTIVE segment ;;;
  _maybe_optimize_memory ;;;
  set_metrics (fun m => with_total_segments (total_segments m + 1) m) ;;;
  l <- MemoryManager.get_all_segments MemoryTier.ACTIVE ;;
  set_metrics (with_active_segments (Z.of_nat (length l))) ;;;
  ret segment_id.

Definition all_tiers : list string :=
  [MemoryTier.ACTIVE; MemoryTier.WORKING; MemoryTier.LONG_TERM].

Fixpoint gather (tiers : list string) : M (list ref) :=
  match tiers with
  | [] => ret []
  | tier :: rest =>
      segments <- MemoryManager.get_all_segments tier ;;
      more <- gather rest ;;
      ret (segments ++ more)
  end.

Definition retrieve_relevant (query : string) (limit : Z) : M (list ref) :=
  start_time <- now ;;
  all_segments <- gather all_tiers ;;
  relevant_segments <- BasicRetrievalEngine.retrieve query all_segments limit ;;
  t <- now ;;
  thousand <- lift (float_of_int 1000) ;;
  let retrieval_time := PrimFloat.mul (total_seconds (t - start_time)) thousand in
  set_metrics (fun m =>
    with_average_retrieval_time_ms
      (PrimFloat.add (PrimFloat.mul (average_retrieval_time_ms m) 0.9%float)
                     (PrimFloat.mul retrieval_time 0.1%float)) m) ;;;
  ret relevant_segments.

Fixpoint remove_from (tiers : list string) (segment_id : string) : M bool :=
  match tiers with
  | [] => ret false
  | tier :: rest =>
      deleted <- MemoryManager.delete tier segment_id ;;
      if deleted : bool then
        set_metrics (fun m => with_total_segments (total_segments m - 1) m) ;;;
        l <- MemoryManager.get_all_segments MemoryTier.ACTIVE ;;
        set_metrics (with_active_segments (Z.of_nat (length l))) ;;;
        ret true
      else remove_from rest segment_id
  end.

Definition remove_context (segment_id : string) : M bool :=
  remove_from all_tiers segment_id.

(** The search loop of [compress_context]: the segment and the tier it was
    found in. *)
Fixpoint find_segment (tiers : list string) (segment_id : string)
  : M (option (ref * string)) :=
  match tiers with
  | [] => ret None
  | tier_name :: rest =>
      segment <- MemoryManager.retrieve tier_name segment_id ;;
      match segment with
      | Some r => ret (Some (r, tier_name))
      | None => find_segment rest segment_id
      end
  end.

Definition compress_context (segment_id : string) : M bool :=
  found <- find_segment all_tiers segment_id ;;
  match found with
  | None => ret false
  | Some (segment, tier) =>
      x <- deref segment ;;
      cfg <- the_config ;;
      compressed_content <-
        lift (BasicCompressionEngine.compress (content x) (compression_target_ratio cfg)) ;;
      update segment (with_content compressed_content) ;;;
      x' <- deref segment ;;
      update segment
        (with_compression_ratio
           (BasicCompressionEngine.get_compression_ratio (content x') compressed_content)) ;;;
      MemoryManager.store tier segment ;;;
      ret true
  end.

Definition expired (cutoff_time : datetime) (x : ContextSegment) : bool :=
  (timestamp x <? cutoff_time) && (access_count x <? 2).

Definition _cleanup_old_segments : M unit :=
  t <- now ;;
  let cutoff_time := t - timedelta_of_days 30 in
  long_term_segments <- MemoryManager.get_all_segments MemoryTier.LONG_TERM ;;
  for_each long_term_segments (fun segment =>
    x <- deref segment ;;
    if expired cutoff_time x then
      MemoryManager.delete MemoryTier.LONG_TERM (id x) ;;; ret tt
    else ret tt).

Record optimize_result := mkOptimizeResult {
  optimization_completed : bool;
  memory_usage : MemoryManager.usage;
  metrics_snapshot : ContextMetrics
}.

Definition optimize : M optimize_result :=
  _optimize_active_memory ;;;
  t <- now ;;
  w <- get ;;
  interval <- lift (timedelta_of_minutes (cleanup_interval_minutes (config (self w)))) ;;
  (if interval <? t - _last_cleanup (self w)
   then
     _cleanup_old_segments ;;;
     t' <- now ;;
     modify (fun w => with_self (with_last_cleanup t' (self w)) w)
   else ret tt) ;;;
  u <- MemoryManager.get_memory_usage ;;
  m <- the_metrics ;;
  ret {| optimization_completed := true; memory_usage := u; metrics_snapshot := m |}.

Definition get_metrics : M ContextMetrics :=
  l <- MemoryManager.get_all_segments MemoryTier.ACTIVE ;;
  set_metrics (with_active_segments (Z.of_nat (length l))) ;;;
  the_metrics.

End Manager.

(** ** Observations on a world *)

Definition active_of (w : World) : dict := active_memory (memory_manager (self w)).
Definition working_of (w : World) : dict := working_memory (memory_manager (self w)).
Definition long_term_of (w : World) : dict := long_term_memory (memory_manager (self w)).

(** [k in d] *)
Definition holds (d : dict) (k : string) : bool :=
  MemoryManager.is_not_None (dict_get d k).

(** In how many of the three tier collections the id [k] appears. *)
Definition tier_count (w : World) (k : string) : nat :=
  (Nat.b2n (holds (active_of w) k) + Nat.b2n (holds (working_of w) k)
   + Nat.b2n (holds (long_term_of w) k))%nat.

(** The first tier, in the order of the search, that holds [k], and the
    reference it holds. *)
Definition locate (w : World) (k : string) : option (ref * string) :=
  match dict_get (active_of w) k with
  | Some r => Some (r, MemoryTier.ACTIVE)
  | None =>
      match dict_get (working_of w) k with
      | Some r => Some (r, MemoryTier.WORKING)
      | None =>
          match dict_get (long_term_of w) k with
          | Some r => Some (r, MemoryTier.LONG_TERM)
          | None => None
          end
      end
  end.

(** The object behind a reference after a successful read by id. *)
Definition touched (x : ContextSegment) : ContextSegment :=
  with_access_count (access_count x + 1) x.

(** The manager's dictionaries after [store(tier, segment)] for a segment
    with id [k] behind the reference [r]. *)
Definition stored (tier k : string) (r : ref) (m : MemoryManager) : MemoryManager :=
  if String.eqb tier MemoryTier.ACTIVE then with_active (dict_set (active_memory m) k r) m
  else if String.eqb tier MemoryTier.WORKING then with_working (dict_set (working_memory m) k r) m
  else if String.eqb tier MemoryTier.LONG_TERM then with_long_term (dict_set (long_term_memory m) k r) m
  else m.

(** The object [x] after [compress_context] found it and the engine
    returned [c]. *)
Definition compressed (c : string) (x : ContextSegment) : ContextSegment :=
  with_compression_ratio (BasicCompressionEngine.get_compression_ratio c c)
    (with_content c (touched x)).

(** The representation invariant of a tier: keys are distinct (it is a
    dictionary), every stored reference is live, and a segment is filed
    under its own [id]. *)
Definition wf_dict (h : list ContextSegment) (d : dict) : Prop :=
  NoDup (dict_keys d)
  /\ forall k r, (k, r) ∈ d -> exists x, h !! r = Some x /\ id x = k.

Definition wf (w : World) : Prop :=
  wf_dict (heap w) (active_of w)
  /\ wf_dict (heap w) (working_of w)
  /\ wf_dict (heap w) (long_term_of w).

(** The single-owner invariant of the tiers. *)
Definition one_tier (w : World) : Prop := forall k, (tier_count w k <= 1)%nat.

Definition set_active (d : dict) (w : World) : World :=
  with_self (with_memory_manager (with_active d (memory_manager (self w))) (self w)) w.
Definition set_working (d : dict) (w : World) : World :=
  with_self (with_memory_manager (with_working d (memory_manager (self w))) (self w)) w.
Definition set_long_term (d : dict) (w : World) : World :=
  with_self (with_memory_manager (with_long_term d (memory_manager (self w))) (self w)) w.

(** Whether the entry [e] of the long-term tier outlives a cleanup with the
    given cutoff. *)
Definition survives (h : list ContextSegment) (cutoff_time : datetime)
    (e : string * ref) : bool :=
  match h !! e.2 with
  | Some x => negb (expired cutoff_time x)
  | None => true
  end.

(** The segment [add_context] constructs. *)
Definition new_segment (k content : string) (metadata : option (list (string * string)))
    (t : datetime) : ContextSegment :=
  {| id := k; content := content;
     metadata := match metadata with None => [] | Some m => m end;
     timestamp := t; relevance_score := 1.0%float; access_count := 0;
     compression_ratio := 1.0%float |}.

(** The metrics update that ends [add_context]. *)
Definition count_added (w : World) : World :=
  with_self
    (with_metrics
       (with_active_segments (Z.of_nat (length (dict_values (active_of w))))
          (with_total_segments (total_segments (metrics (self w)) + 1) (metrics (self w))))
       (self w)) w.

(** The score of a segment created at [created] can be taken at [t]: the
    divisor [1.0 + time_decay] is not zero.  It is zero only when the clock
    shows exactly one hour less than at the creation. *)
Definition decay_defined (created t : datetime) : Prop :=
  PrimFloat.eqb
    (PrimFloat.add 1.0%float
       (PrimFloat.div (total_seconds (t - created)) 3600%float))
    0%float = false.

(** The store invariant of the controller. *)
Definition inv (w : World) : Prop := wf w /\ one_tier w.

(** Every object of [h] is still there in [h'], under the same id. *)
Definition ids_stable (h h' : list ContextSegment) : Prop :=
  forall r x, h !! r = Some x -> exists x', h' !! r = Some x' /\ id x' = id x.

(** [w'] has the tier dictionaries of [w] and the objects of [w], possibly
    with other field values, possibly more objects. *)
Definition steady (w w' : World) : Prop :=
  memory_manager (self w') = memory_manager (self w)
  /\ ids_stable (heap w) (heap w').

(** A computation that never touches the tier dictionaries nor an id. *)
Definition keeps {A} (m : M A) : Prop := forall w, steady w (snd (m w)).

(** A computation that maintains the store invariant, however it ends. *)
Definition preserves {A} (m : M A) : Prop := forall w, inv w -> inv (snd (m w)).

Definition unrecognized (tier : string) : Prop :=
  tier <> MemoryTier.ACTIVE /\ tier <> MemoryTier.WORKING /\ tier <> MemoryTier.LONG_TERM.

(** ** Classes of binary64 values *)

Module Binary64.

Definition is_nan (x : spec_float) : bool :=
  match x with S754_nan => true | _ => false end.

(** Not a negative number (not-a-number counts). *)
Definition not_negative (x : spec_float) : Prop :=
  match x with
  | S754_zero _ => True
  | S754_infinity s | S754_finite s _ _ => s = false
  | S754_nan => True
  end.

(** A positive number or not-a-number. *)
Definition positive_or_nan (x : spec_float) : Prop :=
  match x with
  | S754_zero _ => False
  | S754_infinity s | S754_finite s _ _ => s = false
  | S754_nan => True
  end.

(** The comparison of two numbers is the lexicographic comparison of
    their keys. *)
Definition key (x : spec_float) : Z * Z * Z :=
  match x with
  | S754_nan => (0, 0, 0)
  | S754_zero _ => (0, 0, 0)
  | S754_infinity true => (-2, 0, 0)
  | S754_infinity false => (2, 0, 0)
  | S754_finite true m e => (-1, - e, - Z.pos m)
  | S754_finite false m e => (1, e, Z.pos m)
  end.

Definition le3 (a b : Z * Z * Z) : Prop :=
  let '(a1, a2, a3) := a in
  let '(b1, b2, b3) := b in
  a1 < b1 \/ (a1 = b1 /\ (a2 < b2 \/ (a2 = b2 /\ a3 <= b3))).

End Binary64.

(** ** The reference retrieval strategy, in the words of the specification *)

Module KeywordSpec.

(** The lower-cased word set of a text. *)
Definition word_set (s : string) : gset string :=
  list_to_set (PyStr.split (PyStr.lower s)).

(** [|query_words ∩ content_words|] *)
Definition overlap (query content : string) : Z :=
  Z.of_nat (size (word_set query ∩ word_set content)).

(** [score = |query_words ∩ content_words| / |query_words|] *)
Definition score (query content : string) : float :=
  int_truediv (overlap query content) (Z.of_nat (size (word_set query))).

(** Segments with zero overlap are excluded. *)
Definition included (query content : string) : bool := 0 <? overlap query content.

Definition content_at (h : list ContextSegment) (r : ref) : string :=
  match h !! r with Some x => content x | None => "" end.

(** The included candidates, in descending order of score, ties in their
    original order. *)
Definition ranking (h : list ContextSegment) (query : string) (candidates : list ref)
  : list ref :=
  sort_by PrimFloat.ltb (fun r => score query (content_at h r))
    (List.filter (fun r => included query (content_at h r)) candidates).

(** What a retrieval makes of the object [x] behind [r]: an included
    candidate carries its score, every other object is as it was. *)
Definition rescored (query : string) (candidates : list ref) (r : ref)
    (x : ContextSegment) : ContextSegment :=
  if bool_decide (r ∈ candidates) && included query (content x)
  then with_relevance_score (score query (content x)) x
  else x.

End KeywordSpec.

(** ** Histories of the controller *)

Inductive operation :=
| AddContext (content : string) (metadata : option (list (string * string)))
| RetrieveRelevant (query : string) (limit : Z)
| RemoveContext (segment_id : string)
| CompressContext (segment_id : string)
| OptimizeActive
| CleanupOldSegments
| Optimize
| GetMetrics.

Section Histories.

Variable now_at : nat -> datetime.
Variable md5_hexdigest : string -> datetime -> string.

(** The world after a call, whether it returned or raised. *)
Definition perform (o : operation) (w : World) : World :=
  match o with
  | AddContext c md => snd (add_context now_at md5_hexdigest c md w)
  | RetrieveRelevant q limit => snd (retrieve_relevant now_at q limit w)
  | RemoveContext k => snd (remove_context k w)
  | CompressContext k => snd (compress_context k w)
  | OptimizeActive => snd (_optimize_active_memory now_at w)
  | CleanupOldSegments => snd (_cleanup_old_segments now_at w)
  | Optimize => snd (optimize now_at w)
  | GetMetrics => snd (get_metrics w)
  end.

(** The id that an ingestion is about to generate is held by no tier. *)
Definition generates_fresh_id (o : operation) (w : World) : Prop :=
  match o with
  | AddContext c _ => tier_count w (md5_hexdigest c (now_at (ticks w))) = 0%nat
  | _ => True
  end.

Inductive reachable (cfg : ContextConfig) : World -> Prop :=
| reachable_new : reachable cfg (new now_at cfg)
| reachable_step (w : World) (o : operation) :
    reachable cfg w -> generates_fresh_id o w -> reachable cfg (perform o w).

End Histories.

(** ** Further observations on a world *)

(** The dictionary behind a tier name; a name that is not one of the three
    has none. *)
Definition tier_of (tier : string) (w : World) : dict :=
  if String.eqb tier MemoryTier.ACTIVE then active_of w
  else if String.eqb tier MemoryTier.WORKING then working_of w
  else if String.eqb tier MemoryTier.LONG_TERM then long_term_of w
  else [].

(** [sum(len(segment.content) for segment in l)] *)
Definition total_length (h : list ContextSegment) (l : list ref) : Z :=
  foldr (fun r n => match h !! r with
                    | Some x => PyStr.len (content x) + n
                    | None => n
                    end) 0 l.

(** Every reference that a tier holds, in the order of the search. *)
Definition stored_refs (w : World) : list ref :=
  dict_values (active_of w) ++ dict_values (working_of w) ++ dict_values (long_term_of w).

(** The metrics update of a [remove_context] that found the id. *)
Definition count_removed (w : World) : World :=
  with_self
    (with_metrics
       (with_active_segments (Z.of_nat (length (dict_values (active_of w))))
          (with_total_segments (total_segments (metrics (self w)) - 1) (metrics (self w))))
       (self w)) w.

(** The number of entries of the three tiers. *)
Definition stored_count (w : World) : Z :=
  Z.of_nat (length (active_of w) + length (working_of w) + length (long_term_of w)).

(** The message of [int()] on a NaN. *)
Definition nan_message : string := "cannot convert float NaN to integer".

(** A number between 0 and 1, by its representation. *)
Definition unit_ratio (x : spec_float) : Prop :=
  match x with
  | S754_zero _ => True
  | S754_finite false m e => e <= -52 /\ Z.pos m < 2 ^ 53
  | _ => False
  end.

(** The configuration and the four metrics that only the constructor
    assigns. *)
Definition fixed_part (w : World) : ContextConfig * (Z * float * float * Z) :=
  (config (self w),
   (total_size_bytes (metrics (self w)), m_compression_ratio (metrics (self w)),
    cache_hit_rate (metrics (self w)), memory_usage_bytes (metrics (self w)))).

(** A computation that assigns none of them. *)
Definition quiet {A} (m : M A) : Prop := forall w, fixed_part (snd (m w)) = fixed_part w.

(** ** [ContextManager.get_status] *)

Section Status.

(** [t.isoformat()] *)
Variable isoformat : datetime -> string.

Record status := mkStatus {
  s_memory_usage : MemoryManager.usage;
  s_metrics : ContextMetrics;
  s_config : ContextConfig;
  s_last_cleanup : string
}.

Definition get_status : M status :=
  memory_usage <- MemoryManager.get_memory_usage ;;
  metrics <- get_metrics ;;
  w <- get ;;
  ret {| s_memory_usage := memory_usage;
         s_metrics := metrics;
         s_config := config (self w);
         s_last_cleanup := isoformat (_last_cleanup (self w)) |}.

End Status.

(** ** Histories in which the count is kept *)

Section Bookkeeping.

Variable now_at : nat -> datetime.
Variable md5_hexdigest : string -> datetime -> string.

(** The calls that keep [total_segments] in step with the tiers: every
    call but the two that expire segments, an ingestion only when it
    returns. *)
Definition counted (o : operation) (w : World) : Prop :=
  match o with
  | AddContext c md =>
      exists k w', add_context now_at md5_hexdigest c md w = (Ret k, w')
  | CleanupOldSegments | Optimize => False
  | _ => True
  end.

Inductive bookkept (cfg : ContextConfig) : World -> Prop :=
| bookkept_new : bookkept cfg (new now_at cfg)
| bookkept_step (w : World) (o : operation) :
    bookkept cfg w -> generates_fresh_id now_at md5_hexdigest o w -> counted o w ->
    bookkept cfg (perform now_at md5_hexdigest o w).

End Bookkeeping.

(** ** [ContextSegment.to_dict] and [ContextSegment.from_dict]

    A [Dict[str, Any]] is an association list from field names to values
    of the types that occur in a segment.  [from_dict] assigns to the
    dictionary it is given, so it returns the dictionary along with its
    result; the instance it constructs is given by its fields, in the order
    of their declaration. *)

Module Serialization.

Inductive value :=
| VStr (s : string)
| VInt (n : Z)
| VFloat (x : float)
| VDatetime (t : datetime)
| VDict (d : list (string * string)).

Inductive error :=
| KeyError (key : string)
| TypeError
| ValueError.

Inductive result (A : Type) :=
| Ok (a : A)
| Err (e : error).
Arguments Ok {A} a.
Arguments Err {A} e.

Definition pydict := list (string * value).

(** [d.get(k)] *)
Fixpoint lookup (d : pydict) (k : string) : option value :=
  match d with
  | [] => None
  | (k', v) :: d' => if String.eqb k' k then Some v else lookup d' k
  end.

(** [d[k] = v] *)
Fixpoint assign (d : pydict) (k : string) (v : value) : pydict :=
  match d with
  | [] => [(k, v)]
  | (k', v') :: d' => if String.eqb k' k then (k', v) :: d'
                      else (k', v') :: assign d' k v
  end.

(** [asdict(self)] *)
Definition to_dict (x : ContextSegment) : pydict :=
  [("id", VStr (id x)); ("content", VStr (content x)); ("metadata", VDict (metadata x));
   ("timestamp", VDatetime (timestamp x)); ("relevance_score", VFloat (relevance_score x));
   ("access_count", VInt (access_count x));
   ("compression_ratio", VFloat (compression_ratio x))].

(** The fields of the dataclass and the defaults of the last three. *)
Definition field_names : list string :=
  ["id"; "content"; "metadata"; "timestamp"; "relevance_score"; "access_count";
   "compression_ratio"].

Definition defaults : pydict :=
  [("relevance_score", VFloat 0.0%float); ("access_count", VInt 0);
   ("compression_ratio", VFloat 1.0%float)].

Fixpoint bind_fields (names : list string) (kwargs : pydict) : option pydict :=
  match names with
  | [] => Some []
  | f :: names' =>
      match (match lookup kwargs f with Some v => Some v | None => lookup defaults f end) with
      | None => None
      | Some v =>
          match bind_fields names' kwargs with
          | None => None
          | Some fs => Some ((f, v) :: fs)
          end
      end
  end.

(** The constructor call with the entries of [data] as keyword arguments:
    a keyword that is no field, or a field without default that is missing,
    is a [TypeError]; the values are not checked. *)
Definition construct (data : pydict) : result pydict :=
  if forallb (fun kv => existsb (String.eqb (fst kv)) field_names) data
  then match bind_fields field_names data with
       | Some fs => Ok fs
       | None => Err TypeError
       end
  else Err TypeError.

Section FromDict.

(** [datetime.fromisoformat] on a [str]; [None] where it raises
    [ValueError]. *)
Variable parse_isoformat : string -> option datetime.

Definition fromisoformat (v : value) : result datetime :=
  match v with
  | VStr s =>
      match parse_isoformat s with
      | Some t => Ok t
      | None => Err ValueError
      end
  | _ => Err TypeError
  end.

Definition from_dict (data : pydict) : result pydict * pydict :=
  match lookup data "timestamp" with
  | None => (Err (KeyError "timestamp"), data)
  | Some v =>
      match fromisoformat v with
      | Err e => (Err e, data)
      | Ok t =>
          let data := assign data "timestamp" (VDatetime t) in
          (construct data, data)
      end
  end.

End FromDict.

End Serialization.

(** ** Sample inputs *)

(** A clock that advances one second per reading, and a stand-in for the
    digest that keeps the two inputs apart. *)
Definition demo_clock (n : nat) : datetime := 1000000 * Z.of_nat n.
Definition demo_digest (content : string) (t : datetime) : string :=
  (content ++ "@" ++ pretty t)%string.

(** A store with one ingested segment of forty characters. *)
Definition fox : string := "the quick brown fox jumps over lazy dogs".
Definition fox_id : string := demo_digest fox (demo_clock 1).
Definition fox_world : World :=
  snd (add_context demo_clock demo_digest fox None (new demo_clock default_config)).

(** Two long-term segments created at time 0, read once and twice, and a
    clock that shows the thirty-first day. *)
Definition day31_clock (n : nat) : datetime := timedelta_of_days 31.
Definition old_segment (k : string) (n : Z) : ContextSegment :=
  {| id := k; content := "archived note"; metadata := []; timestamp := 0;
     relevance_score := 1.0%float; access_count := n; compression_ratio := 1.0%float |}.
Definition archive_world : World :=
  set_long_term [("seen-once", 0%nat); ("seen-twice", 1%nat)]
    (with_heap [old_segment "seen-once" 1; old_segment "seen-twice" 2]
       (new day31_clock default_config)).

(** A store with two ingested segments, both in the active tier, and what
    one and two optimization passes make of it. *)
Definition pair_world : World :=
  snd (add_context demo_clock demo_digest "second note" None
         (snd (add_context demo_clock demo_digest "first note" None
                 (new demo_clock default_config)))).
Definition pair_world_once : World :=
  snd (_optimize_active_memory demo_clock pair_world).
Definition pair_world_twice : World :=
  snd (_optimize_active_memory demo_clock pair_world_once).

(** A history: two ingestions, a pass, a compression, a removal. *)
Definition sample_history : list operation :=
  [AddContext "first note" None; AddContext "second note" None; OptimizeActive;
   CompressContext "first note@1000000"; RemoveContext "second note@3000000"].
Definition sample_world : World :=
  fold_left (fun w o => perform demo_clock demo_digest o w) sample_history
    (new demo_clock default_config).

(** Scenario A: one ingested segment. *)
Definition alpha_world : World :=
  snd (add_context demo_clock demo_digest "alpha beta gamma" None
         (new demo_clock default_config)).

(** A budget of ten characters. *)
Definition small_config : ContextConfig :=
  {| max_context_size := 10;
     working_memory_size := 128000;
     compression_strategy := CompressionStrategy.ADAPTIVE;
     compression_target_ratio := 0.3%float;
     compression_quality_threshold := 0.8%float;
     retrieval_strategy := RetrievalStrategy.KEYWORD;
     similarity_threshold := 0.7%float;
     max_retrieval_results := 20;
     cleanup_interval_minutes := 60;
     metrics_enabled := true |}.

(** A clock that stands still, and one that is set back by an hour after
    its third reading. *)
Definition still_clock (n : nat) : datetime := 0.
Definition set_back_clock (n : nat) : datetime :=
  if (n <=? 2)%nat then 3600000000 else 0.

(** One ingested segment under the clock that is set back. *)
Definition set_back_world : World :=
  snd (add_context set_back_clock demo_digest "abcdef" None
         (new set_back_clock default_config)).

(** A history without expiry: an ingestion, a retrieval, a removal. *)
Definition counted_history : list operation :=
  [AddContext "first note" None; RetrieveRelevant "note" 5;
   RemoveContext "first note@1000000"].
Definition counted_world : World :=
  fold_left (fun w o => perform demo_clock demo_digest o w) counted_history
    (new demo_clock default_config).

(** A store whose one active segment has been read more often than a float
    can count, and a configuration whose cleanup interval is more than a
    [timedelta] can hold. *)
Definition much_read : ContextSegment :=
  {| id := "much read"; content := "abcdef"; metadata := []; timestamp := 0;
     relevance_score := 1.0%float; access_count := 10 ^ 400;
     compression_ratio := 1.0%float |}.
Definition much_read_world : World :=
  set_active [("much read", 0%nat)] (with_heap [much_read] (new still_clock small_config)).
Definition long_interval_config : ContextConfig :=
  {| max_context_size := 32000;
     working_memory_size := 128000;
     compression_strategy := CompressionStrategy.ADAPTIVE;
     compression_target_ratio := 0.3%float;
     compression_quality_threshold := 0.8%float;
     retrieval_strategy := RetrievalStrategy.HYBRID;
     similarity_threshold := 0.7%float;
     max_retrieval_results := 20;
     cleanup_interval_minutes := 1440000000000;
     metrics_enabled := true |}.

(** An ISO parser that knows one string. *)
Definition demo_isoformat (s : string) : option datetime :=
  if String.eqb s "1970-01-01T00:00:02" then Some 2000000 else None.

(** * Theorems *)

(** ** The tier store on a tier name it does not know *)

Lemma eqb_unrecognized tier :
  unrecognized tier ->
  String.eqb tier MemoryTier.ACTIVE = false
  /\ String.eqb tier MemoryTier.WORKING = false
  /\ String.eqb tier MemoryTier.LONG_TERM = false.
Proof.
  intros (Ha & Hw & Hl). repeat split; now apply String.eqb_neq.
Qed.

(** C10: on an unrecognized tier name the read-by-id path returns [None],
    [delete] returns [False] and [get_all_segments] returns the empty list,
    each without raising and without changing the world; [store] is the one
    operation that raises ([ValueError]), and it changes nothing either. *)
Theorem C10_unknown_tier (tier segment_id : string) (segment : ref) (w : World) :
  unrecognized tier ->
  MemoryManager.retrieve tier segment_id w = (Ret None, w)
  /\ MemoryManager.delete tier segment_id w = (Ret false, w)
  /\ MemoryManager.get_all_segments tier w = (Ret [], w)
  /\ MemoryManager.store tier segment w
     = (Raise (ValueError ("Unknown memory tier: " ++ tier)%string), w).
Proof.
  intros H. destruct (eqb_unrecognized tier H) as (Ha & Hw & Hl).
  unfold MemoryManager.retrieve, MemoryManager.delete,
    MemoryManager.get_all_segments, MemoryManager.store, bind, MemoryManager.tiers.
  rewrite Ha, Hw, Hl. repeat split.
Qed.

Lemma C10_unknown_tier_witness :
  unrecognized "archive"
  /\ MemoryManager.retrieve "archive" "k" (new demo_clock default_config)
     = (Ret None, new demo_clock default_config).
Proof.
  assert (H : unrecognized "archive") by (repeat split; discriminate).
  split; [exact H |].
  exact (proj1 (C10_unknown_tier "archive" "k" 0%nat (new demo_clock default_config) H)).
Defined.

(** ** Searching for an id that no tier holds *)

Lemma holds_false_get (d : dict) (k : string) :
  holds d k = false -> dict_get d k = None.
Proof.
  unfold holds. destruct (dict_get d k); [discriminate | reflexivity].
Qed.

Lemma retrieve_miss (tier k : string) (w : World) :
  holds (active_of w) k = false ->
  holds (working_of w) k = false ->
  holds (long_term_of w) k = false ->
  MemoryManager.retrieve tier k w = (Ret None, w).
Proof.
  intros Ha Hw Hl.
  apply holds_false_get in Ha, Hw, Hl.
  unfold active_of, working_of, long_term_of in *.
  unfold MemoryManager.retrieve, MemoryManager.tiers, bind.
  repeat (destruct (String.eqb tier _); [ rewrite ?Ha, ?Hw, ?Hl; reflexivity | ]).
  reflexivity.
Qed.

Lemma find_segment_miss (tiers : list string) (k : string) (w : World) :
  holds (active_of w) k = false ->
  holds (working_of w) k = false ->
  holds (long_term_of w) k = false ->
  find_segment tiers k w = (Ret None, w).
Proof.
  intros Ha Hw Hl. induction tiers as [| t ts IH]; [reflexivity |].
  simpl. unfold bind at 1. rewrite retrieve_miss by assumption. exact IH.
Qed.

(** C8: for an id that none of the three tiers holds, [compress_context]
    returns [False], raises nothing, and leaves the whole world (the three
    tier collections and every field of every segment) as it was. *)
Theorem C8_compress_absent (segment_id : string) (w : World) :
  holds (active_of w) segment_id = false ->
  holds (working_of w) segment_id = false ->
  holds (long_term_of w) segment_id = false ->
  compress_context segment_id w = (Ret false, w).
Proof.
  intros Ha Hw Hl. unfold compress_context, bind.
  rewrite find_segment_miss by assumption. reflexivity.
Qed.

Lemma C8_compress_absent_witness :
  compress_context "0cc175b9c0f1b6a831c399e269772661" fox_world = (Ret false, fox_world).
Proof.
  apply C8_compress_absent; reflexivity.
Defined.

(** ** What [compress_context] does to the segment it finds *)

Lemma touch_some (r : ref) (x : ContextSegment) (w : World) :
  heap w !! r = Some x ->
  MemoryManager.touch (Some r) w
  = (Ret (Some r), with_heap (<[r := touched x]> (heap w)) w).
Proof.
  intros Hx. unfold MemoryManager.touch, update, bind, deref. rewrite Hx. reflexivity.
Qed.

Lemma touch_dangling (r : ref) (w : World) :
  heap w !! r = None ->
  MemoryManager.touch (Some r) w = (Raise DanglingReference, w).
Proof.
  intros Hx. unfold MemoryManager.touch, update, bind, deref. rewrite Hx. reflexivity.
Qed.

Lemma find_segment_all (k : string) (w : World) :
  find_segment all_tiers k w
  = match locate w k with
    | None => (Ret None, w)
    | Some (r, t) =>
        match heap w !! r with
        | Some x => (Ret (Some (r, t)), with_heap (<[r := touched x]> (heap w)) w)
        | None => (Raise DanglingReference, w)
        end
    end.
Proof.
  unfold locate, active_of, working_of, long_term_of.
  cbn [find_segment all_tiers].
  unfold bind, MemoryManager.retrieve, MemoryManager.tiers, bind. cbn [String.eqb].
  change (String.eqb MemoryTier.ACTIVE MemoryTier.ACTIVE) with true.
  change (String.eqb MemoryTier.WORKING MemoryTier.ACTIVE) with false.
  change (String.eqb MemoryTier.WORKING MemoryTier.WORKING) with true.
  change (String.eqb MemoryTier.LONG_TERM MemoryTier.ACTIVE) with false.
  change (String.eqb MemoryTier.LONG_TERM MemoryTier.WORKING) with false.
  change (String.eqb MemoryTier.LONG_TERM MemoryTier.LONG_TERM) with true.
  cbv iota.
  destruct (dict_get (active_memory _) k) as [r |].
  { destruct (heap w !! r) as [x |] eqn:Hx.
    - now rewrite (touch_some r x w Hx).
    - now rewrite (touch_dangling r w Hx). }
  cbn [MemoryManager.touch ret].
  destruct (dict_get (working_memory _) k) as [r |].
  { destruct (heap w !! r) as [x |] eqn:Hx.
    - now rewrite (touch_some r x w Hx).
    - now rewrite (touch_dangling r w Hx). }
  cbn [MemoryManager.touch ret].
  destruct (dict_get (long_term_memory _) k) as [r |]; [| reflexivity].
  destruct (heap w !! r) as [x |] eqn:Hx.
  - now rewrite (touch_some r x w Hx).
  - now rewrite (touch_dangling r w Hx).
Qed.

Lemma store_recognized (tier : string) (r : ref) (x : ContextSegment) (w : World) :
  heap w !! r = Some x ->
  ~ unrecognized tier ->
  MemoryManager.store tier r w
  = (Ret (id x),
     with_self (with_memory_manager (stored tier (id x) r (memory_manager (self w))) (self w)) w).
Proof.
  intros Hx Ht. unfold MemoryManager.store, stored.
  destruct (String.eqb tier MemoryTier.ACTIVE) eqn:Ea;
    [| destruct (String.eqb tier MemoryTier.WORKING) eqn:Ew;
       [| destruct (String.eqb tier MemoryTier.LONG_TERM) eqn:El]].
  1-3: unfold bind, deref, MemoryManager.set_tiers, modify; rewrite Hx; cbn; rewrite Hx;
       reflexivity.
  exfalso. apply Ht. repeat split; now apply String.eqb_neq.
Qed.

Lemma locate_recognized (w : World) (k : string) (r : ref) (t : string) :
  locate w k = Some (r, t) -> ~ unrecognized t.
Proof.
  unfold locate. intros H (Ha & Hw & Hl).
  destruct (dict_get (active_of w) k); [congruence |].
  destruct (dict_get (working_of w) k); [congruence |].
  destruct (dict_get (long_term_of w) k); congruence.
Qed.

Lemma compress_context_found (k : string) (w : World) (r : ref) (t : string)
    (x : ContextSegment) :
  locate w k = Some (r, t) ->
  heap w !! r = Some x ->
  compress_context k w
  = match BasicCompressionEngine.compress (content x)
            (compression_target_ratio (config (self w))) with
    | Ret c =>
        (Ret true,
         with_self (with_memory_manager (stored t (id x) r (memory_manager (self w))) (self w))
           (with_heap (<[r := compressed c x]> (heap w)) w))
    | Raise e => (Raise e, with_heap (<[r := touched x]> (heap w)) w)
    end.
Proof.
  intros Hloc Hx.
  pose proof (lookup_lt_Some _ _ _ Hx) as Hlt.
  unfold compress_context. unfold bind at 1. rewrite find_segment_all, Hloc, Hx.
  unfold bind at 1. unfold deref at 1. cbn [heap with_heap].
  rewrite list_lookup_insert_eq by assumption.
  unfold bind at 1. unfold the_config at 1. cbn [self with_heap].
  unfold bind at 1. unfold lift at 1. cbn [content touched with_access_count].
  destruct (BasicCompressionEngine.compress _ _) as [c | e]; [| reflexivity].
  unfold bind at 1. unfold update at 1. unfold bind at 1. unfold deref at 1.
  cbn [heap with_heap]. rewrite list_lookup_insert_eq by assumption.
  unfold modify at 1. cbn [heap with_heap]. rewrite list_insert_insert_eq.
  unfold bind at 1. unfold deref at 1. cbn [heap with_heap].
  rewrite list_lookup_insert_eq by assumption.
  unfold bind at 1. unfold update at 1. unfold bind at 1. unfold deref at 1.
  cbn [heap with_heap]. rewrite list_lookup_insert_eq by assumption.
  unfold modify at 1. cbn [heap with_heap]. rewrite list_insert_insert_eq.
  unfold bind at 1.
  erewrite store_recognized;
    [| cbn [heap with_heap]; apply list_lookup_insert_eq; assumption
     | eapply locate_recognized; eassumption ].
  reflexivity.
Qed.

(** C9: a [compress_context] call that returns [True] has found the segment
    through the read-by-id path of the tier store, and the found segment's
    [access_count] is one more after the call than before it. *)
Theorem C9_compress_counts_as_access (segment_id : string) (w w' : World) :
  compress_context segment_id w = (Ret true, w') ->
  exists (r : ref) (tier : string) (x x' : ContextSegment),
    locate w segment_id = Some (r, tier)
    /\ heap w !! r = Some x
    /\ heap w' !! r = Some x'
    /\ access_count x' = access_count x + 1.
Proof.
  intros H.
  destruct (locate w segment_id) as [[r t] |] eqn:Hloc.
  - destruct (heap w !! r) as [x |] eqn:Hx.
    + rewrite (compress_context_found _ _ _ _ _ Hloc Hx) in H.
      destruct (BasicCompressionEngine.compress _ _) as [c | e]; [| discriminate].
      injection H as <-.
      exists r, t, x, (compressed c x). repeat split; try assumption.
      cbn [heap with_heap with_self]. apply list_lookup_insert_eq.
      eapply lookup_lt_Some; eassumption.
    + unfold compress_context, bind in H. rewrite find_segment_all, Hloc, Hx in H.
      discriminate.
  - unfold compress_context, bind in H. rewrite find_segment_all, Hloc in H.
    discriminate.
Qed.

Lemma C9_compress_counts_as_access_witness :
  exists (r : ref) (tier : string) (x x' : ContextSegment),
    locate fox_world fox_id = Some (r, tier)
    /\ heap fox_world !! r = Some x
    /\ heap (snd (compress_context fox_id fox_world)) !! r = Some x'
    /\ access_count x' = access_count x + 1.
Proof.
  apply (C9_compress_counts_as_access fox_id fox_world).
  vm_compute. reflexivity.
Defined.

(** The ratio recorded by a successful [compress_context] is the engine's
    ratio of the new content to itself: the content is overwritten before
    the ratio is taken. *)
Lemma compress_context_ratio (segment_id : string) (w w' : World) :
  compress_context segment_id w = (Ret true, w') ->
  exists (r : ref) (tier : string) (x' : ContextSegment),
    locate w segment_id = Some (r, tier)
    /\ heap w' !! r = Some x'
    /\ compression_ratio x'
       = BasicCompressionEngine.get_compression_ratio (content x') (content x').
Proof.
  intros H.
  destruct (locate w segment_id) as [[r t] |] eqn:Hloc.
  - destruct (heap w !! r) as [x |] eqn:Hx.
    + rewrite (compress_context_found _ _ _ _ _ Hloc Hx) in H.
      destruct (BasicCompressionEngine.compress _ _) as [c | e]; [| discriminate].
      injection H as <-.
      exists r, t, (compressed c x). repeat split.
      cbn [heap with_heap with_self]. apply list_lookup_insert_eq.
      eapply lookup_lt_Some; eassumption.
    + unfold compress_context, bind in H. rewrite find_segment_all, Hloc, Hx in H.
      discriminate.
  - unfold compress_context, bind in H. rewrite find_segment_all, Hloc in H.
    discriminate.
Qed.

(** C1, evaluated: the forty characters of [fox] are compressed to
    twenty-nine, so the ratio of the claim is 29/40; the call returns [True]
    and records 1.0. *)
Theorem C1_ratio_recorded_is_one :
  exists (w' : World) (x' : ContextSegment),
    compress_context fox_id fox_world = (Ret true, w')
    /\ heap w' !! 0%nat = Some x'
    /\ content x' = "the quic...[truncated]...dogs"
    /\ PyStr.len (content x') = 29 /\ PyStr.len fox = 40
    /\ compression_ratio x' = 1.0%float
    /\ PrimFloat.eqb (compression_ratio x') (int_truediv 29 40) = false.
Proof.
  eexists. eexists. split; [vm_compute; reflexivity |].
  split; [vm_compute; reflexivity |].
  repeat split; vm_compute; reflexivity.
Qed.

(** ** The length of what the compression engine returns *)

Lemma length_string_of_list (l : list ascii) :
  String.length (string_of_list_ascii l) = length l.
Proof. induction l as [| a l IH]; simpl; [reflexivity | now rewrite IH]. Qed.

Lemma length_list_of_string (s : string) :
  length (list_ascii_of_string s) = String.length s.
Proof. induction s as [| a s IH]; simpl; [reflexivity | now rewrite IH]. Qed.

Lemma length_string_app (s t : string) :
  String.length (s ++ t)%string = (String.length s + String.length t)%nat.
Proof. induction s as [| a s IH]; simpl; [reflexivity | now rewrite IH]. Qed.

Lemma len_slice_to (s : string) (k : Z) :
  0 <= k <= PyStr.len s -> PyStr.len (PyStr.slice_to s k) = k.
Proof.
  unfold PyStr.len, PyStr.slice_to, PySeq.slice_to. intros [H0 H1].
  rewrite (proj2 (Z.leb_le 0 k)) by assumption.
  rewrite length_string_of_list, length_take, length_list_of_string. lia.
Qed.

Lemma len_slice_from_end (s : string) (k : Z) :
  0 < k <= PyStr.len s -> PyStr.len (PyStr.slice_from s (- k)) = k.
Proof.
  unfold PyStr.len, PyStr.slice_from, PySeq.slice_from. intros [H0 H1].
  rewrite (proj2 (Z.leb_gt 0 (- k))) by lia.
  rewrite length_string_of_list, length_drop, length_list_of_string. lia.
Qed.

(** The part of the reference behaviour that holds: when the target length
    reaches the length of the content, the content comes back as it is. *)
Lemma compress_unchanged (c : string) (r n : float) (target_length : Z) :
  float_of_int (PyStr.len c) = Ret n ->
  int_of_float (PrimFloat.mul n r) = Ret target_length ->
  PyStr.len c <= target_length ->
  BasicCompressionEngine.compress c r = Ret c.
Proof.
  intros Hn Ht Hle. unfold BasicCompressionEngine.compress. rewrite Hn. cbn [obind].
  rewrite Ht. cbn [obind].
  rewrite (proj2 (Z.leb_le _ _)) by assumption. reflexivity.
Qed.

(** When the engine truncates, with characters kept at both ends, the
    result is the target length plus the seventeen characters of the
    marker, whatever the length of the content. *)
Lemma compress_truncated_len (c : string) (r n t : float)
    (target_length keep_start : Z) :
  float_of_int (PyStr.len c) = Ret n ->
  int_of_float (PrimFloat.mul n r) = Ret target_length ->
  target_length < PyStr.len c ->
  float_of_int target_length = Ret t ->
  int_of_float (PrimFloat.mul t 0.7%float) = Ret keep_start ->
  0 <= keep_start < target_length ->
  exists c', BasicCompressionEngine.compress c r = Ret c'
             /\ PyStr.len c' = target_length + 17.
Proof.
  intros Hn Ht Hlt Hc Hk Hks. unfold BasicCompressionEngine.compress.
  rewrite Hn. cbn [obind]. rewrite Ht. cbn [obind].
  rewrite (proj2 (Z.leb_gt _ _)) by assumption.
  rewrite Hc. cbn [obind]. rewrite Hk. cbn [obind]. rewrite (proj2 (Z.ltb_lt _ _)) by lia.
  eexists. split; [reflexivity |].
  pose proof (len_slice_to c keep_start ltac:(lia)) as H1.
  pose proof (len_slice_from_end c (target_length - keep_start) ltac:(lia)) as H2.
  unfold PyStr.len in *. rewrite !length_string_app.
  change (String.length BasicCompressionEngine.marker_mid) with 17%nat. lia.
Qed.

(** C2, evaluated: ten characters at the default target ratio 0.3 come back
    as twenty. *)
Theorem C2_compress_expands_short_content :
  PrimFloat.ltb 0.3%float 1.0%float = true
  /\ BasicCompressionEngine.compress "abcdefghij" 0.3%float = Ret "ab...[truncated]...j"
  /\ PyStr.len "abcdefghij" = 10
  /\ PyStr.len "ab...[truncated]...j" = 20.
Proof. repeat split; vm_compute; reflexivity. Qed.

(** ** Dictionaries *)

Section Dict.

Implicit Types (d : dict) (k : string) (r : ref).

Lemma holds_elem d k : holds d k = true <-> k ∈ dict_keys d.
Proof.
  unfold holds. induction d as [| [k' v] d IH]; cbn.
  - split; [discriminate | intros H; inversion H].
  - rewrite elem_of_cons. destruct (String.eqb_spec k' k) as [-> | Hne]; cbn.
    + tauto.
    + rewrite IH. split; [tauto | intros [-> | H]; [contradiction | exact H]].
Qed.

Lemma holds_false d k : holds d k = false <-> k ∉ dict_keys d.
Proof.
  rewrite <- holds_elem. destruct (holds d k); split; congruence.
Qed.

Lemma dict_get_elem d k r : dict_get d k = Some r -> (k, r) ∈ d.
Proof.
  induction d as [| [k' v] d IH]; cbn; [discriminate |].
  destruct (String.eqb_spec k' k) as [-> | Hne].
  - intros [= ->]. apply elem_of_cons. now left.
  - intros H. apply elem_of_cons. right. now apply IH.
Qed.

Lemma elem_dict_get d k r : NoDup (dict_keys d) -> (k, r) ∈ d -> dict_get d k = Some r.
Proof.
  induction d as [| [k' v] d IH]; cbn; intros Hnd Hin; [inversion Hin |].
  apply NoDup_cons in Hnd as [Hk Hnd]. apply elem_of_cons in Hin as [[= <- <-] | Hin].
  - now rewrite String.eqb_refl.
  - destruct (String.eqb_spec k' k) as [-> | Hne]; [| now apply IH].
    exfalso. apply Hk. unfold dict_keys. apply list_elem_of_fmap. now exists (k, r).
Qed.

Lemma elem_keys d k r : (k, r) ∈ d -> k ∈ dict_keys d.
Proof. intros H. unfold dict_keys. apply list_elem_of_fmap. now exists (k, r). Qed.

Lemma elem_values d k r : (k, r) ∈ d -> r ∈ dict_values d.
Proof. intros H. unfold dict_values. apply list_elem_of_fmap. now exists (k, r). Qed.

Lemma values_elem d r : r ∈ dict_values d -> exists k, (k, r) ∈ d.
Proof.
  unfold dict_values. intros H. apply list_elem_of_fmap in H as [[k r'] [-> H]].
  now exists k.
Qed.

Lemma dict_set_elem d k r k' r' :
  (k', r') ∈ dict_set d k r -> (k' = k /\ r' = r) \/ (k', r') ∈ d.
Proof.
  induction d as [| [k0 v0] d IH]; cbn.
  - intros H. apply list_elem_of_singleton in H as [= -> ->]. now left.
  - destruct (String.eqb_spec k0 k) as [-> | Hne]; intros H;
      apply elem_of_cons in H as [[= -> ->] | H].
    + now left.
    + right. apply elem_of_cons. now right.
    + right. apply elem_of_cons. now left.
    + destruct (IH H) as [? | ?]; [now left |]. right. apply elem_of_cons. now right.
Qed.

Lemma dict_set_keys d k r k' :
  k' ∈ dict_keys (dict_set d k r) <-> k' = k \/ k' ∈ dict_keys d.
Proof.
  induction d as [| [k0 v0] d IH]; cbn.
  - rewrite list_elem_of_singleton. split; [tauto | intros [H | H]; [exact H | inversion H]].
  - destruct (String.eqb_spec k0 k) as [-> | Hne]; cbn; rewrite !elem_of_cons.
    + tauto.
    + rewrite IH. tauto.
Qed.

Lemma dict_set_NoDup d k r : NoDup (dict_keys d) -> NoDup (dict_keys (dict_set d k r)).
Proof.
  induction d as [| [k0 v0] d IH]; cbn; intros Hnd.
  - apply NoDup_cons. split; [intros H; inversion H | constructor].
  - apply NoDup_cons in Hnd as [Hk Hnd].
    destruct (String.eqb_spec k0 k) as [-> | Hne]; cbn; apply NoDup_cons.
    + now split.
    + split; [| now apply IH].
      intros H. apply dict_set_keys in H as [H | H]; [congruence | contradiction].
Qed.

Lemma dict_set_holds d k r k' :
  holds (dict_set d k r) k' = String.eqb k' k || holds d k'.
Proof.
  apply eq_true_iff_eq. rewrite orb_true_iff, !holds_elem, dict_set_keys.
  now rewrite String.eqb_eq.
Qed.

Lemma dict_set_same d k r : dict_get d k = Some r -> dict_set d k r = d.
Proof.
  induction d as [| [k0 v0] d IH]; cbn; [discriminate |].
  destruct (String.eqb_spec k0 k) as [-> | Hne].
  - now intros [= ->].
  - intros H. now rewrite IH.
Qed.

Lemma dict_pop_elem d k k' r' : (k', r') ∈ (dict_pop d k).2 -> (k', r') ∈ d.
Proof.
  induction d as [| [k0 v0] d IH]; cbn; [easy |].
  destruct (String.eqb_spec k0 k) as [-> | Hne]; cbn.
  - intros H. apply elem_of_cons. now right.
  - destruct (dict_pop d k) as [o d'] eqn:E. cbn in *. intros H.
    apply elem_of_cons in H as [H | H]; apply elem_of_cons; [now left | right; now apply IH].
Qed.

Lemma dict_pop_keys d k k' : k' ∈ dict_keys (dict_pop d k).2 -> k' ∈ dict_keys d.
Proof.
  unfold dict_keys. intros H. apply list_elem_of_fmap in H as [[k0 r0] [-> H]].
  apply list_elem_of_fmap. exists (k0, r0). split; [reflexivity |].
  eapply dict_pop_elem; eassumption.
Qed.

Lemma dict_pop_NoDup d k : NoDup (dict_keys d) -> NoDup (dict_keys (dict_pop d k).2).
Proof.
  induction d as [| [k0 v0] d IH]; cbn; intros Hnd; [constructor |].
  apply NoDup_cons in Hnd as [Hk Hnd].
  destruct (String.eqb_spec k0 k) as [-> | Hne]; cbn; [assumption |].
  specialize (IH Hnd). destruct (dict_pop d k) as [o d'] eqn:E. cbn in *.
  apply NoDup_cons. split; [| assumption].
  intros H. apply Hk. pose proof (dict_pop_keys d k k0) as Hp. rewrite E in Hp. now apply Hp.
Qed.

Lemma dict_pop_gone d k : NoDup (dict_keys d) -> k ∉ dict_keys (dict_pop d k).2.
Proof.
  induction d as [| [k0 v0] d IH]; cbn; intros Hnd; [intros H; inversion H |].
  apply NoDup_cons in Hnd as [Hk Hnd].
  destruct (String.eqb_spec k0 k) as [-> | Hne]; cbn; [assumption |].
  specialize (IH Hnd). destruct (dict_pop d k) as [o d'] eqn:E. cbn in *.
  intros H. apply elem_of_cons in H as [H | H]; [congruence | contradiction].
Qed.

Lemma dict_pop_holds_le d k k' : holds (dict_pop d k).2 k' = true -> holds d k' = true.
Proof. rewrite !holds_elem. apply dict_pop_keys. Qed.

Lemma dict_pop_result d k : MemoryManager.is_not_None (dict_pop d k).1 = holds d k.
Proof.
  unfold holds. induction d as [| [k0 v0] d IH]; cbn; [reflexivity |].
  destruct (String.eqb_spec k0 k) as [-> | Hne]; cbn; [reflexivity |].
  destruct (dict_pop d k) as [o d'] eqn:E. cbn in *. exact IH.
Qed.

Lemma dict_pop_miss d k : holds d k = false -> (dict_pop d k).2 = d.
Proof.
  unfold holds. induction d as [| [k0 v0] d IH]; cbn; [reflexivity |].
  destruct (String.eqb_spec k0 k) as [-> | Hne]; cbn; [discriminate |].
  intros H. specialize (IH H). destruct (dict_pop d k) as [o d'] eqn:E. cbn in *.
  now rewrite IH.
Qed.

(** Popping the key of an entry removes exactly that entry. *)
Lemma dict_pop_middle (p q : dict) k r :
  k ∉ dict_keys p -> dict_pop (p ++ (k, r) :: q) k = (Some r, p ++ q).
Proof.
  induction p as [| [k0 v0] p IH]; cbn; intros Hk.
  - now rewrite String.eqb_refl.
  - rewrite not_elem_of_cons in Hk. destruct Hk as [Hne Hk].
    destruct (String.eqb_spec k0 k) as [-> | _]; [congruence |].
    now rewrite (IH Hk).
Qed.

End Dict.

(** ** The tier store on the tiers it knows *)

Lemma set_long_term_same (w : World) : set_long_term (long_term_of w) w = w.
Proof. destruct w as [h n [c [a b l] m t]]. reflexivity. Qed.

Lemma set_active_same (w : World) : set_active (active_of w) w = w.
Proof. destruct w as [h n [c [a b l] m t]]. reflexivity. Qed.

Lemma set_working_same (w : World) : set_working (working_of w) w = w.
Proof. destruct w as [h n [c [a b l] m t]]. reflexivity. Qed.

Lemma delete_active (k : string) (w : World) :
  MemoryManager.delete MemoryTier.ACTIVE k w
  = (Ret (holds (active_of w) k), set_active (dict_pop (active_of w) k).2 w).
Proof.
  unfold MemoryManager.delete, bind, MemoryManager.tiers.
  change (String.eqb MemoryTier.ACTIVE MemoryTier.ACTIVE) with true. cbv iota.
  fold (active_of w). rewrite <- dict_pop_result.
  destruct (dict_pop (active_of w) k) as [o d]. reflexivity.
Qed.

Lemma delete_working (k : string) (w : World) :
  MemoryManager.delete MemoryTier.WORKING k w
  = (Ret (holds (working_of w) k), set_working (dict_pop (working_of w) k).2 w).
Proof.
  unfold MemoryManager.delete, bind, MemoryManager.tiers.
  change (String.eqb MemoryTier.WORKING MemoryTier.ACTIVE) with false.
  change (String.eqb MemoryTier.WORKING MemoryTier.WORKING) with true. cbv iota.
  fold (working_of w). rewrite <- dict_pop_result.
  destruct (dict_pop (working_of w) k) as [o d]. reflexivity.
Qed.

Lemma delete_long_term (k : string) (w : World) :
  MemoryManager.delete MemoryTier.LONG_TERM k w
  = (Ret (holds (long_term_of w) k), set_long_term (dict_pop (long_term_of w) k).2 w).
Proof.
  unfold MemoryManager.delete, bind, MemoryManager.tiers.
  change (String.eqb MemoryTier.LONG_TERM MemoryTier.ACTIVE) with false.
  change (String.eqb MemoryTier.LONG_TERM MemoryTier.WORKING) with false.
  change (String.eqb MemoryTier.LONG_TERM MemoryTier.LONG_TERM) with true. cbv iota.
  fold (long_term_of w). rewrite <- dict_pop_result.
  destruct (dict_pop (long_term_of w) k) as [o d]. reflexivity.
Qed.

Lemma get_all_active (w : World) :
  MemoryManager.get_all_segments MemoryTier.ACTIVE w = (Ret (dict_values (active_of w)), w).
Proof. reflexivity. Qed.

Lemma get_all_working (w : World) :
  MemoryManager.get_all_segments MemoryTier.WORKING w = (Ret (dict_values (working_of w)), w).
Proof. reflexivity. Qed.

Lemma get_all_long_term (w : World) :
  MemoryManager.get_all_segments MemoryTier.LONG_TERM w
  = (Ret (dict_values (long_term_of w)), w).
Proof. reflexivity. Qed.

Lemma deref_some (r : ref) (x : ContextSegment) (w : World) :
  heap w !! r = Some x -> deref r w = (Ret x, w).
Proof. intros H. unfold deref. now rewrite H. Qed.

(** ** The expiry pass *)

Section Cleanup.

Variable cutoff_time : datetime.

Let body (segment : ref) : M unit :=
  (x <- deref segment ;;
   if expired cutoff_time x then
     MemoryManager.delete MemoryTier.LONG_TERM (id x) ;;; ret tt
   else ret tt)%py.

Lemma cleanup_loop (q p : dict) (w : World) :
  long_term_of w = p ++ q ->
  NoDup (dict_keys (p ++ q)) ->
  (forall k r, (k, r) ∈ q -> exists x, heap w !! r = Some x /\ id x = k) ->
  for_each (dict_values q) body w
  = (Ret tt, set_long_term (p ++ List.filter (survives (heap w) cutoff_time) q) w).
Proof.
  revert p w. induction q as [| [k r] q IH]; intros p w Hlt Hnd Hq.
  - cbn. rewrite <- Hlt. now rewrite set_long_term_same.
  - destruct (Hq k r) as (x & Hx & Hid); [apply elem_of_cons; now left |].
    assert (Hq' : forall k' r', (k', r') ∈ q -> exists x', heap w !! r' = Some x' /\ id x' = k').
    { intros k' r' H. apply Hq. apply elem_of_cons. now right. }
    cbn [dict_values map for_each snd]. unfold bind at 1. unfold body at 1.
    unfold bind at 1. rewrite (deref_some r x w Hx).
    cbn [List.filter]. unfold survives at 1. cbn [snd]. rewrite Hx.
    destruct (expired cutoff_time x) eqn:Hexp; cbn [negb].
    + unfold bind at 1. rewrite delete_long_term, Hlt, Hid. cbn [ret].
      assert (Hk : k ∉ dict_keys p).
      { unfold dict_keys in Hnd. rewrite fmap_app in Hnd.
        apply NoDup_app in Hnd as (_ & Hd & _). intros Hin. apply (Hd k Hin).
        cbn. apply elem_of_cons. now left. }
      rewrite (dict_pop_middle p q k r Hk). cbn [snd].
      fold (dict_values q).
      rewrite (IH p (set_long_term (p ++ q) w)).
      * destruct w as [h n [c [a b l] m t]]. reflexivity.
      * destruct w as [h n [c [a b l] m t]]. reflexivity.
      * unfold dict_keys in *. rewrite fmap_app in *. cbn in Hnd.
        apply NoDup_app in Hnd as (H1 & H2 & H3). apply NoDup_cons in H3 as [_ H3].
        apply NoDup_app. repeat split; try assumption.
        intros y Hy Hy'. apply (H2 y Hy). apply elem_of_cons. now right.
      * destruct w as [h n [c [a b l] m t]]. exact Hq'.
    + cbn [ret]. fold (dict_values q).
      rewrite (IH (p ++ [(k, r)]) w).
      * now rewrite <- app_assoc.
      * now rewrite <- app_assoc.
      * now rewrite <- app_assoc.
      * exact Hq'.
Qed.

End Cleanup.

Section CleanupTheorem.

Variable now_at : nat -> datetime.

Lemma long_term_set (d : dict) (w : World) : long_term_of (set_long_term d w) = d.
Proof. reflexivity. Qed.

Lemma cleanup_result (w : World) :
  wf_dict (heap w) (long_term_of w) ->
  _cleanup_old_segments now_at w
  = (Ret tt,
     set_long_term
       (List.filter (survives (heap w) (now_at (ticks w) - timedelta_of_days 30))
          (long_term_of w))
       (with_ticks (S (ticks w)) w)).
Proof.
  intros [Hnd Hwf]. unfold _cleanup_old_segments.
  unfold bind at 1. unfold now at 1.
  unfold bind at 1. rewrite get_all_long_term.
  pose proof (cleanup_loop (now_at (ticks w) - timedelta_of_days 30)
                (long_term_of w) [] (with_ticks (S (ticks w)) w)) as H.
  cbn [app] in H. apply H; try assumption. reflexivity.
Qed.

(** C7: the expiry pass returns normally; it leaves the active tier, the
    working tier and every segment object as they were; and of the
    long-term tier it keeps, in their order, exactly the entries that are
    not both older than thirty days and read fewer than twice.  A segment
    read twice or more stays, whatever its age. *)
Theorem C7_cleanup_old_segments (w : World) :
  wf_dict (heap w) (long_term_of w) ->
  let t := now_at (ticks w) in
  let w' := snd (_cleanup_old_segments now_at w) in
  fst (_cleanup_old_segments now_at w) = Ret tt
  /\ active_of w' = active_of w
  /\ working_of w' = working_of w
  /\ heap w' = heap w
  /\ long_term_of w'
     = List.filter (survives (heap w) (t - timedelta_of_days 30)) (long_term_of w)
  /\ (forall k r x, (k, r) ∈ long_term_of w -> heap w !! r = Some x ->
        ((k, r) ∈ long_term_of w'
         <-> ~ (timedelta_of_days 30 < t - timestamp x /\ access_count x < 2)))
  /\ (forall k r x, (k, r) ∈ long_term_of w -> heap w !! r = Some x ->
        2 <= access_count x -> (k, r) ∈ long_term_of w').
Proof.
  intros Hwf t w'. subst t w'. rewrite (cleanup_result w Hwf). cbn [fst snd].
  set (cutoff := now_at (ticks w) - timedelta_of_days 30).
  rewrite long_term_set.
  assert (Hmem : forall k r x, (k, r) ∈ long_term_of w -> heap w !! r = Some x ->
            ((k, r) ∈ List.filter (survives (heap w) cutoff) (long_term_of w)
             <-> ~ (timedelta_of_days 30 < now_at (ticks w) - timestamp x
                    /\ access_count x < 2))).
  { intros k r x Hin Hx. rewrite list_elem_of_In, filter_In, <- list_elem_of_In.
    unfold survives. cbn [snd]. rewrite Hx. unfold expired.
    rewrite negb_true_iff, andb_false_iff, !Z.ltb_ge. subst cutoff. split.
    - intros [_ [H | H]] [H1 H2]; lia.
    - intros H. split; [assumption |]. lia. }
  do 5 (split; [reflexivity |]). split.
  - intros k r x Hin Hx. now apply Hmem.
  - intros k r x Hin Hx Hac. apply (Hmem k r x Hin Hx). lia.
Qed.

End CleanupTheorem.

Lemma archive_world_wf : wf_dict (heap archive_world) (long_term_of archive_world).
Proof.
  split.
  - cbn. repeat (apply NoDup_cons; split; [rewrite ?elem_of_cons; intros H;
      repeat (destruct H as [H | H]; [discriminate |]); inversion H |]). constructor.
  - intros k r Hin. cbn in Hin.
    apply elem_of_cons in Hin as [[= -> ->] | Hin]; [eexists; split; reflexivity |].
    apply elem_of_cons in Hin as [[= -> ->] | Hin]; [eexists; split; reflexivity |].
    inversion Hin.
Qed.

(** Scenario C of the specification, as an instance. *)
Lemma C7_cleanup_old_segments_witness :
  long_term_of (snd (_cleanup_old_segments day31_clock archive_world))
  = [("seen-twice", 1%nat)].
Proof.
  pose proof (C7_cleanup_old_segments day31_clock archive_world archive_world_wf)
    as (_ & _ & _ & _ & H & _).
  rewrite H. reflexivity.
Defined.

(** ** Rounding to binary64

    What the later proofs need of the arithmetic: the sign of a rounded
    result, that rounding a positive number at an exponent not below the
    least one gives no zero, that integers below [2^63] convert to finite
    numbers, and that [<=] orders the numbers. *)

Section Binary64Facts.

Import Binary64.


Local Abbreviation shr_fexp := (SpecFloat.shr_fexp prec emax).
Local Abbreviation round_aux := (binary_round_aux prec emax).
Local Abbreviation fexp := (SpecFloat.fexp prec emax).
Local Abbreviation emin := (SpecFloat.emin prec emax).

Lemma shr_1_half (r : shr_record) : 0 <= shr_m r -> shr_m (shr_1 r) = shr_m r / 2.
Proof.
  destruct r as [m a b]. cbn [shr_m]. intros Hm. unfold shr_1.
  destruct m as [| p | p]; [reflexivity | | lia].
  destruct p as [p | p |]; cbn [shr_m].
  - change (Z.pos p~1) with (2 * Z.pos p + 1). apply Z.div_unique with 1; lia.
  - change (Z.pos p~0) with (2 * Z.pos p). apply Z.div_unique with 0; lia.
  - reflexivity.
Qed.

Lemma iter_shr_1 (p : positive) (r : shr_record) :
  0 <= shr_m r -> shr_m (SpecFloat.iter_pos shr_1 p r) = shr_m r / 2 ^ Z.pos p.
Proof.
  revert r. induction p as [p IH | p IH |]; intros r Hr; cbn [SpecFloat.iter_pos].
  - assert (H1 : 0 <= shr_m (shr_1 r)) by (rewrite shr_1_half by assumption; apply Z.div_pos; lia).
    assert (H2 : 0 <= shr_m (SpecFloat.iter_pos shr_1 p (shr_1 r)))
      by (rewrite IH by assumption; apply Z.div_pos; lia).
    rewrite IH, IH, shr_1_half by assumption.
    rewrite !Z.div_div by lia. f_equal.
    change (Z.pos p~1) with (2 * Z.pos p + 1).
    rewrite Z.pow_add_r, Z.pow_mul_r by lia. change (2 ^ 2) with 4. change (2 ^ 1) with 2.
    replace (4 ^ Z.pos p) with (2 ^ Z.pos p * 2 ^ Z.pos p)
      by (rewrite <- Z.pow_mul_l; reflexivity). lia.
  - assert (H2 : 0 <= shr_m (SpecFloat.iter_pos shr_1 p r))
      by (rewrite IH by assumption; apply Z.div_pos; lia).
    rewrite IH, IH by assumption. rewrite Z.div_div by lia. f_equal.
    change (Z.pos p~0) with (2 * Z.pos p).
    rewrite Z.pow_mul_r by lia. change (2 ^ 2) with 4.
    rewrite <- Z.pow_mul_l. reflexivity.
  - rewrite shr_1_half by assumption. reflexivity.
Qed.

Lemma digits2_lower (m : positive) : 2 ^ (Z.pos (digits2_pos m) - 1) <= Z.pos m.
Proof.
  induction m as [m IH | m IH |]; cbn [digits2_pos].
  - rewrite Pos2Z.inj_succ. replace (Z.succ (Z.pos (digits2_pos m)) - 1)
      with (Z.succ (Z.pos (digits2_pos m) - 1)) by lia.
    rewrite Z.pow_succ_r by lia. lia.
  - rewrite Pos2Z.inj_succ. replace (Z.succ (Z.pos (digits2_pos m)) - 1)
      with (Z.succ (Z.pos (digits2_pos m) - 1)) by lia.
    rewrite Z.pow_succ_r by lia. lia.
  - reflexivity.
Qed.

Lemma shr_record_of_loc_m m l : shr_m (shr_record_of_loc m l) = m.
Proof. destruct l as [| []]; reflexivity. Qed.

(** A shift that [shr_fexp] makes at an exponent not below [emin] removes
    fewer bits than the number has. *)
Lemma shr_fexp_pos (m : positive) (e : Z) (l : location) :
  emin <= e ->
  0 < shr_m (fst (shr_fexp (Z.pos m) e l)) /\ emin <= snd (shr_fexp (Z.pos m) e l).
Proof.
  intros He. unfold SpecFloat.shr_fexp, shr. cbn [Zdigits2].
  destruct (fexp (Z.pos (digits2_pos m) + e) - e) as [| p | p] eqn:Hn; cbn [fst snd].
  - rewrite shr_record_of_loc_m. lia.
  - split; [| lia].
    rewrite iter_shr_1 by (rewrite shr_record_of_loc_m; lia).
    rewrite shr_record_of_loc_m.
    unfold SpecFloat.fexp in Hn.
    assert (Hp : Z.pos p <= Z.pos (digits2_pos m) - 1).
    { change prec with 53 in *. lia. }
    pose proof (digits2_lower m) as Hd.
    apply Z.div_str_pos. split; [apply Z.pow_pos_nonneg; lia |].
    eapply Z.le_trans; [| exact Hd]. apply Z.pow_le_mono_r; lia.
  - rewrite shr_record_of_loc_m. lia.
Qed.

Lemma shr_fexp_nonneg (m e : Z) (l : location) :
  0 <= m -> 0 <= shr_m (fst (shr_fexp m e l)).
Proof.
  intros Hm. unfold SpecFloat.shr_fexp, shr.
  destruct (fexp (Zdigits2 m + e) - e) as [| p | p]; cbn [fst];
    try (rewrite shr_record_of_loc_m; exact Hm).
  rewrite iter_shr_1 by (rewrite shr_record_of_loc_m; exact Hm).
  rewrite shr_record_of_loc_m. apply Z.div_pos; lia.
Qed.

Lemma round_nearest_even_ge (m : Z) (l : location) : m <= round_nearest_even m l.
Proof. destruct l as [| []]; cbn; try lia. destruct (Z.even m); lia. Qed.

Lemma round_aux_sign sx mx ex lx :
  match round_aux sx mx ex lx with
  | S754_zero s | S754_infinity s | S754_finite s _ _ => s = sx
  | S754_nan => True
  end.
Proof.
  unfold binary_round_aux.
  destruct (shr_fexp mx ex lx) as [r1 e1].
  destruct (shr_fexp _ e1 loc_Exact) as [r2 e2].
  destruct (shr_m r2); [reflexivity | destruct (e2 <=? emax - prec); reflexivity | exact I].
Qed.

Lemma round_aux_not_nan sx mx ex lx : 0 <= mx -> round_aux sx mx ex lx <> S754_nan.
Proof.
  intros Hm. unfold binary_round_aux.
  pose proof (shr_fexp_nonneg mx ex lx Hm) as H1.
  destruct (shr_fexp mx ex lx) as [r1 e1]. cbn [fst] in H1.
  pose proof (round_nearest_even_ge (shr_m r1) (loc_of_shr_record r1)) as H2.
  pose proof (shr_fexp_nonneg (round_nearest_even (shr_m r1) (loc_of_shr_record r1)) e1
                loc_Exact ltac:(lia)) as H3.
  destruct (shr_fexp _ e1 loc_Exact) as [r2 e2]. cbn [fst] in H3.
  destruct (shr_m r2); [discriminate | destruct (e2 <=? emax - prec); discriminate | lia].
Qed.

Lemma round_aux_not_zero sx (m : positive) ex lx :
  emin <= ex ->
  match round_aux sx (Z.pos m) ex lx with S754_zero _ => False | _ => True end.
Proof.
  intros He. unfold binary_round_aux.
  destruct (shr_fexp_pos m ex lx He) as [H1 H1e].
  destruct (shr_fexp (Z.pos m) ex lx) as [r1 e1]. cbn [fst snd] in H1, H1e.
  pose proof (round_nearest_even_ge (shr_m r1) (loc_of_shr_record r1)) as H2.
  destruct (round_nearest_even (shr_m r1) (loc_of_shr_record r1)) as [| m2 | m2] eqn:Hm2;
    try lia.
  destruct (shr_fexp_pos m2 e1 loc_Exact H1e) as [H3 _].
  destruct (shr_fexp (Z.pos m2) e1 loc_Exact) as [r2 e2]. cbn [fst] in H3.
  destruct (shr_m r2); [lia | destruct (e2 <=? emax - prec); exact I | exact I].
Qed.

Local Abbreviation round := (binary_round prec emax).
Local Abbreviation normalize := (binary_normalize prec emax).

Lemma fexp_ge_emin k : emin <= fexp k.
Proof. unfold SpecFloat.fexp. lia. Qed.

Lemma shl_align_exp m e e' : emin <= e -> emin <= e' -> emin <= snd (shl_align m e e').
Proof. unfold shl_align. intros H H'. destruct (e' - e); cbn [snd]; assumption. Qed.

Lemma round_sign sx m e :
  match round sx m e with
  | S754_zero s | S754_infinity s | S754_finite s _ _ => s = sx
  | S754_nan => True
  end.
Proof.
  unfold binary_round. destruct (shl_align m e _) as [mz ez]. apply round_aux_sign.
Qed.

Lemma round_not_nan sx m e : round sx m e <> S754_nan.
Proof.
  unfold binary_round. destruct (shl_align m e _) as [mz ez].
  apply round_aux_not_nan. lia.
Qed.

Lemma round_not_zero sx m e :
  emin <= e -> match round sx m e with S754_zero _ => False | _ => True end.
Proof.
  intros He. unfold binary_round.
  pose proof (shl_align_exp m e (fexp (Z.pos (digits2_pos m) + e)) He (fexp_ge_emin _)) as H.
  destruct (shl_align m e _) as [mz ez]. cbn [snd] in H.
  now apply round_aux_not_zero.
Qed.

Lemma div_not_negative x sy my ey :
  not_negative x -> sy = false ->
  not_negative (SF64div x (S754_finite sy my ey)).
Proof.
  intros Hx ->. unfold SF64div, SFdiv.
  destruct x as [sx | sx | | sx mx ex]; cbn in Hx |- *; try exact I; try (subst; reflexivity).
  subst sx. destruct (SFdiv_core_binary _ _ _ _ _ _) as [[mz ez] lz].
  pose proof (round_aux_sign (xorb false false) mz ez lz) as H.
  destruct (round_aux _ mz ez lz); cbn in *; auto.
Qed.

Lemma valid_exp s m e : valid_binary (S754_finite s m e) = true -> emin <= e.
Proof.
  cbn [valid_binary]. unfold bounded, canonical_mantissa. intros H.
  apply andb_prop in H as [H _]. apply Z.eqb_eq in H. rewrite <- H. apply fexp_ge_emin.
Qed.

Lemma add_positive x y :
  valid_binary y = true ->
  match x with S754_finite false _ e => emin <= e | _ => False end ->
  not_negative y ->
  positive_or_nan (SF64add x y).
Proof.
  intros Hv Hx Hy. destruct x as [sx | sx | | [|] mx ex]; try contradiction.
  unfold SF64add, SFadd.
  destruct y as [sy | sy | | sy my ey]; cbn in Hy |- *; try exact I; try assumption;
    try reflexivity.
  subst sy. pose proof (valid_exp _ _ _ Hv) as Hey.
  cbn [cond_Zopp].
  set (a := fst (shl_align mx ex (Z.min ex ey))).
  set (b := fst (shl_align my ey (Z.min ex ey))).
  change (Z.pos a + Z.pos b) with (Z.pos (a + b)). cbn [binary_normalize].
  pose proof (round_sign false (a + b) (Z.min ex ey)) as Hs.
  pose proof (round_not_zero false (a + b) (Z.min ex ey) ltac:(lia)) as Hz.
  destruct (round false (a + b) (Z.min ex ey)); cbn in *; auto.
Qed.

(** What [SF2Prim] makes of a rounded result: a number of the same sign. *)
Lemma SF2Prim_class (x : spec_float) :
  match x, Prim2SF (SF2Prim x) with
  | S754_nan, y => y = S754_nan
  | S754_zero s, y => y = S754_zero s
  | S754_infinity s, y => y = S754_infinity s
  | S754_finite s _ _, S754_nan => False
  | S754_finite s _ _, (S754_zero s' | S754_infinity s' | S754_finite s' _ _) => s' = s
  end.
Proof.
  destruct x as [[|] | [|] | | s m e]; try reflexivity.
  assert (H : match Prim2SF (Z.ldexp (PrimFloat.of_uint63 (Uint63.of_Z (Z.pos m))) e) with
              | S754_nan => False
              | S754_zero s' | S754_infinity s' | S754_finite s' _ _ => s' = false
              end).
  { rewrite Z_ldexp_spec, FloatAxioms.of_uint63_spec.
    pose proof (Uint63.to_Z_bounded (Uint63.of_Z (Z.pos m))) as [Hz _].
    destruct (Uint63.to_Z (Uint63.of_Z (Z.pos m))) as [| p | p]; [reflexivity | | lia].
    cbn [binary_normalize].
    pose proof (round_sign false p 0) as Hs. pose proof (round_not_nan false p 0) as Hn.
    destruct (round false p 0) as [s0 | s0 | | s0 m0 e0]; cbn [SFldexp];
      try assumption; try contradiction.
    subst s0. pose proof (round_sign false m0 (e0 + e)) as Hs'.
    pose proof (round_not_nan false m0 (e0 + e)) as Hn'.
    destruct (round false m0 (e0 + e)); try assumption; contradiction. }
  unfold SF2Prim. destruct s; [rewrite FloatAxioms.opp_spec |];
    destruct (Prim2SF (Z.ldexp _ e)); cbn [SFopp]; try contradiction; now subst.
Qed.

Lemma SF2Prim_not_nan (x : spec_float) :
  x <> S754_nan -> is_nan (Prim2SF (SF2Prim x)) = false.
Proof.
  intros Hx. pose proof (SF2Prim_class x) as H.
  destruct x as [s | s | | s m e]; try contradiction; try (rewrite H; reflexivity).
  now destruct (Prim2SF (SF2Prim _)).
Qed.

Lemma SF2Prim_not_negative (x : spec_float) :
  not_negative x -> not_negative (Prim2SF (SF2Prim x)).
Proof.
  intros Hx. pose proof (SF2Prim_class x) as H.
  destruct x as [s | s | | s m e]; try (rewrite H; exact Hx).
  cbn in Hx. subst s. destruct (Prim2SF (SF2Prim _)); cbn; try exact I; assumption.
Qed.

(** The quotient of an integer that is not negative by a positive one is
    not negative. *)
Lemma int_truediv_not_negative (a b : Z) :
  0 <= a -> 0 < b -> not_negative (Prim2SF (int_truediv a b)).
Proof.
  intros Ha Hb. unfold int_truediv.
  rewrite (proj2 (Z.ltb_ge a 0)) by assumption. rewrite (proj2 (Z.ltb_ge b 0)) by lia.
  cbn [xorb]. destruct b as [| mb | mb]; try lia.
  destruct a as [| ma | ma]; try lia; unfold Z.abs; cbv iota; [exact I |].
  destruct (SFdiv_core_binary prec emax (Z.pos ma) 0 (Z.pos mb) 0) as [[q e] l].
  apply SF2Prim_not_negative.
  pose proof (round_aux_sign false q e l) as H.
  destruct (round_aux false q e l); cbn; auto.
Qed.

Lemma positive_or_nan_eqb_zero x :
  positive_or_nan x -> SFeqb x (S754_zero false) = false.
Proof. destruct x as [s | s | | s m e]; cbn; try contradiction; intros; subst; reflexivity. Qed.

Lemma decay_defined_later (created t : Z) : created <= t -> decay_defined created t.
Proof.
  intros Hle. unfold decay_defined.
  rewrite FloatAxioms.eqb_spec, FloatAxioms.add_spec.
  change (Prim2SF 0%float) with (S754_zero false).
  apply positive_or_nan_eqb_zero. apply add_positive.
  - apply FloatAxioms.Prim2SF_valid.
  - vm_compute. discriminate.
  - rewrite FloatAxioms.div_spec.
    change (Prim2SF 3600%float) with (S754_finite false 7916483719987200 (-41)).
    apply div_not_negative; [| reflexivity].
    unfold total_seconds. apply int_truediv_not_negative; lia.
Qed.

(** *** Integers below [2^63] convert to finite numbers *)

Lemma digits2_upper (m : positive) (k : Z) :
  0 <= k -> Z.pos m < 2 ^ k -> Z.pos (digits2_pos m) <= k.
Proof.
  intros Hk Hm. pose proof (digits2_lower m) as Hd.
  assert (H : 2 ^ (Z.pos (digits2_pos m) - 1) < 2 ^ k) by lia.
  apply Z.pow_lt_mono_r_iff in H; lia.
Qed.

Lemma shr_fexp_le (m e : Z) (l : location) :
  0 <= m -> shr_m (fst (shr_fexp m e l)) <= m.
Proof.
  intros Hm. unfold SpecFloat.shr_fexp, shr.
  destruct (fexp (Zdigits2 m + e) - e) as [| p | p]; cbn [fst];
    try (rewrite shr_record_of_loc_m; lia).
  rewrite iter_shr_1 by (rewrite shr_record_of_loc_m; exact Hm).
  rewrite shr_record_of_loc_m.
  apply Z.div_le_upper_bound; [apply Z.pow_pos_nonneg; lia |].
  assert (0 < 2 ^ Z.pos p) by (apply Z.pow_pos_nonneg; lia). nia.
Qed.

Lemma shr_fexp_exp (m e : Z) (l : location) :
  snd (shr_fexp m e l) = Z.max e (fexp (Zdigits2 m + e)).
Proof.
  unfold SpecFloat.shr_fexp, shr.
  destruct (fexp (Zdigits2 m + e) - e) as [| p | p] eqn:Hn; cbn [snd]; lia.
Qed.

Lemma round_nearest_even_le (m : Z) (l : location) : round_nearest_even m l <= m + 1.
Proof. destruct l as [| []]; cbn; try lia. destruct (Z.even m); lia. Qed.

Lemma round_aux_finite sx (m : positive) (e k : Z) :
  0 <= k -> Z.pos m < 2 ^ k -> emin <= e -> e + 2 * k <= 900 ->
  exists m' e', round_aux sx (Z.pos m) e loc_Exact = S754_finite sx m' e'.
Proof.
  intros Hk Hm He Hb. unfold binary_round_aux.
  destruct (shr_fexp_pos m e loc_Exact He) as [H1 H1e].
  pose proof (shr_fexp_le (Z.pos m) e loc_Exact ltac:(lia)) as H1le.
  pose proof (shr_fexp_exp (Z.pos m) e loc_Exact) as H1x.
  destruct (shr_fexp (Z.pos m) e loc_Exact) as [r1 e1]. cbn [fst snd] in *.
  pose proof (round_nearest_even_ge (shr_m r1) (loc_of_shr_record r1)) as H2.
  pose proof (round_nearest_even_le (shr_m r1) (loc_of_shr_record r1)) as H2le.
  destruct (round_nearest_even (shr_m r1) (loc_of_shr_record r1)) as [| m2 | m2] eqn:Hm2;
    try lia.
  destruct (shr_fexp_pos m2 e1 loc_Exact H1e) as [H3 _].
  pose proof (shr_fexp_exp (Z.pos m2) e1 loc_Exact) as H3x.
  destruct (shr_fexp (Z.pos m2) e1 loc_Exact) as [r2 e2]. cbn [fst snd] in *.
  pose proof (digits2_upper m k Hk Hm) as Hd1.
  assert (Hm2k : Z.pos m2 < 2 ^ (k + 1)).
  { rewrite Z.pow_add_r by lia. change (2 ^ 1) with 2. lia. }
  pose proof (digits2_upper m2 (k + 1) ltac:(lia) Hm2k) as Hd2.
  cbn [Zdigits2] in *. unfold SpecFloat.fexp in *.
  change prec with 53 in *. change emax with 1024 in *.
  assert (He2 : e2 <= 971) by lia.
  destruct (shr_m r2) as [| m3 | m3]; try lia.
  rewrite (proj2 (Z.leb_le e2 (1024 - 53))) by lia.
  now exists m3, e2.
Qed.

Lemma iter_xO_value (m p : positive) : Z.pos (Pos.iter xO m p) = Z.pos m * 2 ^ Z.pos p.
Proof.
  induction p as [| p IH] using Pos.peano_ind.
  - cbn. lia.
  - rewrite Pos.iter_succ, Pos2Z.inj_succ, Z.pow_succ_r by lia.
    change (Z.pos (Pos.iter xO m p)~0) with (2 * Z.pos (Pos.iter xO m p)). lia.
Qed.

Lemma shl_align_value (m : positive) (e e' : Z) :
  Z.pos (fst (shl_align m e e')) = Z.pos m * 2 ^ (e - snd (shl_align m e e'))
  /\ (snd (shl_align m e e') = e \/ snd (shl_align m e e') = e' /\ e' < e).
Proof.
  unfold shl_align. destruct (e' - e) as [| p | p] eqn:Hd; cbn [fst snd].
  - rewrite Z.sub_diag. cbn. split; [lia | now left].
  - rewrite Z.sub_diag. cbn. split; [lia | now left].
  - split; [| right; split; [reflexivity | lia]].
    replace (e - e') with (Z.pos p) by lia.
    apply iter_xO_value.
Qed.

Lemma round_finite sx (m : positive) :
  Z.pos m < 2 ^ 63 -> exists m' e', round sx m 0 = S754_finite sx m' e'.
Proof.
  intros Hm. unfold binary_round.
  destruct (shl_align_value m 0 (fexp (Z.pos (digits2_pos m) + 0))) as [Hv He].
  pose proof (shl_align_exp m 0 (fexp (Z.pos (digits2_pos m) + 0)) ltac:(vm_compute; discriminate)
                (fexp_ge_emin _)) as Hemin.
  destruct (shl_align m 0 _) as [mz ez]. cbn [fst snd] in *.
  assert (Hez : -52 <= ez <= 0).
  { unfold SpecFloat.fexp in He. change prec with 53 in He.
    pose proof (Pos2Z.is_pos (digits2_pos m)). lia. }
  apply (round_aux_finite sx mz ez 115); try lia.
  rewrite Hv. replace 115 with (63 + 52) by reflexivity. rewrite Z.pow_add_r by lia.
  assert (2 ^ (0 - ez) <= 2 ^ 52) by (apply Z.pow_le_mono_r; lia).
  assert (0 < 2 ^ (0 - ez)) by (apply Z.pow_pos_nonneg; lia).
  nia.
Qed.

(** Below [2^63] the conversion is the one of the processor. *)
Lemma float_of_int_small (z : Z) :
  0 <= z < 2 ^ 63 -> float_of_int z = Ret (PrimFloat.of_uint63 (Uint63.of_Z z)).
Proof.
  intros Hz. unfold float_of_int.
  assert (E : normalize z 0 false = Prim2SF (PrimFloat.of_uint63 (Uint63.of_Z z))).
  { rewrite FloatAxioms.of_uint63_spec, Uint63.of_Z_spec.
    now rewrite Z.mod_small by (change wB with (2 ^ 63); lia). }
  destruct z as [| p | p]; [reflexivity | | lia].
  destruct (round_finite false p ltac:(lia)) as (m & e & Hr).
  rewrite <- (FloatAxioms.SF2Prim_Prim2SF (PrimFloat.of_uint63 (Uint63.of_Z (Z.pos p)))).
  rewrite <- E. cbn [binary_normalize]. now rewrite Hr.
Qed.

Lemma float_of_int_finite (z : Z) :
  0 < z < 2 ^ 63 ->
  exists x m e, float_of_int z = Ret x /\ Prim2SF x = S754_finite false m e.
Proof.
  intros Hz. rewrite float_of_int_small by lia.
  exists (PrimFloat.of_uint63 (Uint63.of_Z z)).
  rewrite FloatAxioms.of_uint63_spec, Uint63.of_Z_spec.
  rewrite Z.mod_small by (change wB with (2 ^ 63); lia).
  destruct z as [| p | p]; try lia. cbn [binary_normalize].
  destruct (round_finite false p ltac:(lia)) as (m & e & ->).
  exists m, e. now split.
Qed.

Lemma float_of_int_literals :
  float_of_int 0 = Ret 0%float
  /\ float_of_int 1000 = Ret 1000%float
  /\ float_of_int 3600 = Ret 3600%float.
Proof. repeat split; vm_compute; reflexivity. Qed.

Lemma div_core_nonneg m1 e1 m2 e2 :
  0 <= fst (fst (SFdiv_core_binary prec emax (Z.pos m1) e1 (Z.pos m2) e2)).
Proof.
  unfold SFdiv_core_binary.
  set (s := e1 - e2 - _).
  set (m' := match s with Z.pos _ => Z.shiftl (Z.pos m1) s | 0 => Z.pos m1 | Z.neg _ => 0 end).
  assert (Hm' : 0 <= m').
  { subst m'. destruct s; try lia. apply Z.shiftl_nonneg. lia. }
  pose proof (Z_div_mod m' (Z.pos m2) ltac:(lia)) as H.
  destruct (Z.div_eucl m' (Z.pos m2)) as [q r]. cbn [fst]. nia.
Qed.

(** The quotient of two positive integers is a number. *)
Lemma int_truediv_not_nan (a b : Z) :
  0 < a -> 0 < b -> is_nan (Prim2SF (int_truediv a b)) = false.
Proof.
  intros Ha Hb. unfold int_truediv.
  destruct a as [| ma | ma], b as [| mb | mb]; try lia. unfold Z.abs. cbv iota.
  pose proof (div_core_nonneg ma 0 mb 0) as Hq.
  destruct (SFdiv_core_binary prec emax (Z.pos ma) 0 (Z.pos mb) 0) as [[q e] l].
  cbn [fst] in Hq. apply SF2Prim_not_nan. now apply round_aux_not_nan.
Qed.

(** *** The order *)

Lemma SFcompare_key (x y : spec_float) :
  is_nan x = false -> is_nan y = false ->
  exists c, SFcompare x y = Some c
            /\ (c = Gt <-> ~ le3 (key x) (key y))
            /\ (c = Lt <-> ~ le3 (key y) (key x)).
Proof.
  assert (Hff : forall sx mx ex sy my ey,
            exists c, SFcompare (S754_finite sx mx ex) (S754_finite sy my ey) = Some c
              /\ (c = Gt <-> ~ le3 (key (S754_finite sx mx ex)) (key (S754_finite sy my ey)))
              /\ (c = Lt <-> ~ le3 (key (S754_finite sy my ey)) (key (S754_finite sx mx ex)))).
  { intros sx mx ex sy my ey. cbn [SFcompare].
    change (Pos.compare_cont Eq mx my) with (mx ?= my)%positive.
    destruct sx, sy; cbn [key le3];
      destruct (Z.compare_spec ex ey) as [He | He | He];
      destruct (Pos.compare_spec mx my) as [Hm | Hm | Hm];
      eexists; (split; [reflexivity |]); cbn [CompOpp];
      split; split; intros H;
      first [discriminate | reflexivity | lia | exfalso; lia]. }
  destruct x as [sx | sx | | sx mx ex], y as [sy | sy | | sy my ey];
    try discriminate; intros _ _; try apply Hff;
    try destruct sx; try destruct sy; cbn [SFcompare key le3];
    eexists; (split; [reflexivity |]);
    split; split; intros H;
    first [discriminate | reflexivity | lia | exfalso; lia].
Qed.

Lemma le3_trans a b c : le3 a b -> le3 b c -> le3 a c.
Proof. destruct a as [[a1 a2] a3], b as [[b1 b2] b3], c as [[c1 c2] c3]. cbn. lia. Qed.

Lemma SFleb_le3 (x y : spec_float) :
  is_nan x = false -> is_nan y = false ->
  (SFleb x y = true <-> le3 (key x) (key y)).
Proof.
  intros Hx Hy. destruct (SFcompare_key x y Hx Hy) as (c & Hc & Hgt & _).
  unfold SFleb. rewrite Hc.
  assert (Hdec : le3 (key x) (key y) \/ ~ le3 (key x) (key y)).
  { destruct (key x) as [[a1 a2] a3], (key y) as [[b1 b2] b3]. cbn. lia. }
  destruct c; split; intros H; try reflexivity; try discriminate.
  - destruct Hdec as [? | Hn]; [assumption |]. apply Hgt in Hn. discriminate.
  - destruct Hdec as [? | Hn]; [assumption |]. apply Hgt in Hn. discriminate.
  - exfalso. now apply (proj1 Hgt eq_refl).
Qed.

Lemma SFleb_not_nan (x y : spec_float) :
  SFleb x y = true -> is_nan x = false /\ is_nan y = false.
Proof. destruct x as [| | |], y as [| | |]; cbn; intros H; try discriminate; now split. Qed.

Lemma SFleb_trans (x y z : spec_float) :
  SFleb x y = true -> SFleb y z = true -> SFleb x z = true.
Proof.
  intros Hxy Hyz.
  destruct (SFleb_not_nan _ _ Hxy) as [Hx Hy]. destruct (SFleb_not_nan _ _ Hyz) as [_ Hz].
  apply SFleb_le3 in Hxy, Hyz; try assumption. apply SFleb_le3; try assumption.
  eapply le3_trans; eassumption.
Qed.

(** Among numbers, not less means greater or equal. *)
Lemma SFltb_false_leb (x y : spec_float) :
  is_nan x = false -> is_nan y = false -> SFltb x y = false -> SFleb y x = true.
Proof.
  intros Hx Hy H. apply SFleb_le3; try assumption.
  destruct (SFcompare_key x y Hx Hy) as (c & Hc & _ & Hlt).
  unfold SFltb in H. rewrite Hc in H.
  assert (Hdec : le3 (key y) (key x) \/ ~ le3 (key y) (key x)).
  { destruct (key x) as [[a1 a2] a3], (key y) as [[b1 b2] b3]. cbn. lia. }
  destruct Hdec as [? | Hn]; [assumption |]. apply Hlt in Hn. subst c. discriminate.
Qed.


(** *** The same, on floats *)

Lemma leb_trans (x y z : float) :
  PrimFloat.leb x y = true -> PrimFloat.leb y z = true -> PrimFloat.leb x z = true.
Proof. rewrite !FloatAxioms.leb_spec. apply SFleb_trans. Qed.

Lemma ltb_false_leb (x y : float) :
  is_nan (Prim2SF x) = false -> is_nan (Prim2SF y) = false ->
  PrimFloat.ltb x y = false -> PrimFloat.leb y x = true.
Proof. rewrite FloatAxioms.ltb_spec, FloatAxioms.leb_spec. apply SFltb_false_leb. Qed.

End Binary64Facts.

(** ** Comparisons of binary64 numbers *)

Section FloatOrder.

Lemma SFltb_asym (a b : spec_float) : SFltb a b = true -> SFltb b a = false.
Proof.
  unfold SFltb, SFcompare.
  destruct a as [sa | sa | | sa ma ea], b as [sb | sb | | sb mb eb];
    try destruct sa; try destruct sb; try (intros; reflexivity || discriminate).
  all: rewrite (Z.compare_antisym ea eb);
    rewrite (Pos.compare_antisym ma mb : Pos.compare_cont Eq mb ma = _);
    change (ma ?= mb)%positive with (Pos.compare_cont Eq ma mb);
    destruct (ea ?= eb); cbn [CompOpp]; try (intros; reflexivity || discriminate);
    destruct (Pos.compare_cont Eq ma mb); cbn [CompOpp];
    intros; reflexivity || discriminate.
Qed.

Lemma SFeqb_finite (s1 s2 : bool) (m1 m2 : positive) (e1 e2 : Z) :
  SFeqb (S754_finite s1 m1 e1) (S754_finite s2 m2 e2) = true ->
  s1 = s2 /\ m1 = m2 /\ e1 = e2.
Proof.
  unfold SFeqb, SFcompare. destruct s1, s2; try discriminate.
  all: destruct (e1 ?= e2) eqn:He; try discriminate;
    apply Z.compare_eq in He; subst e2;
    destruct (Pos.compare_cont Eq m1 m2) eqn:Hm; try discriminate;
    apply Pos.compare_eq in Hm; subst m2; intros _; repeat split.
Qed.

Lemma SFeqb_ltb (a b v : spec_float) :
  SFeqb a v = true -> SFeqb b v = true -> SFltb a b = false.
Proof.
  destruct a as [sa | sa | | sa ma ea], v as [sv | sv | | sv mv ev];
    try (destruct sa; discriminate); try (destruct sa, sv; discriminate);
    try discriminate;
    destruct b as [sb | sb | | sb mb eb];
    try (destruct sb; discriminate); try (destruct sb, sv; discriminate);
    try discriminate.
  - reflexivity.
  - destruct sa, sb, sv; try discriminate; reflexivity.
  - intros Ha Hb. apply SFeqb_finite in Ha as (-> & -> & ->).
    apply SFeqb_finite in Hb as (-> & -> & ->).
    unfold SFltb, SFcompare. rewrite Z.compare_refl.
    change (Pos.compare_cont Eq mv mv) with (mv ?= mv)%positive.
    rewrite Pos.compare_refl. now destruct sv.
Qed.

Lemma ltb_asym (x y : float) : PrimFloat.ltb x y = true -> PrimFloat.ltb y x = false.
Proof. rewrite !FloatAxioms.ltb_spec. apply SFltb_asym. Qed.

Lemma eqb_ltb (x y v : float) :
  PrimFloat.eqb x v = true -> PrimFloat.eqb y v = true -> PrimFloat.ltb x y = false.
Proof. rewrite !FloatAxioms.eqb_spec, FloatAxioms.ltb_spec. apply SFeqb_ltb. Qed.

(** A product with zero is a zero or not a number; no two such values are
    ordered by [<]. *)
Lemma ltb_mul_zero (a b : float) :
  PrimFloat.ltb (PrimFloat.mul a 0%float) (PrimFloat.mul b 0%float) = false.
Proof.
  rewrite FloatAxioms.ltb_spec, !FloatAxioms.mul_spec.
  change (Prim2SF 0%float) with (S754_zero false).
  destruct (Prim2SF a) as [sa | sa | | sa ma ea], (Prim2SF b) as [sb | sb | | sb mb eb];
    reflexivity.
Qed.

End FloatOrder.

(** A list of numbers in which no element is followed by a strictly
    greater one is in descending order throughout. *)
Lemma sorted_numbers {A : Type} (f : A -> float) (l : list A) :
  Forall (fun a => Binary64.is_nan (Prim2SF (f a)) = false) l ->
  Sorted (fun a b => PrimFloat.ltb (f a) (f b) = false) l ->
  StronglySorted (fun a b => PrimFloat.leb (f b) (f a) = true) l.
Proof.
  intros Hn Hs. apply Sorted_StronglySorted.
  { intros a b c Hab Hbc. exact (leb_trans _ _ _ Hbc Hab). }
  induction Hs as [| a l Hs IH Hd]; constructor.
  - apply IH. exact (Forall_inv_tail Hn).
  - destruct Hd as [| b l Hab]; constructor.
    apply ltb_false_leb; [| | exact Hab].
    + exact (Forall_inv Hn).
    + exact (Forall_inv (Forall_inv_tail Hn)).
Qed.

(** ** The stable descending sort *)

Section SortFacts.

Context {K A : Type}.
Variable lt : K -> K -> bool.
Variable eqv : K -> K -> bool.

Hypothesis lt_asym : forall a b, lt a b = true -> lt b a = false.
Hypothesis eqv_lt : forall a b v, eqv a v = true -> eqv b v = true -> lt a b = false.

Implicit Types (x : K * A) (l : list (K * A)).

Local Abbreviation descending := (PySeq.descending lt).

Lemma insert_desc_perm x l : Permutation (insert_desc lt x l) (x :: l).
Proof.
  induction l as [| y l IH]; cbn; [reflexivity |].
  destruct (lt (fst x) (fst y)); [| reflexivity].
  rewrite IH. apply perm_swap.
Qed.

Lemma sort_desc_perm l : Permutation (sort_desc lt l) l.
Proof.
  induction l as [| x l IH]; cbn; [reflexivity |].
  rewrite insert_desc_perm. now constructor.
Qed.

Lemma sort_desc_length l : length (sort_desc lt l) = length l.
Proof. apply Permutation_length, sort_desc_perm. Qed.

Lemma insert_desc_hd x y l :
  lt (fst x) (fst y) = true ->
  HdRel (fun a b => lt (fst a) (fst b) = false) y l ->
  HdRel (fun a b => lt (fst a) (fst b) = false) y (insert_desc lt x l).
Proof.
  intros Hxy Hhd. destruct l as [| z l]; cbn.
  - constructor. now apply lt_asym.
  - destruct (lt (fst x) (fst z)); constructor.
    + now inversion Hhd.
    + now apply lt_asym.
Qed.

Lemma insert_desc_sorted x l : descending l -> descending (insert_desc lt x l).
Proof.
  unfold PySeq.descending. induction l as [| y l IH]; cbn; intros Hs.
  - repeat constructor.
  - destruct (lt (fst x) (fst y)) eqn:Hxy.
    + inversion Hs as [| ? ? Hs' Hhd]; subst. constructor; [now apply IH |].
      now apply insert_desc_hd.
    + constructor; [assumption |]. now constructor.
Qed.

Lemma sort_desc_sorted l : descending (sort_desc lt l).
Proof.
  induction l as [| x l IH]; cbn; [constructor |]. now apply insert_desc_sorted.
Qed.

(** Stability: the elements of one key keep the order they came in. *)
Lemma insert_desc_stable v x l :
  List.filter (fun y => eqv (fst y) v) (insert_desc lt x l)
  = List.filter (fun y => eqv (fst y) v) (x :: l).
Proof.
  induction l as [| y l IH]; [reflexivity |].
  cbn [insert_desc]. destruct (lt (fst x) (fst y)) eqn:Hxy; [| reflexivity].
  cbn [List.filter] in *. rewrite IH.
  destruct (eqv (fst x) v) eqn:Hx, (eqv (fst y) v) eqn:Hy; try reflexivity.
  rewrite (eqv_lt _ _ _ Hx Hy) in Hxy. discriminate.
Qed.

Lemma sort_desc_stable v l :
  List.filter (fun y => eqv (fst y) v) (sort_desc lt l)
  = List.filter (fun y => eqv (fst y) v) l.
Proof.
  induction l as [| x l IH]; [reflexivity |].
  cbn [sort_desc]. rewrite insert_desc_stable. cbn [List.filter]. now rewrite IH.
Qed.

(** The same facts for a sort by a key function. *)

Variable f : A -> K.

Lemma decorated_sorted_fst (l : list A) (p : K * A) :
  In p (sort_desc lt (map (fun a => (f a, a)) l)) -> fst p = f (snd p).
Proof.
  intros H. apply (Permutation_in _ (sort_desc_perm _)) in H.
  apply in_map_iff in H as (a & <- & _). reflexivity.
Qed.

Lemma map_snd_decorated (l : list A) : map snd (map (fun a => (f a, a)) l) = l.
Proof. induction l as [| a l IH]; cbn; [reflexivity | now rewrite IH]. Qed.

Lemma sort_by_perm (l : list A) : Permutation (sort_by lt f l) l.
Proof.
  unfold sort_by. rewrite <- (map_snd_decorated l) at 2.
  apply Permutation_map, sort_desc_perm.
Qed.

Lemma sorted_map_snd (s : list (K * A)) :
  (forall p, In p s -> fst p = f (snd p)) ->
  descending s ->
  Sorted (fun a b => lt (f a) (f b) = false) (map snd s).
Proof.
  intros Hf Hs. induction Hs as [| p s Hs IH Hhd]; cbn; [constructor |].
  constructor.
  - apply IH. intros q Hq. apply Hf. now right.
  - destruct Hhd as [| q s' Hpq]; cbn; constructor.
    rewrite <- (Hf p), <- (Hf q); [exact Hpq | right; now left | now left].
Qed.

Lemma sort_by_sorted (l : list A) :
  Sorted (fun a b => lt (f a) (f b) = false) (sort_by lt f l).
Proof.
  unfold sort_by. apply sorted_map_snd; [apply decorated_sorted_fst | apply sort_desc_sorted].
Qed.

Lemma filter_map_snd (v : K) (s : list (K * A)) :
  (forall p, In p s -> fst p = f (snd p)) ->
  List.filter (fun a => eqv (f a) v) (map snd s)
  = map snd (List.filter (fun p => eqv (fst p) v) s).
Proof.
  induction s as [| p s IH]; intros Hf; [reflexivity |].
  cbn [map List.filter]. rewrite <- (Hf p) by now left.
  rewrite IH by (intros q Hq; apply Hf; now right).
  now destruct (eqv (fst p) v).
Qed.

Lemma sort_by_stable (v : K) (l : list A) :
  List.filter (fun a => eqv (f a) v) (sort_by lt f l)
  = List.filter (fun a => eqv (f a) v) l.
Proof.
  unfold sort_by. rewrite filter_map_snd by apply decorated_sorted_fst.
  rewrite sort_desc_stable.
  rewrite <- filter_map_snd by (intros p Hp; apply in_map_iff in Hp as (a & <- & _);
                                 reflexivity).
  now rewrite map_snd_decorated.
Qed.

End SortFacts.

Lemma sort_by_ext {K A : Type} (lt : K -> K -> bool) (f g : A -> K) (l : list A) :
  (forall a, In a l -> f a = g a) -> sort_by lt f l = sort_by lt g l.
Proof.
  intros H. unfold sort_by. do 2 f_equal. apply map_ext_in. intros a Ha.
  now rewrite (H a Ha).
Qed.

(** *** What the sort stands for

    Python documents [list.sort] as stable and as comparing with [<] only.
    On keys that are numbers this determines the result: *)

Section StableSort.

Context {A : Type}.
Implicit Types (l : list (float * A)) (p : float * A).

Local Abbreviation number p := (Binary64.is_nan (Prim2SF (fst p)) = false).
Local Abbreviation not_below p q := (PrimFloat.ltb (fst p) (fst q) = false).
Local Abbreviation tied v := (fun p : float * A => PrimFloat.eqb (fst p) v).

(** Two numbers of which neither is below the other are equal. *)
Lemma eqb_of_not_ltb (a b : float) :
  Binary64.is_nan (Prim2SF a) = false -> Binary64.is_nan (Prim2SF b) = false ->
  PrimFloat.ltb a b = false -> PrimFloat.ltb b a = false -> PrimFloat.eqb a b = true.
Proof.
  rewrite !FloatAxioms.ltb_spec, FloatAxioms.eqb_spec. intros Ha Hb.
  destruct (SFcompare_key _ _ Ha Hb) as (c & Hc & Hgt & Hlt).
  destruct (SFcompare_key _ _ Hb Ha) as (c' & Hc' & Hgt' & Hlt').
  unfold SFltb, SFeqb. rewrite Hc, Hc'. intros H1 H2.
  destruct c; [reflexivity | discriminate |].
  assert (c' = Lt) by (apply Hlt', Hgt; reflexivity). subst c'. discriminate.
Qed.

(** There is one stable descending arrangement of a list whose keys are
    numbers. *)
Lemma stable_descending_unique l1 l2 :
  Forall (fun p => number p) l1 ->
  Permutation l1 l2 ->
  StronglySorted (fun p q => not_below p q) l1 ->
  StronglySorted (fun p q => not_below p q) l2 ->
  (forall v, List.filter (tied v) l1 = List.filter (tied v) l2) ->
  l1 = l2.
Proof.
  revert l2. induction l1 as [| x t1 IH]; intros l2 Hn Hp H1 H2 Hf.
  - symmetry. now apply Permutation_nil.
  - destruct l2 as [| y t2]; [apply Permutation_sym, Permutation_nil in Hp; discriminate |].
    apply StronglySorted_inv in H1 as [H1 Hx]. apply StronglySorted_inv in H2 as [H2 Hy].
    pose proof (Forall_inv Hn) as Hnx. pose proof (Forall_inv_tail Hn) as Hnt.
    assert (Exy : x = y).
    { assert (Hyin : In y (x :: t1))
        by (apply (Permutation_in _ (Permutation_sym Hp)); now left).
      assert (Hxin : In x (y :: t2)) by (apply (Permutation_in _ Hp); now left).
      destruct Hyin as [-> | Hyin]; [reflexivity |].
      destruct Hxin as [<- | Hxin]; [reflexivity |].
      pose proof (proj1 (List.Forall_forall _ _) Hx y Hyin) as Lxy.
      pose proof (proj1 (List.Forall_forall _ _) Hy x Hxin) as Lyx.
      pose proof (proj1 (List.Forall_forall _ _) Hnt y Hyin) as Hny.
      specialize (Hf (fst x)). cbn [List.filter] in Hf.
      rewrite (eqb_of_not_ltb _ _ Hnx Hnx) in Hf
        by (destruct (PrimFloat.ltb (fst x) (fst x)) eqn:E;
            [now rewrite (ltb_asym _ _ E) in E | reflexivity]).
      rewrite (eqb_of_not_ltb _ _ Hny Hnx Lyx Lxy) in Hf. now injection Hf. }
    subst y. f_equal. apply IH; try assumption.
    + now apply Permutation_cons_inv in Hp.
    + intros v. specialize (Hf v). cbn [List.filter] in Hf.
      destruct (PrimFloat.eqb (fst x) v); [now injection Hf | exact Hf].
Qed.

Lemma leb_not_ltb (a b : float) : PrimFloat.leb b a = true -> PrimFloat.ltb a b = false.
Proof.
  rewrite FloatAxioms.leb_spec, FloatAxioms.ltb_spec. intros H.
  destruct (SFleb_not_nan _ _ H) as [Hb Ha].
  destruct (SFcompare_key _ _ Ha Hb) as (c & Hc & _ & Hlt).
  unfold SFltb. rewrite Hc. destruct c; try reflexivity.
  exfalso. apply (proj1 Hlt eq_refl). now apply SFleb_le3.
Qed.

(** On keys that are numbers, whatever sorts stably into descending order
    gives what [sort_desc] gives. *)
Lemma sort_desc_unique l l' :
  Forall (fun p => number p) l ->
  Permutation l' l ->
  StronglySorted (fun p q => not_below p q) l' ->
  (forall v, List.filter (tied v) l' = List.filter (tied v) l) ->
  l' = sort_desc PrimFloat.ltb l.
Proof.
  intros Hn Hp Hs Hf. apply stable_descending_unique.
  - eapply Permutation_Forall; [apply Permutation_sym; exact Hp | exact Hn].
  - rewrite Hp. apply Permutation_sym, sort_desc_perm.
  - exact Hs.
  - assert (Hn' : Forall (fun p => number p) (sort_desc PrimFloat.ltb l))
      by (eapply Permutation_Forall; [apply Permutation_sym, sort_desc_perm | exact Hn]).
    pose proof (sorted_numbers fst _ Hn' (sort_desc_sorted PrimFloat.ltb ltb_asym l)) as H.
    induction H as [| p s Hss IHs Hall]; constructor.
    + apply IHs. exact (Forall_inv_tail Hn').
    + eapply List.Forall_impl; [| exact Hall]. intros q Hq. now apply leb_not_ltb.
  - intros v. rewrite Hf. symmetry.
    apply (sort_desc_stable PrimFloat.ltb PrimFloat.eqb eqb_ltb).
Qed.

End StableSort.

(** ** The optimization pass, step by step *)

Section Optimize.

Variable now_at : nat -> datetime.

(** The key with the conversion of the literal done. *)
Lemma score_value_eq (t : datetime) (x : ContextSegment) :
  score_value t x
  = if PrimFloat.eqb
         (PrimFloat.add 1.0%float
            (PrimFloat.div (total_seconds (t - timestamp x)) 3600%float)) 0%float
    then Raise ZeroDivisionError
    else
      obind (float_of_int (access_count x)) (fun n =>
      Ret (PrimFloat.mul
             (PrimFloat.mul (relevance_score x)
                (PrimFloat.div 1.0%float
                   (PrimFloat.add 1.0%float
                      (PrimFloat.div (total_seconds (t - timestamp x)) 3600%float))))
             n)).
Proof.
  unfold score_value. rewrite (proj2 (proj2 float_of_int_literals)). reflexivity.
Qed.

Lemma score_segment_eq (r : ref) (w : World) :
  score_segment now_at r w
  = (match heap w !! r with
     | Some x => score_value (now_at (ticks w)) x
     | None => Raise DanglingReference
     end, with_ticks (S (ticks w)) w).
Proof.
  unfold score_segment, bind, now, deref, lift. cbn [heap with_ticks].
  now destruct (heap w !! r).
Qed.

Lemma sort_key_eq (r : ref) (w : World) :
  sort_key now_at r w
  = (match heap w !! r with
     | Some x => obind (score_value (now_at (ticks w)) x) (fun k => Ret (k, r))
     | None => Raise DanglingReference
     end, with_ticks (S (ticks w)) w).
Proof.
  unfold sort_key, bind. rewrite score_segment_eq.
  destruct (heap w !! r) as [x |]; [| reflexivity].
  now destruct (score_value _ x).
Qed.

(** Computing the keys reads the clock and nothing else; the keys come
    back paired with the segments, in their order. *)
Lemma sort_keys_spec (l : list ref) (w : World) :
  exists o w',
    map_m (sort_key now_at) l w = (o, w')
    /\ heap w' = heap w /\ self w' = self w
    /\ forall keyed, o = Ret keyed -> map snd keyed = l.
Proof.
  revert w. induction l as [| r l IH]; intros w.
  - exists (Ret []), w. do 3 (split; [reflexivity |]). now intros keyed [= <-].
  - cbn [map_m]. unfold bind at 1. rewrite sort_key_eq.
    destruct (match heap w !! r with
              | Some x => obind (score_value (now_at (ticks w)) x) (fun k => Ret (k, r))
              | None => Raise DanglingReference
              end) as [kr | e] eqn:Hkr.
    + unfold bind at 1.
      destruct (IH (with_ticks (S (ticks w)) w)) as (o & w' & -> & Hh & Hs & Hk).
      cbn [heap self with_ticks] in Hh, Hs.
      destruct o as [ks | e].
      * exists (Ret (kr :: ks)), w'. do 3 (split; [assumption || reflexivity |]).
        intros keyed [= <-]. cbn [map]. rewrite (Hk ks eq_refl). f_equal.
        destruct (heap w !! r) as [x |]; [| discriminate].
        destruct (score_value _ x); [| discriminate]. cbn in Hkr. now injection Hkr as <-.
      * exists (Raise e), w'. do 3 (split; [assumption || reflexivity |]). discriminate.
    + exists (Raise e), (with_ticks (S (ticks w)) w).
      do 3 (split; [reflexivity |]). discriminate.
Qed.

Lemma move_step (r : ref) (x : ContextSegment) (w : World) :
  heap w !! r = Some x ->
  move_to_working_step r w
  = (Ret tt,
     set_working (dict_set (working_of w) (id x) r)
       (set_active (dict_pop (active_of w) (id x)).2 w)).
Proof.
  intros Hx. unfold move_to_working_step.
  unfold bind at 1. rewrite (deref_some r x w Hx).
  unfold bind at 1. rewrite delete_active.
  unfold bind at 1.
  rewrite (store_recognized MemoryTier.WORKING r x); [reflexivity | exact Hx |].
  intros (_ & H & _). now apply H.
Qed.

Lemma optimize_eq (w : World) :
  _optimize_active_memory now_at w
  = match map_m (sort_key now_at) (dict_values (active_of w)) w with
    | (Raise e, w1) => (Raise e, w1)
    | (Ret keyed, w1) =>
        match keep_count (Z.of_nat (length keyed)) with
        | Raise e => (Raise e, w1)
        | Ret k =>
            for_each (slice_from (map snd (sort_desc PrimFloat.ltb keyed)) k)
              move_to_working_step w1
        end
    end.
Proof.
  unfold _optimize_active_memory. unfold bind at 1. rewrite get_all_active.
  unfold bind at 1.
  destruct (map_m (sort_key now_at) (dict_values (active_of w)) w) as [[keyed | e] w1];
    [| reflexivity].
  rewrite length_map, sort_desc_length.
  unfold bind, lift. now destruct (keep_count (Z.of_nat (length keyed))).
Qed.

(** With nothing in the active tier the pass does nothing at all. *)
Lemma optimize_empty (w : World) :
  active_of w = [] -> _optimize_active_memory now_at w = (Ret tt, w).
Proof. intros H. rewrite optimize_eq, H. reflexivity. Qed.

Lemma dict_set_idem (d : dict) (k : string) (r : ref) :
  dict_set (dict_set d k r) k r = dict_set d k r.
Proof.
  induction d as [| [k0 v0] d IH]; cbn.
  - now rewrite String.eqb_refl.
  - destruct (String.eqb k0 k) eqn:E; cbn; rewrite E; [reflexivity | now rewrite IH].
Qed.

Lemma optimize_single (w : World) (k : string) (r : ref) (x : ContextSegment) :
  active_of w = [(k, r)] ->
  heap w !! r = Some x ->
  _optimize_active_memory now_at w
  = match score_value (now_at (ticks w)) x with
    | Ret _ =>
        (Ret tt,
         set_working (dict_set (working_of w) (id x) r)
           (set_active (dict_pop [(k, r)] (id x)).2 (with_ticks (S (ticks w)) w)))
    | Raise e => (Raise e, with_ticks (S (ticks w)) w)
    end.
Proof.
  intros Ha Hx. rewrite optimize_eq, Ha. cbn [dict_values map snd map_m].
  unfold bind at 1. rewrite sort_key_eq, Hx.
  destruct (score_value (now_at (ticks w)) x) as [v | e]; [| reflexivity].
  cbn [obind]. unfold bind, ret. cbn [length sort_desc insert_desc map snd].
  change (keep_count (Z.of_nat 1)) with (Ret (A := Z) 0).
  unfold slice_from. cbn [Z.leb Z.compare].
  change (drop (Z.to_nat 0) [r]) with [r]. cbn [for_each].
  unfold bind at 1.
  rewrite (move_step r x (with_ticks (S (ticks w)) w)) by exact Hx.
  unfold ret. do 3 f_equal. destruct w as [h n [c [a b l] m t]]. cbn in Ha |- *. now rewrite Ha.
Qed.

(** When the active tier holds at most one segment and a first pass has
    completed, a second pass leaves the membership of all three tiers as
    the first pass left it. *)
Lemma optimize_twice_small (w : World) :
  (length (active_of w) <= 1)%nat ->
  fst (_optimize_active_memory now_at w) = Ret tt ->
  memory_manager
    (self (snd (_optimize_active_memory now_at (snd (_optimize_active_memory now_at w)))))
  = memory_manager (self (snd (_optimize_active_memory now_at w))).
Proof.
  intros Hlen Hret. destruct (active_of w) as [| [k r] [| e l]] eqn:Ha; cbn in Hlen; [| | lia].
  - rewrite (optimize_empty w Ha). cbn [snd]. now rewrite (optimize_empty w Ha).
  - destruct (heap w !! r) as [x |] eqn:Hx.
    + rewrite (optimize_single w k r x Ha Hx) in *.
      destruct (score_value (now_at (ticks w)) x) as [v | e]; [| discriminate].
      cbn [snd]. cbn [dict_pop]. destruct (String.eqb k (id x)) eqn:Hk; cbn [snd].
      * rewrite optimize_empty; [reflexivity |].
        destruct w as [h n [c [a b l] m t]]. reflexivity.
      * set (w1 := set_working _ _).
        assert (Ha1 : active_of w1 = [(k, r)])
          by (destruct w as [h n [c [a b l] m t]]; reflexivity).
        assert (Hx1 : heap w1 !! r = Some x)
          by (destruct w as [h n [c [a b l] m t]]; exact Hx).
        rewrite (optimize_single w1 k r x Ha1 Hx1).
        destruct (score_value (now_at (ticks w1)) x) as [v' | e]; cbn [snd]; [| reflexivity].
        cbn [dict_pop]. rewrite Hk. subst w1.
        destruct w as [h n [c [a b l] m t]]. cbn in Ha |- *.
        now rewrite dict_set_idem.
    + rewrite optimize_eq, Ha in Hret. cbn [dict_values map snd map_m] in Hret.
      unfold bind in Hret. rewrite sort_key_eq, Hx in Hret. discriminate.
Qed.

End Optimize.

(** C3, as stated, fails on two active segments: the first pass keeps one
    of them in the active tier, the second pass moves that one out too. *)
Lemma C3_second_pass_demotes_again :
  fst (_optimize_active_memory demo_clock pair_world) = Ret tt
  /\ fst (_optimize_active_memory demo_clock pair_world_once) = Ret tt
  /\ dict_keys (active_of pair_world_once) = ["first note@1000000"%string]
  /\ dict_keys (active_of pair_world_twice) = []
  /\ memory_manager (self pair_world_twice) <> memory_manager (self pair_world_once).
Proof.
  repeat split; try (vm_compute; reflexivity).
  intros H. apply (f_equal (fun m => length (active_memory m))) in H.
  vm_compute in H. discriminate.
Qed.

(** ** Ingestion *)

Section Ingestion.

Variable now_at : nat -> datetime.
Variable md5_hexdigest : string -> datetime -> string.

Lemma maybe_optimize_eq (w : World) (n : Z) :
  sum_len (dict_values (active_of w)) w = (Ret n, w) ->
  _maybe_optimize_memory now_at w
  = if max_context_size (config (self w)) <? n then _optimize_active_memory now_at w
    else (Ret tt, w).
Proof.
  intros H. unfold _maybe_optimize_memory. unfold bind at 1. rewrite get_all_active.
  unfold bind at 1. rewrite H. unfold bind at 1. unfold the_config at 1.
  now destruct (max_context_size (config (self w)) <? n).
Qed.

Lemma sum_len_cons (r : ref) (l : list ref) (x : ContextSegment) (n : Z) (w : World) :
  heap w !! r = Some x ->
  sum_len l w = (Ret n, w) ->
  sum_len (r :: l) w = (Ret (PyStr.len (content x) + n), w).
Proof.
  intros Hx Hl. cbn [sum_len]. unfold bind at 1. rewrite (deref_some r x w Hx).
  unfold bind at 1. now rewrite Hl.
Qed.

Lemma add_context_eq (c : string) (md : option (list (string * string))) (w : World) :
  add_context now_at md5_hexdigest c md w
  = match _maybe_optimize_memory now_at
            (set_active
               (dict_set (active_of w) (md5_hexdigest c (now_at (ticks w)))
                  (length (heap w)))
               (with_heap
                  (heap w ++ [new_segment (md5_hexdigest c (now_at (ticks w))) c md
                                (now_at (S (ticks w)))])
                  (with_ticks (S (S (ticks w))) w))) with
    | (Ret _, w2) => (Ret (md5_hexdigest c (now_at (ticks w))), count_added w2)
    | (Raise e, w2) => (Raise e, w2)
    end.
Proof.
  unfold add_context, _generate_segment_id.
  unfold bind at 1. unfold bind at 1. unfold now at 1. unfold ret at 1.
  unfold bind at 1. unfold now at 1. cbn [ticks with_ticks].
  unfold bind at 1. unfold alloc at 1. cbn [heap with_ticks].
  unfold bind at 1.
  erewrite store_recognized;
    [| cbn [heap with_heap]; apply list_lookup_middle; reflexivity
     | intros (H & _); now apply H ].
  unfold bind at 1.
  match goal with
  | |- context [_maybe_optimize_memory now_at ?a] =>
      match goal with
      | |- _ = match _maybe_optimize_memory now_at ?b with _ => _ end =>
          replace a with b by (destruct w as [h n [cf [a0 b0 l0] m t]]; reflexivity)
      end
  end.
  destruct (_maybe_optimize_memory now_at _) as [[[] | e] w2]; reflexivity.
Qed.

Lemma score_value_unread (t : datetime) (x : ContextSegment) :
  decay_defined (timestamp x) t ->
  access_count x = 0 ->
  exists q, score_value t x = Ret (PrimFloat.mul q 0%float).
Proof.
  unfold decay_defined. intros Hd Ha. rewrite score_value_eq, Hd, Ha.
  rewrite (proj1 float_of_int_literals). eexists. reflexivity.
Qed.

(** The pass on two active segments that were never read: both keys are
    zero, the order of insertion decides, the first stays. *)
Lemma optimize_pair (w : World) (k1 k2 : string) (r1 r2 : ref) (x1 x2 : ContextSegment) :
  active_of w = [(k1, r1); (k2, r2)] ->
  heap w !! r1 = Some x1 ->
  heap w !! r2 = Some x2 ->
  access_count x1 = 0 ->
  access_count x2 = 0 ->
  decay_defined (timestamp x1) (now_at (ticks w)) ->
  decay_defined (timestamp x2) (now_at (S (ticks w))) ->
  id x2 = k2 ->
  k1 <> k2 ->
  _optimize_active_memory now_at w
  = (Ret tt,
     set_working (dict_set (working_of w) k2 r2)
       (set_active [(k1, r1)] (with_ticks (S (S (ticks w))) w))).
Proof.
  intros Ha H1 H2 A1 A2 D1 D2 Hid Hne.
  destruct (score_value_unread _ _ D1 A1) as (q1 & S1).
  destruct (score_value_unread _ _ D2 A2) as (q2 & S2).
  rewrite optimize_eq, Ha. cbn [dict_values map snd map_m].
  unfold bind at 1. rewrite sort_key_eq, H1, S1. cbn [obind].
  unfold bind at 1. unfold bind at 1. rewrite sort_key_eq.
  cbn [heap ticks with_ticks]. rewrite H2, S2. cbn [obind].
  unfold bind at 1. unfold ret. cbn [length].
  change (keep_count (Z.of_nat 2)) with (Ret (A := Z) 1).
  cbn [sort_desc insert_desc fst]. rewrite ltb_mul_zero. cbn [map snd].
  unfold slice_from. cbn [Z.leb Z.compare].
  change (drop (Z.to_nat 1) [r1; r2]) with [r2]. cbn [for_each].
  unfold bind at 1. rewrite (move_step r2 x2) by exact H2. unfold ret.
  rewrite Hid. f_equal.
  destruct w as [h n [cf [a0 b0 l0] m t]]. cbn in Ha |- *. rewrite Ha.
  cbn [dict_pop]. apply String.eqb_neq in Hne. rewrite Hne, String.eqb_refl. reflexivity.
Qed.

(** C6 (scenario B): with [max_context_size = 10], ingesting two contents
    of six characters each into a new manager leaves the first ingestion
    untouched by any optimization and makes the second one run the pass:
    afterwards the active tier holds exactly one segment, the first, and
    the working tier holds the other.  The two ids are supposed distinct,
    and the clock not to go back between the creation of a segment and
    its scoring. *)
Theorem C6_scenario_B (cfg : ContextConfig) (c1 c2 : string)
    (md1 md2 : option (list (string * string))) :
  max_context_size cfg = 10 ->
  PyStr.len c1 = 6 ->
  PyStr.len c2 = 6 ->
  md5_hexdigest c1 (now_at 1) <> md5_hexdigest c2 (now_at 3) ->
  now_at 2 <= now_at 5 ->
  now_at 4 <= now_at 6 ->
  exists w1 w2,
    add_context now_at md5_hexdigest c1 md1 (new now_at cfg)
    = (Ret (md5_hexdigest c1 (now_at 1)), w1)
    /\ active_of w1 = [(md5_hexdigest c1 (now_at 1), 0%nat)]
    /\ working_of w1 = []
    /\ add_context now_at md5_hexdigest c2 md2 w1
       = (Ret (md5_hexdigest c2 (now_at 3)), w2)
    /\ active_of w2 = [(md5_hexdigest c1 (now_at 1), 0%nat)]
    /\ working_of w2 = [(md5_hexdigest c2 (now_at 3), 1%nat)]
    /\ long_term_of w2 = [].
Proof.
  intros Hmax L1 L2 Hne T1 T2.
  pose proof (decay_defined_later _ _ T1) as D1.
  pose proof (decay_defined_later _ _ T2) as D2.
  set (k1 := md5_hexdigest c1 (now_at 1)) in *.
  set (k2 := md5_hexdigest c2 (now_at 3)) in *.
  set (x1 := new_segment k1 c1 md1 (now_at 2)).
  set (x2 := new_segment k2 c2 md2 (now_at 4)).
  set (u1 := set_active [(k1, 0%nat)]
                (with_heap [x1] (with_ticks 3 (new now_at cfg)))).
  set (u2 := set_active [(k1, 0%nat); (k2, 1%nat)]
                (with_heap [x1; x2] (with_ticks 5 (count_added u1)))).
  assert (E1 : add_context now_at md5_hexdigest c1 md1 (new now_at cfg)
               = (Ret k1, count_added u1)).
  { rewrite add_context_eq.
    change (_maybe_optimize_memory now_at _) with (_maybe_optimize_memory now_at u1).
    assert (S1 : sum_len (dict_values (active_of u1)) u1 = (Ret (6 + 0), u1)).
    { rewrite <- L1. apply (sum_len_cons 0%nat [] x1 0 u1); reflexivity. }
    rewrite (maybe_optimize_eq u1 _ S1).
    change (max_context_size (config (self u1))) with (max_context_size cfg).
    rewrite Hmax. reflexivity. }
  assert (E2 : add_context now_at md5_hexdigest c2 md2 (count_added u1)
               = (Ret k2,
                  count_added
                    (set_working [(k2, 1%nat)]
                       (set_active [(k1, 0%nat)] (with_ticks 7 u2))))).
  { rewrite add_context_eq.
    change (ticks (count_added u1)) with 3%nat.
    change (heap (count_added u1)) with [x1].
    change (active_of (count_added u1)) with [(k1, 0%nat)].
    fold k2. cbn [length app dict_set].
    assert (E12 : String.eqb k1 k2 = false) by now apply String.eqb_neq.
    rewrite E12.
    change (_maybe_optimize_memory now_at _) with (_maybe_optimize_memory now_at u2).
    assert (S2 : sum_len (dict_values (active_of u2)) u2 = (Ret (6 + (6 + 0)), u2)).
    { rewrite <- L1 at 1. rewrite <- L2.
      apply (sum_len_cons 0%nat [1%nat] x1 _ u2); [reflexivity |].
      apply (sum_len_cons 1%nat [] x2 0 u2); reflexivity. }
    rewrite (maybe_optimize_eq u2 _ S2).
    change (max_context_size (config (self u2))) with (max_context_size cfg).
    rewrite Hmax. change (10 <? 6 + (6 + 0)) with true. cbv iota.
    rewrite (optimize_pair u2 k1 k2 0%nat 1%nat x1 x2);
      try reflexivity; try assumption. }
  eexists. eexists. split; [exact E1 |].
  split; [reflexivity |]. split; [reflexivity |]. split; [exact E2 |].
  repeat split.
Qed.

End Ingestion.

Lemma C6_scenario_B_witness :
  exists w1 w2,
    add_context demo_clock demo_digest "abcdef" None
      (new demo_clock {| max_context_size := 10;
                         working_memory_size := 128000;
                         compression_strategy := CompressionStrategy.ADAPTIVE;
                         compression_target_ratio := 0.3%float;
                         compression_quality_threshold := 0.8%float;
                         retrieval_strategy := RetrievalStrategy.KEYWORD;
                         similarity_threshold := 0.7%float;
                         max_retrieval_results := 20;
                         cleanup_interval_minutes := 60;
                         metrics_enabled := true |})
    = (Ret "abcdef@1000000"%string, w1)
    /\ active_of w1 = [("abcdef@1000000"%string, 0%nat)]
    /\ working_of w1 = []
    /\ add_context demo_clock demo_digest "ghijkl" None w1
       = (Ret "ghijkl@3000000"%string, w2)
    /\ active_of w2 = [("abcdef@1000000"%string, 0%nat)]
    /\ working_of w2 = [("ghijkl@3000000"%string, 1%nat)]
    /\ long_term_of w2 = [].
Proof.
  apply (C6_scenario_B demo_clock demo_digest _ "abcdef" "ghijkl" None None);
    try reflexivity.
  all: vm_compute; discriminate.
Defined.

(** ** Computations that leave the tiers alone *)

Create HintDb keeps discriminated.

Section Keeps.

Lemma ids_stable_refl h : ids_stable h h.
Proof. intros r x H. now exists x. Qed.

Lemma ids_stable_trans h1 h2 h3 :
  ids_stable h1 h2 -> ids_stable h2 h3 -> ids_stable h1 h3.
Proof.
  intros H12 H23 r x H. destruct (H12 r x H) as (x' & H' & E').
  destruct (H23 r x' H') as (x'' & H'' & E''). exists x''. split; congruence.
Qed.

Lemma ids_stable_insert h r x y :
  h !! r = Some x -> id y = id x -> ids_stable h (<[r := y]> h).
Proof.
  intros Hx Hid r' x' H'. destruct (decide (r = r')) as [<- | Hne].
  - exists y. split; [| congruence].
    apply list_lookup_insert_eq. eapply lookup_lt_Some; eassumption.
  - exists x'. split; [| reflexivity]. now rewrite list_lookup_insert_ne.
Qed.

Lemma ids_stable_app h x : ids_stable h (h ++ [x]).
Proof. intros r y H. exists y. split; [| reflexivity]. now apply lookup_app_l_Some. Qed.

Lemma steady_refl w : steady w w.
Proof. split; [reflexivity | apply ids_stable_refl]. Qed.

Lemma steady_trans w1 w2 w3 : steady w1 w2 -> steady w2 w3 -> steady w1 w3.
Proof.
  intros [H1 H2] [H3 H4]. split; [congruence |]. eapply ids_stable_trans; eassumption.
Qed.

Lemma keeps_ret {A} (a : A) : keeps (ret a).
Proof. intros w. apply steady_refl. Qed.

Lemma keeps_raise {A} (e : exn) : keeps (raise (A := A) e).
Proof. intros w. apply steady_refl. Qed.

Lemma keeps_lift {A} (o : outcome A) : keeps (lift o).
Proof. intros w. apply steady_refl. Qed.

Lemma keeps_get : keeps get.
Proof. intros w. apply steady_refl. Qed.

Lemma keeps_bind {A B} (m : M A) (k : A -> M B) :
  keeps m -> (forall a, keeps (k a)) -> keeps (bind m k).
Proof.
  intros Hm Hk w. unfold bind. specialize (Hm w).
  destruct (m w) as [[a | e] w']; cbn [snd] in *; [| assumption].
  eapply steady_trans; [eassumption | apply Hk].
Qed.

Lemma keeps_for_each {A} (l : list A) (body : A -> M unit) :
  (forall x, keeps (body x)) -> keeps (for_each l body).
Proof.
  intros Hb. induction l as [| x l IH]; cbn [for_each].
  - apply keeps_ret.
  - apply keeps_bind; [apply Hb | intros _; exact IH].
Qed.

Lemma keeps_map_m {A B} (f : A -> M B) (l : list A) :
  (forall x, keeps (f x)) -> keeps (map_m f l).
Proof.
  intros Hf. induction l as [| x l IH]; cbn [map_m].
  - apply keeps_ret.
  - apply keeps_bind; [apply Hf | intros y].
    apply keeps_bind; [exact IH | intros ys; apply keeps_ret].
Qed.

Lemma keeps_deref r : keeps (deref r).
Proof. intros w. unfold deref. destruct (heap w !! r); apply steady_refl. Qed.

Lemma keeps_update r f :
  (forall x, id (f x) = id x) -> keeps (update r f).
Proof.
  intros Hf w. unfold update, bind, deref, modify.
  destruct (heap w !! r) as [x |] eqn:Hx; cbn [snd]; [| apply steady_refl].
  split; [reflexivity |]. cbn [heap with_heap]. now apply (ids_stable_insert _ _ x).
Qed.

Lemma keeps_alloc x : keeps (alloc x).
Proof. intros w. split; [reflexivity |]. apply ids_stable_app. Qed.

Lemma keeps_tiers : keeps MemoryManager.tiers.
Proof. intros w. apply steady_refl. Qed.

Lemma keeps_get_all tier : keeps (MemoryManager.get_all_segments tier).
Proof.
  unfold MemoryManager.get_all_segments. apply keeps_bind; [apply keeps_tiers | intros m].
  repeat (destruct (String.eqb tier _); [apply keeps_ret |]). apply keeps_ret.
Qed.

Lemma keeps_touch o : keeps (MemoryManager.touch o).
Proof.
  destruct o as [r |]; cbn [MemoryManager.touch]; [| apply keeps_ret].
  apply keeps_bind; [now apply keeps_update | intros _; apply keeps_ret].
Qed.

Lemma keeps_mm_retrieve tier k : keeps (MemoryManager.retrieve tier k).
Proof.
  unfold MemoryManager.retrieve. apply keeps_bind; [apply keeps_tiers | intros m].
  repeat (destruct (String.eqb tier _); [apply keeps_touch |]). apply keeps_ret.
Qed.

Lemma keeps_get_memory_usage : keeps MemoryManager.get_memory_usage.
Proof.
  unfold MemoryManager.get_memory_usage.
  apply keeps_bind; [apply keeps_tiers | intros m; apply keeps_ret].
Qed.

Lemma keeps_score_loop q l : keeps (BasicRetrievalEngine.score_loop q l).
Proof.
  induction l as [| r l IH]; cbn [BasicRetrievalEngine.score_loop]; [apply keeps_ret |].
  apply keeps_bind; [apply keeps_deref | intros x].
  destruct (0 <? _); [| exact IH].
  apply keeps_bind; [now apply keeps_update | intros _].
  apply keeps_bind; [exact IH | intros ?; apply keeps_ret].
Qed.

Lemma keeps_engine_retrieve q l limit : keeps (BasicRetrievalEngine.retrieve q l limit).
Proof.
  unfold BasicRetrievalEngine.retrieve.
  apply keeps_bind; [apply keeps_score_loop | intros scored].
  apply keeps_bind; [| intros ?; apply keeps_ret].
  apply keeps_map_m. intros r. unfold BasicRetrievalEngine.sort_key.
  apply keeps_bind; [apply keeps_deref | intros ?; apply keeps_ret].
Qed.

End Keeps.

#[local] Hint Resolve keeps_ret keeps_raise keeps_lift keeps_get keeps_deref keeps_alloc
  keeps_tiers keeps_get_all keeps_touch keeps_mm_retrieve keeps_get_memory_usage
  keeps_score_loop keeps_engine_retrieve : keeps.

(** ** The store invariant *)

Section Invariant.

Variable now_at : nat -> datetime.
Variable md5_hexdigest : string -> datetime -> string.

Lemma keeps_now : keeps (now now_at).
Proof. intros w. split; [reflexivity | apply ids_stable_refl]. Qed.

Lemma keeps_the_config : keeps the_config.
Proof. intros w. apply steady_refl. Qed.

Lemma keeps_the_metrics : keeps the_metrics.
Proof. intros w. apply steady_refl. Qed.

Lemma keeps_set_metrics f : keeps (set_metrics f).
Proof. intros w. split; [reflexivity | apply ids_stable_refl]. Qed.

Lemma keeps_score_segment r : keeps (score_segment now_at r).
Proof.
  unfold score_segment. apply keeps_bind; [apply keeps_now | intros t].
  apply keeps_bind; [apply keeps_deref | intros x; apply keeps_lift].
Qed.

Lemma keeps_sum_len l : keeps (sum_len l).
Proof.
  induction l as [| r l IH]; cbn [sum_len]; [apply keeps_ret |].
  apply keeps_bind; [apply keeps_deref | intros x].
  apply keeps_bind; [exact IH | intros n; apply keeps_ret].
Qed.

Lemma keeps_gather tiers : keeps (gather tiers).
Proof.
  induction tiers as [| t ts IH]; cbn [gather]; [apply keeps_ret |].
  apply keeps_bind; [apply keeps_get_all | intros l].
  apply keeps_bind; [exact IH | intros l'; apply keeps_ret].
Qed.

Lemma keeps_find_segment tiers k : keeps (find_segment tiers k).
Proof.
  induction tiers as [| t ts IH]; cbn [find_segment]; [apply keeps_ret |].
  apply keeps_bind; [apply keeps_mm_retrieve | intros [r |]];
    [apply keeps_ret | exact IH].
Qed.

Hint Resolve keeps_now keeps_the_config keeps_the_metrics keeps_set_metrics
  keeps_score_segment keeps_sum_len keeps_gather keeps_find_segment : keeps.

(** Splits a sequence of calls into its calls, each closed by a lemma of the
    database. *)
Ltac keeps_calls :=
  repeat first [ solve [auto with keeps] | apply keeps_bind; [| intros ?] ].

Lemma keeps_retrieve_relevant q limit : keeps (retrieve_relevant now_at q limit).
Proof. unfold retrieve_relevant. keeps_calls. Qed.

Lemma keeps_get_metrics : keeps get_metrics.
Proof. unfold get_metrics. keeps_calls. Qed.

(** *** From [keeps] to [preserves] *)

Lemma wf_dict_stable h h' d : wf_dict h d -> ids_stable h h' -> wf_dict h' d.
Proof.
  intros [Hnd Hd] Hs. split; [assumption |]. intros k r Hin.
  destruct (Hd k r Hin) as (x & Hx & Hid). destruct (Hs r x Hx) as (x' & Hx' & Hid').
  exists x'. split; [assumption | now rewrite Hid'].
Qed.

Lemma inv_steady w w' : inv w -> steady w w' -> inv w'.
Proof.
  intros [(Ha & Hw & Hl) H1] [Hm Hs]. split.
  - unfold wf, active_of, working_of, long_term_of in *. rewrite Hm.
    repeat split; eapply wf_dict_stable; eassumption.
  - intros k. specialize (H1 k).
    unfold tier_count, active_of, working_of, long_term_of in *. now rewrite Hm.
Qed.

Lemma keeps_preserves {A} (m : M A) : keeps m -> preserves m.
Proof. intros H w Hi. eapply inv_steady; [eassumption | apply H]. Qed.

Lemma preserves_bind {A B} (m : M A) (k : A -> M B) :
  preserves m -> (forall a, preserves (k a)) -> preserves (bind m k).
Proof.
  intros Hm Hk w Hi. unfold bind. specialize (Hm w Hi).
  destruct (m w) as [[a | e] w']; cbn [snd] in *; [now apply Hk | assumption].
Qed.

Lemma preserves_for_each {A} (l : list A) (body : A -> M unit) :
  (forall x, preserves (body x)) -> preserves (for_each l body).
Proof.
  intros Hb. induction l as [| x l IH]; cbn [for_each].
  - apply keeps_preserves, keeps_ret.
  - apply preserves_bind; [apply Hb | intros _; exact IH].
Qed.

(** *** Deleting *)

Lemma wf_dict_pop h d k : wf_dict h d -> wf_dict h (dict_pop d k).2.
Proof.
  intros [Hnd Hd]. split; [now apply dict_pop_NoDup |].
  intros k' r' Hin. apply Hd. eapply dict_pop_elem; eassumption.
Qed.

Lemma b2n_le (a b : bool) : (a = true -> b = true) -> (Nat.b2n a <= Nat.b2n b)%nat.
Proof. destruct a, b; cbn; intros H; try lia; discriminate (H eq_refl). Qed.

Lemma inv_pop_active w k : inv w -> inv (set_active (dict_pop (active_of w) k).2 w).
Proof.
  intros [(Ha & Hw & Hl) H1]. split.
  - destruct w as [h n [c [a b l] m t]].
    split; [now apply wf_dict_pop | split; assumption].
  - intros k'. specialize (H1 k').
    pose proof (b2n_le _ _ (dict_pop_holds_le (active_of w) k k')) as Hle.
    destruct w as [h n [c [a b l] m t]]. unfold tier_count in *. cbn in *. lia.
Qed.

Lemma inv_pop_working w k : inv w -> inv (set_working (dict_pop (working_of w) k).2 w).
Proof.
  intros [(Ha & Hw & Hl) H1]. split.
  - destruct w as [h n [c [a b l] m t]].
    split; [assumption | split; [now apply wf_dict_pop | assumption]].
  - intros k'. specialize (H1 k').
    pose proof (b2n_le _ _ (dict_pop_holds_le (working_of w) k k')) as Hle.
    destruct w as [h n [c [a b l] m t]]. unfold tier_count in *. cbn in *. lia.
Qed.

Lemma inv_pop_long_term w k :
  inv w -> inv (set_long_term (dict_pop (long_term_of w) k).2 w).
Proof.
  intros [(Ha & Hw & Hl) H1]. split.
  - destruct w as [h n [c [a b l] m t]].
    split; [assumption | split; [assumption | now apply wf_dict_pop]].
  - intros k'. specialize (H1 k').
    pose proof (b2n_le _ _ (dict_pop_holds_le (long_term_of w) k k')) as Hle.
    destruct w as [h n [c [a b l] m t]]. unfold tier_count in *. cbn in *. lia.
Qed.

Lemma preserves_delete tier k : preserves (MemoryManager.delete tier k).
Proof.
  intros w Hi.
  destruct (String.eqb_spec tier MemoryTier.ACTIVE) as [-> | Ha].
  { rewrite delete_active. now apply inv_pop_active. }
  destruct (String.eqb_spec tier MemoryTier.WORKING) as [-> | Hw].
  { rewrite delete_working. now apply inv_pop_working. }
  destruct (String.eqb_spec tier MemoryTier.LONG_TERM) as [-> | Hl].
  { rewrite delete_long_term. now apply inv_pop_long_term. }
  unfold MemoryManager.delete, bind, MemoryManager.tiers.
  apply String.eqb_neq in Ha, Hw, Hl. now rewrite Ha, Hw, Hl.
Qed.

(** *** Storing *)

Lemma wf_dict_set h d r x : wf_dict h d -> h !! r = Some x -> wf_dict h (dict_set d (id x) r).
Proof.
  intros [Hnd Hd] Hx. split; [now apply dict_set_NoDup |].
  intros k' r' Hin. apply dict_set_elem in Hin as [[-> ->] | Hin]; [| now apply Hd].
  now exists x.
Qed.

Lemma inv_store_active w r x :
  inv w -> heap w !! r = Some x ->
  holds (working_of w) (id x) = false ->
  holds (long_term_of w) (id x) = false ->
  inv (set_active (dict_set (active_of w) (id x) r) w).
Proof.
  intros [(Ha & Hw & Hl) H1] Hx Hnw Hnl. split.
  - destruct w as [h n [c [a b l] m t]].
    split; [now apply wf_dict_set | split; assumption].
  - intros k'. specialize (H1 k'). unfold tier_count in *.
    pose proof (dict_set_holds (active_of w) (id x) r k') as Hs.
    destruct w as [h n [c [a b l] m t]]. cbn in *. rewrite Hs.
    destruct (String.eqb_spec k' (id x)) as [-> | Hne]; cbn [orb]; [| exact H1].
    rewrite Hnw, Hnl. cbn. lia.
Qed.

Lemma inv_store_working w r x :
  inv w -> heap w !! r = Some x ->
  holds (active_of w) (id x) = false ->
  holds (long_term_of w) (id x) = false ->
  inv (set_working (dict_set (working_of w) (id x) r) w).
Proof.
  intros [(Ha & Hw & Hl) H1] Hx Hna Hnl. split.
  - destruct w as [h n [c [a b l] m t]].
    split; [assumption | split; [now apply wf_dict_set | assumption]].
  - intros k'. specialize (H1 k'). unfold tier_count in *.
    pose proof (dict_set_holds (working_of w) (id x) r k') as Hs.
    destruct w as [h n [c [a b l] m t]]. cbn in *. rewrite Hs.
    destruct (String.eqb_spec k' (id x)) as [-> | Hne]; cbn [orb]; [| exact H1].
    rewrite Hna, Hnl. cbn. lia.
Qed.

(** *** The optimization pass *)

Lemma inv_move w r x :
  inv w -> heap w !! r = Some x ->
  holds (long_term_of w) (id x) = false ->
  inv (set_working (dict_set (working_of w) (id x) r)
         (set_active (dict_pop (active_of w) (id x)).2 w)).
Proof.
  intros Hi Hx Hnl.
  pose proof (inv_pop_active w (id x) Hi) as Hi'.
  assert (Hgone : holds (dict_pop (active_of w) (id x)).2 (id x) = false).
  { apply holds_false. apply dict_pop_gone. now destruct Hi as [([? _] & _) _]. }
  pose proof (inv_store_working (set_active (dict_pop (active_of w) (id x)).2 w) r x Hi')
    as H.
  destruct w as [h n [c [a b l] m t]]. cbn in *. now apply H.
Qed.

Lemma inv_move_loop (l : list ref) (w : World) :
  inv w ->
  (forall r, r ∈ l ->
     exists x, heap w !! r = Some x /\ holds (long_term_of w) (id x) = false) ->
  inv (snd (for_each l move_to_working_step w)).
Proof.
  revert w. induction l as [| r l IH]; intros w Hi Hl; [exact Hi |].
  destruct (Hl r) as (x & Hx & Hnl); [apply elem_of_cons; now left |].
  cbn [for_each]. unfold bind. rewrite (move_step r x w Hx).
  apply IH; [now apply inv_move |].
  intros r' Hr'. destruct (Hl r') as (x' & Hx' & Hnl'); [apply elem_of_cons; now right |].
  exists x'. destruct w as [h n [c [a b l0] m t]]. now split.
Qed.

Lemma active_not_long_term w k r x :
  inv w -> (k, r) ∈ active_of w -> heap w !! r = Some x ->
  holds (long_term_of w) (id x) = false.
Proof.
  intros [([Hnd Ha] & _) H1] Hin Hx.
  destruct (Ha k r Hin) as (x' & Hx' & Hid). assert (x' = x) as -> by congruence.
  specialize (H1 k). unfold tier_count in H1.
  assert (Hk : holds (active_of w) k = true) by (apply holds_elem; eapply elem_keys; eassumption).
  rewrite Hk in H1. rewrite Hid. destruct (holds (long_term_of w) k); [| reflexivity].
  cbn in H1. lia.
Qed.

Lemma preserves_optimize_active : preserves (_optimize_active_memory now_at).
Proof.
  intros w Hi. rewrite optimize_eq.
  destruct (sort_keys_spec now_at (dict_values (active_of w)) w)
    as (o & w1 & -> & Hh & Hs & Hk).
  assert (Hst : steady w w1).
  { split; [now rewrite Hs | rewrite Hh; apply ids_stable_refl]. }
  pose proof (inv_steady w w1 Hi Hst) as Hi1.
  destruct o as [keyed | e]; [| exact Hi1].
  destruct (keep_count _) as [k | e]; [| exact Hi1].
  apply inv_move_loop; [exact Hi1 |].
  intros r Hr.
  assert (Hin : r ∈ dict_values (active_of w)).
  { rewrite <- (Hk keyed eq_refl).
    assert (Hr' : r ∈ map snd (sort_desc PrimFloat.ltb keyed)).
    { unfold slice_from in Hr.
      destruct (0 <=? k); (eapply elem_of_sublist; [exact Hr | apply sublist_drop]). }
    apply list_elem_of_In. apply list_elem_of_In in Hr'.
    apply in_map_iff in Hr' as (kr & <- & Hkr). apply in_map.
    eapply Permutation_in; [apply sort_desc_perm | exact Hkr]. }
  apply values_elem in Hin as (k0 & Hin).
  destruct Hi as [Hwf H1]. pose proof Hwf as ([_ Ha] & _).
  destruct (Ha k0 r Hin) as (x & Hx & Hid).
  exists x. rewrite Hh. split; [exact Hx |].
  unfold long_term_of. rewrite Hs. fold (long_term_of w).
  eapply active_not_long_term; [split; eassumption | eassumption | exact Hx].
Qed.

Lemma preserves_maybe_optimize : preserves (_maybe_optimize_memory now_at).
Proof.
  unfold _maybe_optimize_memory.
  apply preserves_bind; [apply keeps_preserves, keeps_get_all | intros l].
  apply preserves_bind; [apply keeps_preserves, keeps_sum_len | intros n].
  apply preserves_bind; [apply keeps_preserves, keeps_the_config | intros cfg].
  destruct (_ <? _); [apply preserves_optimize_active | apply keeps_preserves, keeps_ret].
Qed.

(** *** Ingestion *)

Lemma count_zero (a b c : bool) :
  (Nat.b2n a + Nat.b2n b + Nat.b2n c = 0)%nat -> a = false /\ b = false /\ c = false.
Proof. destruct a, b, c; cbn; intros H; try lia; repeat split. Qed.

Lemma preserves_add_context c md w :
  inv w ->
  tier_count w (md5_hexdigest c (now_at (ticks w))) = 0%nat ->
  inv (snd (add_context now_at md5_hexdigest c md w)).
Proof.
  intros Hi Hfresh. rewrite add_context_eq.
  set (k := md5_hexdigest c (now_at (ticks w))) in *.
  set (x := new_segment k c md (now_at (S (ticks w)))).
  set (w0 := with_heap (heap w ++ [x]) (with_ticks (S (S (ticks w))) w)).
  apply count_zero in Hfresh as (_ & Hnw & Hnl).
  assert (Hi0 : inv w0).
  { apply (inv_steady w); [exact Hi |]. split; [reflexivity | apply ids_stable_app]. }
  assert (Hx : heap w0 !! length (heap w) = Some x)
    by (apply list_lookup_middle; reflexivity).
  pose proof (inv_store_active w0 (length (heap w)) x Hi0 Hx Hnw Hnl) as Hi1.
  change (id x) with k in Hi1. change (active_of w0) with (active_of w) in Hi1.
  pose proof (preserves_maybe_optimize _ Hi1) as Hi2.
  destruct (_maybe_optimize_memory now_at _) as [[[] | e] w2]; cbn [snd] in *;
    [| exact Hi2].
  apply (inv_steady w2); [exact Hi2 |]. split; [reflexivity | apply ids_stable_refl].
Qed.

(** *** Compression *)

Lemma stored_same w k r t x :
  wf w -> locate w k = Some (r, t) -> heap w !! r = Some x ->
  stored t (id x) r (memory_manager (self w)) = memory_manager (self w).
Proof.
  intros (Ha & Hw & Hl) Hloc Hx. unfold locate in Hloc.
  assert (Hid : forall d, wf_dict (heap w) d -> dict_get d k = Some r ->
                          dict_set d (id x) r = d).
  { intros d [_ Hd] Hg. destruct (Hd k r (dict_get_elem _ _ _ Hg)) as (x' & Hx' & Hid).
    assert (x' = x) as -> by congruence. rewrite Hid. now apply dict_set_same. }
  destruct (dict_get (active_of w) k) as [r0 |] eqn:Ga.
  { injection Hloc as -> <-. unfold stored.
    change (String.eqb MemoryTier.ACTIVE MemoryTier.ACTIVE) with true. cbv iota.
    fold (active_of w). rewrite (Hid _ Ha Ga).
    now destruct w as [h n [c [a b l] m t0]]. }
  destruct (dict_get (working_of w) k) as [r0 |] eqn:Gw.
  { injection Hloc as -> <-. unfold stored.
    change (String.eqb MemoryTier.WORKING MemoryTier.ACTIVE) with false.
    change (String.eqb MemoryTier.WORKING MemoryTier.WORKING) with true. cbv iota.
    fold (working_of w). rewrite (Hid _ Hw Gw).
    now destruct w as [h n [c [a b l] m t0]]. }
  destruct (dict_get (long_term_of w) k) as [r0 |] eqn:Gl; [| discriminate].
  injection Hloc as -> <-. unfold stored.
  change (String.eqb MemoryTier.LONG_TERM MemoryTier.ACTIVE) with false.
  change (String.eqb MemoryTier.LONG_TERM MemoryTier.WORKING) with false.
  change (String.eqb MemoryTier.LONG_TERM MemoryTier.LONG_TERM) with true. cbv iota.
  fold (long_term_of w). rewrite (Hid _ Hl Gl).
  now destruct w as [h n [c [a b l] m t0]].
Qed.

Lemma preserves_compress_context k : preserves (compress_context k).
Proof.
  intros w Hi. apply (inv_steady w); [exact Hi |].
  destruct (locate w k) as [[r t] |] eqn:Hloc.
  - destruct (heap w !! r) as [x |] eqn:Hx.
    + rewrite (compress_context_found k w r t x Hloc Hx).
      destruct (BasicCompressionEngine.compress _ _) as [c | e]; cbn [snd].
      * split.
        -- cbn [self with_self memory_manager with_memory_manager with_heap].
           apply (stored_same w k r t x); [apply Hi | assumption | assumption].
        -- cbn [heap with_self with_heap]. now apply (ids_stable_insert _ _ x).
      * split; [reflexivity |]. cbn [heap with_heap].
        now apply (ids_stable_insert _ _ x).
    + unfold compress_context, bind. rewrite find_segment_all, Hloc, Hx.
      apply steady_refl.
  - unfold compress_context, bind. rewrite find_segment_all, Hloc. apply steady_refl.
Qed.

(** *** Removal, expiry, maintenance *)

Lemma preserves_remove_from tiers k : preserves (remove_from tiers k).
Proof.
  induction tiers as [| t ts IH]; cbn [remove_from]; [apply keeps_preserves, keeps_ret |].
  apply preserves_bind; [apply preserves_delete | intros [|]]; [| exact IH].
  apply keeps_preserves. keeps_calls.
Qed.

Lemma preserves_cleanup : preserves (_cleanup_old_segments now_at).
Proof.
  unfold _cleanup_old_segments.
  apply preserves_bind; [apply keeps_preserves, keeps_now | intros t].
  apply preserves_bind; [apply keeps_preserves, keeps_get_all | intros l].
  apply preserves_for_each. intros r.
  apply preserves_bind; [apply keeps_preserves, keeps_deref | intros x].
  destruct (expired _ x); [| apply keeps_preserves, keeps_ret].
  apply preserves_bind; [apply preserves_delete | intros _; apply keeps_preserves, keeps_ret].
Qed.

Lemma preserves_optimize : preserves (optimize now_at).
Proof.
  unfold optimize.
  apply preserves_bind; [apply preserves_optimize_active | intros _].
  apply preserves_bind; [apply keeps_preserves, keeps_now | intros t].
  apply preserves_bind; [apply keeps_preserves, keeps_get | intros w0].
  apply preserves_bind; [apply keeps_preserves, keeps_lift | intros interval].
  apply preserves_bind.
  - destruct (_ <? _); [| apply keeps_preserves, keeps_ret].
    apply preserves_bind; [apply preserves_cleanup | intros _].
    apply preserves_bind; [apply keeps_preserves, keeps_now | intros t'].
    apply keeps_preserves. intros w. split; [reflexivity | apply ids_stable_refl].
  - intros _.
    apply preserves_bind; [apply keeps_preserves, keeps_get_memory_usage | intros u].
    apply preserves_bind; [apply keeps_preserves, keeps_the_metrics | intros m].
    apply keeps_preserves, keeps_ret.
Qed.

(** *** Every history *)

Lemma inv_new cfg : inv (new now_at cfg).
Proof.
  split.
  - repeat split; try constructor; intros k r H; inversion H.
  - intros k. cbn. lia.
Qed.

Lemma inv_perform o w :
  inv w -> generates_fresh_id now_at md5_hexdigest o w ->
  inv (perform now_at md5_hexdigest o w).
Proof.
  intros Hi Hf. destruct o; cbn [perform generates_fresh_id] in *.
  - now apply preserves_add_context.
  - now apply (keeps_preserves _ (keeps_retrieve_relevant _ _)).
  - now apply preserves_remove_from.
  - now apply preserves_compress_context.
  - now apply preserves_optimize_active.
  - now apply preserves_cleanup.
  - now apply preserves_optimize.
  - now apply (keeps_preserves _ keeps_get_metrics).
Qed.

Lemma reachable_inv cfg w : reachable now_at md5_hexdigest cfg w -> inv w.
Proof.
  induction 1 as [| w o Hr IH Hf]; [apply inv_new | now apply inv_perform].
Qed.

(** C4: in every world that a history of controller calls reaches from a
    new manager, each ingestion generating an id that no tier holds at that
    moment, every id appears in at most one of the three tier
    collections. *)
Theorem C4_one_tier_per_id (cfg : ContextConfig) (w : World) :
  reachable now_at md5_hexdigest cfg w ->
  forall k, (tier_count w k <= 1)%nat.
Proof. intros Hr. exact (proj2 (reachable_inv cfg w Hr)). Qed.

End Invariant.

(** ** The retrieval engine against its specification *)

(** Scenario A of the specification, run. *)
Lemma scenario_A_run :
  exists w2 x,
    retrieve_relevant demo_clock "beta" 5 alpha_world = (Ret [0%nat], w2)
    /\ heap w2 !! 0%nat = Some x
    /\ content x = "alpha beta gamma"%string
    /\ relevance_score x = 1.0%float.
Proof.
  eexists. eexists. split; [vm_compute; reflexivity |].
  split; [vm_compute; reflexivity |]. split; reflexivity.
Qed.

Section Retrieval.

Import KeywordSpec.

Variable query : string.

Lemma included_content_at (h : list ContextSegment) (r : ref) (x : ContextSegment) :
  h !! r = Some x -> included query (content_at h r) = included query (content x).
Proof. intros H. unfold content_at. now rewrite H. Qed.

Lemma filter_included_insert (h : list ContextSegment) (r : ref) (x y : ContextSegment)
    (l : list ref) :
  h !! r = Some x -> content y = content x ->
  List.filter (fun r' => included query (content_at (<[r := y]> h) r')) l
  = List.filter (fun r' => included query (content_at h r')) l.
Proof.
  intros Hx Hc. apply filter_ext. intros r'. unfold content_at.
  destruct (decide (r = r')) as [<- | Hne].
  - rewrite list_lookup_insert_eq by (eapply lookup_lt_Some; eassumption).
    now rewrite Hx, Hc.
  - now rewrite list_lookup_insert_ne.
Qed.

Lemma score_loop_spec (candidates : list ref) (w : World) :
  (forall r, r ∈ candidates -> is_Some (heap w !! r)) ->
  exists w',
    BasicRetrievalEngine.score_loop (BasicRetrievalEngine.words query) candidates w
    = (Ret (List.filter (fun r => included query (content_at (heap w) r)) candidates), w')
    /\ self w' = self w /\ ticks w' = ticks w
    /\ forall r, heap w' !! r = rescored query candidates r <$> heap w !! r.
Proof.
  revert w. induction candidates as [| r l IH]; intros w Hv.
  - exists w. do 3 (split; [reflexivity |]). intros r. unfold rescored.
    destruct (heap w !! r) as [x |]; [| reflexivity].
    cbn. rewrite bool_decide_eq_false_2 by (intros H; inversion H). reflexivity.
  - destruct (Hv r) as (x & Hx); [apply elem_of_cons; now left |].
    assert (Hv' : forall r', r' ∈ l -> is_Some (heap w !! r')).
    { intros r' H. apply Hv. apply elem_of_cons. now right. }
    cbn [BasicRetrievalEngine.score_loop List.filter].
    unfold bind at 1. rewrite (deref_some r x w Hx).
    rewrite (included_content_at _ _ _ Hx).
    change (0 <? Z.of_nat (size (BasicRetrievalEngine.words query
                                   ∩ BasicRetrievalEngine.words (content x))))
      with (included query (content x)).
    destruct (included query (content x)) eqn:Hinc.
    + unfold bind at 1. unfold update at 1. unfold bind at 1.
      rewrite (deref_some r x w Hx). unfold modify at 1.
      change (int_truediv _ _) with (score query (content x)).
      set (y := with_relevance_score (score query (content x)) x).
      set (w1 := with_heap (<[r := y]> (heap w)) w).
      destruct (IH w1) as (w' & E & Hs & Ht & Hh).
      { intros r' H. cbn [heap with_heap w1].
        apply list_lookup_insert_is_Some. now apply Hv'. }
      exists w'. unfold bind at 1. rewrite E. unfold ret.
      split.
      { cbn [heap with_heap w1].
        now rewrite (filter_included_insert (heap w) r x y l Hx eq_refl). }
      split; [exact Hs |]. split; [exact Ht |].
      intros r'. rewrite Hh. cbn [heap with_heap w1].
      destruct (decide (r = r')) as [<- | Hne].
      * rewrite list_lookup_insert_eq by (eapply lookup_lt_Some; eassumption).
        rewrite Hx. unfold rescored. cbn [fmap option_fmap option_map].
        rewrite (bool_decide_eq_true_2 (r ∈ r :: l)) by (apply elem_of_cons; now left).
        change (content y) with (content x). rewrite Hinc. cbn [andb].
        now destruct (bool_decide (r ∈ l)).
      * rewrite list_lookup_insert_ne by assumption.
        unfold rescored.
        destruct (heap w !! r') as [x' |] eqn:Hx'; rewrite ?Hx'; [| now cbn]. cbn.
        assert (Hb : bool_decide (r' ∈ r :: l) = bool_decide (r' ∈ l)).
        { apply bool_decide_ext. rewrite elem_of_cons. split; [| tauto].
          intros [-> | H]; [contradiction | exact H]. }
        now rewrite Hb.
    + destruct (IH w Hv') as (w' & E & Hs & Ht & Hh).
      exists w'. split; [exact E |]. split; [exact Hs |]. split; [exact Ht |].
      intros r'. rewrite Hh. unfold rescored.
      destruct (heap w !! r') as [x' |] eqn:Hx'; [| now cbn]. cbn.
      destruct (decide (r = r')) as [<- | Hne].
      * assert (x' = x) as -> by congruence. rewrite Hinc, !andb_false_r. reflexivity.
      * assert (Hb : bool_decide (r' ∈ r :: l) = bool_decide (r' ∈ l)).
        { apply bool_decide_ext. rewrite elem_of_cons. split; [| tauto].
          intros [-> | H]; [contradiction | exact H]. }
        now rewrite Hb.
Qed.

Lemma engine_sort_keys (l : list ref) (w : World) :
  (forall r, r ∈ l -> is_Some (heap w !! r)) ->
  map_m BasicRetrievalEngine.sort_key l w
  = (Ret (map (fun r => (match heap w !! r with
                         | Some x => relevance_score x
                         | None => 0%float
                         end, r)) l), w).
Proof.
  induction l as [| r l IH]; intros Hv; [reflexivity |].
  destruct (Hv r) as (x & Hx); [apply elem_of_cons; now left |].
  cbn [map_m map]. unfold bind at 1. unfold BasicRetrievalEngine.sort_key at 1.
  unfold bind at 1. rewrite (deref_some r x w Hx). cbn [ret].
  unfold bind at 1. rewrite IH by (intros r' H; apply Hv; apply elem_of_cons; now right).
  now rewrite Hx.
Qed.

(** C5: the engine returns the ranking of the specification, cut at
    [limit]: the candidates with a non-zero overlap, each scored
    [|query_words ∩ content_words| / |query_words|]; no candidate followed
    by one of strictly greater score, and, the query having fewer than
    [2^63] words, every score a number and the scores descending throughout;
    candidates of equal score in their original order.  The score is written onto every included candidate and
    nothing else changes: an excluded candidate keeps the score it had.
    Scenario A is the last part. *)
Theorem C5_keyword_retrieval (candidates : list ref) (limit : Z) (w : World) :
  (forall r, r ∈ candidates -> is_Some (heap w !! r)) ->
  let score_of := fun r => score query (content_at (heap w) r) in
  let included_refs :=
    List.filter (fun r => included query (content_at (heap w) r)) candidates in
  exists ranked w',
    BasicRetrievalEngine.retrieve query candidates limit w
    = (Ret (slice_to ranked limit), w')
    /\ (0 <= limit -> slice_to ranked limit = take (Z.to_nat limit) ranked)
    /\ ranked = ranking (heap w) query candidates
    /\ Permutation ranked included_refs
    /\ Sorted (fun a b => PrimFloat.ltb (score_of a) (score_of b) = false) ranked
    /\ (Z.of_nat (size (word_set query)) < 2 ^ 63 ->
        (forall r, In r ranked -> Binary64.is_nan (Prim2SF (score_of r)) = false)
        /\ StronglySorted
             (fun a b => PrimFloat.leb (score_of b) (score_of a) = true) ranked)
    /\ (forall v, List.filter (fun r => PrimFloat.eqb (score_of r) v) ranked
                  = List.filter (fun r => PrimFloat.eqb (score_of r) v) included_refs)
    /\ (forall r, heap w' !! r = rescored query candidates r <$> heap w !! r)
    /\ self w' = self w /\ ticks w' = ticks w
    /\ (exists w2 x,
          retrieve_relevant demo_clock "beta" 5 alpha_world = (Ret [0%nat], w2)
          /\ heap w2 !! 0%nat = Some x
          /\ content x = "alpha beta gamma"%string
          /\ relevance_score x = 1.0%float).
Proof.
  intros Hv score_of included_refs.
  destruct (score_loop_spec candidates w Hv) as (w' & E & Hs & Ht & Hh).
  fold included_refs in E.
  assert (Hinc : forall r, In r included_refs ->
            r ∈ candidates /\ included query (content_at (heap w) r) = true).
  { intros r Hr. apply filter_In in Hr as [Hr Hi]. split; [now apply list_elem_of_In | exact Hi]. }
  assert (Hv' : forall r, r ∈ included_refs -> is_Some (heap w' !! r)).
  { intros r Hr. apply list_elem_of_In in Hr. destruct (Hinc r Hr) as [Hc _].
    rewrite Hh. destruct (Hv r Hc) as (x & ->). now eexists. }
  exists (ranking (heap w) query candidates), w'.
  split.
  { unfold BasicRetrievalEngine.retrieve. unfold bind at 1.
    rewrite E. unfold bind at 1. rewrite (engine_sort_keys included_refs w' Hv').
    unfold ret. do 3 f_equal.
    apply (sort_by_ext PrimFloat.ltb
             (fun r => match heap w' !! r with
                       | Some x => relevance_score x
                       | None => 0%float
                       end) score_of included_refs).
    intros r Hr. destruct (Hinc r Hr) as [Hc Hi]. rewrite Hh.
    destruct (Hv r Hc) as (x & Hx). subst score_of. cbn beta.
    unfold content_at in *. rewrite Hx in *. cbn [fmap option_fmap option_map].
    unfold rescored. rewrite (bool_decide_eq_true_2 _ Hc), Hi. reflexivity. }
  split.
  { intros Hl. unfold slice_to. now rewrite (proj2 (Z.leb_le 0 limit) Hl). }
  split; [reflexivity |].
  split; [apply (sort_by_perm PrimFloat.ltb) |].
  split; [apply (sort_by_sorted PrimFloat.ltb ltb_asym) |].
  split.
  { intros Hb.
    assert (Hn : forall r, In r (ranking (heap w) query candidates) ->
              Binary64.is_nan (Prim2SF (score_of r)) = false).
    { intros r Hr.
      apply (Permutation_in _ (sort_by_perm PrimFloat.ltb _ _)) in Hr.
      destruct (Hinc r Hr) as [_ Hi]. apply Z.ltb_lt in Hi.
      apply int_truediv_not_nan; [exact Hi |].
      apply Z.lt_le_trans with (1 := Hi). apply Nat2Z.inj_le.
      apply subseteq_size, intersection_subseteq_l. }
    split; [exact Hn |].
    apply sorted_numbers; [now apply List.Forall_forall |].
    apply (sort_by_sorted PrimFloat.ltb ltb_asym). }
  split; [intros v; apply (sort_by_stable PrimFloat.ltb PrimFloat.eqb eqb_ltb) |].
  split; [exact Hh |]. split; [exact Hs |]. split; [exact Ht |].
  exact scenario_A_run.
Qed.

End Retrieval.

Lemma C5_keyword_retrieval_witness :
  exists ranked w',
    BasicRetrievalEngine.retrieve "beta" [0%nat] 5 alpha_world
    = (Ret (slice_to ranked 5), w')
    /\ ranked = [0%nat].
Proof.
  destruct (C5_keyword_retrieval "beta" [0%nat] 5 alpha_world)
    as (ranked & w' & E & _ & Hr & _).
  - intros r Hr. apply list_elem_of_singleton in Hr as ->. now eexists.
  - exists ranked, w'. split; [exact E |]. rewrite Hr. vm_compute. reflexivity.
Defined.

Lemma sample_world_reachable :
  reachable demo_clock demo_digest default_config sample_world.
Proof.
  unfold sample_world, sample_history. cbn [fold_left].
  repeat (apply reachable_step; [| vm_compute; auto]).
  apply reachable_new.
Qed.

Lemma C4_one_tier_per_id_witness :
  reachable demo_clock demo_digest default_config sample_world
  /\ (tier_count sample_world "first note@1000000" <= 1)%nat
  /\ dict_keys (active_of sample_world) = ["first note@1000000"%string]
  /\ dict_keys (working_of sample_world) = [].
Proof.
  split; [exact sample_world_reachable |].
  split; [| split; vm_compute; reflexivity].
  exact (C4_one_tier_per_id demo_clock demo_digest default_config sample_world
           sample_world_reachable "first note@1000000"%string).
Defined.

(** * Further properties of the code *)

(** ** The tier store: insertion, lookup, deletion *)

Section TierStore.

Implicit Types (d : dict) (k : string) (r : ref).

Lemma dict_get_set_eq d k r : dict_get (dict_set d k r) k = Some r.
Proof.
  induction d as [| [k0 v0] d IH]; cbn.
  - now rewrite String.eqb_refl.
  - destruct (String.eqb k0 k) eqn:E; cbn; rewrite E; [reflexivity | exact IH].
Qed.

Lemma dict_get_set_ne d k r k' : k' <> k -> dict_get (dict_set d k r) k' = dict_get d k'.
Proof.
  intros Hne. induction d as [| [k0 v0] d IH]; cbn.
  - apply not_eq_sym in Hne. apply String.eqb_neq in Hne. now rewrite Hne.
  - destruct (String.eqb_spec k0 k) as [-> | Hk]; cbn.
    + apply String.eqb_neq in Hne. rewrite String.eqb_sym in Hne. now rewrite Hne.
    + now rewrite IH.
Qed.

Lemma dict_set_length d k r :
  length (dict_set d k r) = (length d + if holds d k then 0 else 1)%nat.
Proof.
  unfold holds. induction d as [| [k0 v0] d IH]; cbn; [reflexivity |].
  destruct (String.eqb k0 k); cbn; [lia | rewrite IH; lia].
Qed.

Lemma dict_set_fresh d k r : holds d k = false -> dict_set d k r = d ++ [(k, r)].
Proof.
  unfold holds. induction d as [| [k0 v0] d IH]; cbn; [reflexivity |].
  destruct (String.eqb k0 k); [discriminate |]. intros H. now rewrite IH.
Qed.

Lemma dict_pop_set_fresh d k r : holds d k = false -> dict_pop (dict_set d k r) k = (Some r, d).
Proof.
  unfold holds. induction d as [| [k0 v0] d IH]; cbn.
  - now rewrite String.eqb_refl.
  - destruct (String.eqb k0 k) eqn:E; [discriminate |]. intros H. cbn. rewrite E.
    now rewrite IH.
Qed.

Lemma dict_get_pop_ne d k k' : k' <> k -> dict_get (dict_pop d k).2 k' = dict_get d k'.
Proof.
  intros Hne. induction d as [| [k0 v0] d IH]; cbn; [reflexivity |].
  destruct (String.eqb_spec k0 k) as [-> | Hk]; cbn.
  - apply not_eq_sym in Hne. apply String.eqb_neq in Hne. now rewrite Hne.
  - destruct (dict_pop d k) as [o d']. cbn in *. now rewrite IH.
Qed.

Lemma dict_pop_length d k :
  (length (dict_pop d k).2 + (if holds d k then 1 else 0) = length d)%nat.
Proof.
  unfold holds. induction d as [| [k0 v0] d IH]; cbn; [reflexivity |].
  destruct (String.eqb k0 k); cbn; [lia |].
  destruct (dict_pop d k) as [o d']. cbn in *. lia.
Qed.

End TierStore.

Section TierStoreOps.

Lemma recognized_cases (tier : string) :
  ~ unrecognized tier ->
  tier = MemoryTier.ACTIVE \/ tier = MemoryTier.WORKING \/ tier = MemoryTier.LONG_TERM.
Proof.
  intros H.
  destruct (String.eqb_spec tier MemoryTier.ACTIVE) as [-> | Ha]; [now left |].
  destruct (String.eqb_spec tier MemoryTier.WORKING) as [-> | Hw]; [right; now left |].
  destruct (String.eqb_spec tier MemoryTier.LONG_TERM) as [-> | Hl]; [right; now right |].
  exfalso. apply H. now repeat split.
Qed.

(** The three dictionaries, one of them replaced. *)
Lemma tier_of_other (tier t : string) (w w' : World) (d : dict) :
  ~ unrecognized tier ->
  (tier = MemoryTier.ACTIVE -> w' = set_active d w) ->
  (tier = MemoryTier.WORKING -> w' = set_working d w) ->
  (tier = MemoryTier.LONG_TERM -> w' = set_long_term d w) ->
  tier_of tier w' = d /\ (t <> tier -> tier_of t w' = tier_of t w).
Proof.
  intros Hr Ha Hw Hl.
  destruct (recognized_cases tier Hr) as [-> | [-> | ->]].
  - rewrite (Ha eq_refl). split; [reflexivity |]. intros Hne. unfold tier_of.
    apply String.eqb_neq in Hne. now rewrite Hne.
  - rewrite (Hw eq_refl). split; [reflexivity |]. intros Hne. unfold tier_of.
    apply String.eqb_neq in Hne. rewrite Hne. now destruct (String.eqb t MemoryTier.ACTIVE).
  - rewrite (Hl eq_refl). split; [reflexivity |]. intros Hne. unfold tier_of.
    apply String.eqb_neq in Hne. rewrite Hne.
    now destruct (String.eqb t MemoryTier.ACTIVE), (String.eqb t MemoryTier.WORKING).
Qed.

Lemma store_tier (tier : string) (r : ref) (x : ContextSegment) (w : World) :
  heap w !! r = Some x ->
  ~ unrecognized tier ->
  exists w',
    MemoryManager.store tier r w = (Ret (id x), w')
    /\ heap w' = heap w /\ ticks w' = ticks w
    /\ config (self w') = config (self w) /\ metrics (self w') = metrics (self w)
    /\ _last_cleanup (self w') = _last_cleanup (self w)
    /\ tier_of tier w' = dict_set (tier_of tier w) (id x) r
    /\ forall t, t <> tier -> tier_of t w' = tier_of t w.
Proof.
  intros Hx Hr. rewrite (store_recognized tier r x w Hx Hr).
  eexists. split; [reflexivity |]. do 5 (split; [reflexivity |]).
  assert (H : forall t,
             tier_of tier
               (with_self (with_memory_manager
                             (stored tier (id x) r (memory_manager (self w))) (self w)) w)
             = dict_set (tier_of tier w) (id x) r
             /\ (t <> tier ->
                 tier_of t
                   (with_self (with_memory_manager
                                 (stored tier (id x) r (memory_manager (self w))) (self w)) w)
                 = tier_of t w)).
  { intros t. apply tier_of_other; [exact Hr | | |]; intros ->; reflexivity. }
  split; [exact (proj1 (H tier)) | intros t; exact (proj2 (H t))].
Qed.

Lemma delete_tier (tier k : string) (w : World) :
  ~ unrecognized tier ->
  exists w',
    MemoryManager.delete tier k w = (Ret (holds (tier_of tier w) k), w')
    /\ heap w' = heap w /\ ticks w' = ticks w
    /\ config (self w') = config (self w) /\ metrics (self w') = metrics (self w)
    /\ _last_cleanup (self w') = _last_cleanup (self w)
    /\ tier_of tier w' = (dict_pop (tier_of tier w) k).2
    /\ forall t, t <> tier -> tier_of t w' = tier_of t w.
Proof.
  intros Hr.
  assert (H : exists w',
             MemoryManager.delete tier k w = (Ret (holds (tier_of tier w) k), w')
             /\ heap w' = heap w /\ ticks w' = ticks w
             /\ config (self w') = config (self w) /\ metrics (self w') = metrics (self w)
             /\ _last_cleanup (self w') = _last_cleanup (self w)
             /\ (tier = MemoryTier.ACTIVE -> w' = set_active (dict_pop (tier_of tier w) k).2 w)
             /\ (tier = MemoryTier.WORKING -> w' = set_working (dict_pop (tier_of tier w) k).2 w)
             /\ (tier = MemoryTier.LONG_TERM
                 -> w' = set_long_term (dict_pop (tier_of tier w) k).2 w)).
  { destruct (recognized_cases tier Hr) as [-> | [-> | ->]].
    - rewrite delete_active. eexists. split; [reflexivity |].
      do 5 (split; [reflexivity |]). repeat split; intros; (reflexivity || discriminate).
    - rewrite delete_working. eexists. split; [reflexivity |].
      do 5 (split; [reflexivity |]). repeat split; intros; (reflexivity || discriminate).
    - rewrite delete_long_term. eexists. split; [reflexivity |].
      do 5 (split; [reflexivity |]). repeat split; intros; (reflexivity || discriminate). }
  destruct H as (w' & E & Hh & Ht & Hc & Hm & Hl & Ea & Ew & El).
  exists w'. split; [exact E |]. do 5 (split; [assumption |]).
  split; [exact (proj1 (tier_of_other tier tier w w' _ Hr Ea Ew El)) |].
  intros t. exact (proj2 (tier_of_other tier t w w' _ Hr Ea Ew El)).
Qed.

Lemma retrieve_tier (tier k : string) (w : World) :
  ~ unrecognized tier ->
  MemoryManager.retrieve tier k w = MemoryManager.touch (dict_get (tier_of tier w) k) w.
Proof.
  intros Hr. destruct (recognized_cases tier Hr) as [-> | [-> | ->]]; reflexivity.
Qed.

End TierStoreOps.

Section TierStoreTheorems.

Lemma dict_set_keys_held (d : dict) (k : string) (r : ref) :
  holds d k = true -> dict_keys (dict_set d k r) = dict_keys d.
Proof.
  unfold holds. induction d as [| [k0 v0] d IH]; cbn; [discriminate |].
  destruct (String.eqb k0 k); cbn; [reflexivity |]. intros H. f_equal. now apply IH.
Qed.

(** X1: [store] files the segment under its own id in the named tier and
    touches nothing else: afterwards that tier maps the id to the segment,
    every other id of the tier and both other tiers are as before, and so
    is the heap.  An id that the tier already held keeps its place in the
    tier's order (the entry is overwritten); a new id goes to the end. *)
Theorem store_then_lookup (tier : string) (r : ref) (x : ContextSegment) (w : World) :
  heap w !! r = Some x ->
  ~ unrecognized tier ->
  exists w',
    MemoryManager.store tier r w = (Ret (id x), w')
    /\ heap w' = heap w
    /\ dict_get (tier_of tier w') (id x) = Some r
    /\ (forall k, k <> id x -> dict_get (tier_of tier w') k = dict_get (tier_of tier w) k)
    /\ (forall t, t <> tier -> tier_of t w' = tier_of t w)
    /\ dict_keys (tier_of tier w')
       = (if holds (tier_of tier w) (id x) then dict_keys (tier_of tier w)
          else dict_keys (tier_of tier w) ++ [id x]).
Proof.
  intros Hx Hr.
  destruct (store_tier tier r x w Hx Hr) as (w' & E & Hh & _ & _ & _ & _ & Hd & Ho).
  exists w'. split; [exact E |]. split; [exact Hh |]. rewrite Hd.
  split; [apply dict_get_set_eq |].
  split; [intros k Hk; now apply dict_get_set_ne |].
  split; [exact Ho |].
  destruct (holds (tier_of tier w) (id x)) eqn:Hh'.
  - now apply dict_set_keys_held.
  - rewrite (dict_set_fresh _ _ _ Hh'). unfold dict_keys. now rewrite map_app.
Qed.

(** X2: a segment stored in a tier is what [retrieve] returns for its id
    from that tier, and that read counts: the segment's [access_count] is
    one more afterwards, nothing else is changed. *)
Theorem store_then_retrieve (tier : string) (r : ref) (x : ContextSegment) (w : World) :
  heap w !! r = Some x ->
  ~ unrecognized tier ->
  exists w1,
    MemoryManager.store tier r w = (Ret (id x), w1)
    /\ MemoryManager.retrieve tier (id x) w1
       = (Ret (Some r), with_heap (<[r := touched x]> (heap w1)) w1)
    /\ access_count (touched x) = access_count x + 1.
Proof.
  intros Hx Hr.
  destruct (store_tier tier r x w Hx Hr) as (w1 & E & Hh & _ & _ & _ & _ & Hd & _).
  exists w1. split; [exact E |]. split; [| reflexivity].
  rewrite (retrieve_tier tier (id x) w1 Hr), Hd, dict_get_set_eq.
  apply touch_some. now rewrite Hh.
Qed.

(** X3: storing a segment under an id that the tier does not hold and
    deleting that id from the tier again gives back the world as it was;
    the delete reports [True]. *)
Theorem store_then_delete (tier : string) (r : ref) (x : ContextSegment) (w : World) :
  heap w !! r = Some x ->
  ~ unrecognized tier ->
  holds (tier_of tier w) (id x) = false ->
  exists w1,
    MemoryManager.store tier r w = (Ret (id x), w1)
    /\ MemoryManager.delete tier (id x) w1 = (Ret true, w).
Proof.
  intros Hx Hr Hn. rewrite (store_recognized tier r x w Hx Hr).
  eexists. split; [reflexivity |].
  destruct (recognized_cases tier Hr) as [-> | [-> | ->]].
  - rewrite delete_active. unfold tier_of in Hn. cbn in Hn.
    destruct w as [h n [c [a b l] m t]]. cbn in *.
    rewrite dict_set_holds, String.eqb_refl, (dict_pop_set_fresh a (id x) r Hn). reflexivity.
  - rewrite delete_working. unfold tier_of in Hn. cbn in Hn.
    destruct w as [h n [c [a b l] m t]]. cbn in *.
    rewrite dict_set_holds, String.eqb_refl, (dict_pop_set_fresh b (id x) r Hn). reflexivity.
  - rewrite delete_long_term. unfold tier_of in Hn. cbn in Hn.
    destruct w as [h n [c [a b l] m t]]. cbn in *.
    rewrite dict_set_holds, String.eqb_refl, (dict_pop_set_fresh l (id x) r Hn). reflexivity.
Qed.

(** X4: [delete] reports whether the tier held the id.  Afterwards the tier
    does not hold it, every other id of the tier and both other tiers are
    as before, no segment object is touched, and a second [delete] of the
    same id reports [False] and changes nothing. *)
Theorem delete_then_absent (tier k : string) (w : World) :
  ~ unrecognized tier ->
  NoDup (dict_keys (tier_of tier w)) ->
  exists w',
    MemoryManager.delete tier k w = (Ret (holds (tier_of tier w) k), w')
    /\ holds (tier_of tier w') k = false
    /\ (forall k', k' <> k -> dict_get (tier_of tier w') k' = dict_get (tier_of tier w) k')
    /\ (forall t, t <> tier -> tier_of t w' = tier_of t w)
    /\ heap w' = heap w
    /\ MemoryManager.delete tier k w' = (Ret false, w').
Proof.
  intros Hr Hnd.
  destruct (delete_tier tier k w Hr) as (w' & E & Hh & _ & _ & _ & _ & Hd & Ho).
  assert (Hgone : holds (tier_of tier w') k = false).
  { rewrite Hd. apply holds_false. now apply dict_pop_gone. }
  exists w'. split; [exact E |]. split; [exact Hgone |].
  split; [intros k' Hk'; rewrite Hd; now apply dict_get_pop_ne |].
  split; [exact Ho |]. split; [exact Hh |].
  destruct (recognized_cases tier Hr) as [-> | [-> | ->]].
  - rewrite delete_active. change (active_of w') with (tier_of MemoryTier.ACTIVE w').
    rewrite Hgone, (dict_pop_miss _ _ Hgone). now rewrite set_active_same.
  - rewrite delete_working. change (working_of w') with (tier_of MemoryTier.WORKING w').
    rewrite Hgone, (dict_pop_miss _ _ Hgone). now rewrite set_working_same.
  - rewrite delete_long_term. change (long_term_of w') with (tier_of MemoryTier.LONG_TERM w').
    rewrite Hgone, (dict_pop_miss _ _ Hgone). now rewrite set_long_term_same.
Qed.

(** X5: [store] does not look at the other tiers: a segment stored in one
    tier and then in another is held by both, so the single-owner property
    of the tiers is the callers' doing, not the store's. *)
Theorem store_twice_two_tiers (tier1 tier2 : string) (r : ref) (x : ContextSegment)
    (w : World) :
  heap w !! r = Some x ->
  ~ unrecognized tier1 -> ~ unrecognized tier2 -> tier1 <> tier2 ->
  exists w1 w2,
    MemoryManager.store tier1 r w = (Ret (id x), w1)
    /\ MemoryManager.store tier2 r w1 = (Ret (id x), w2)
    /\ dict_get (tier_of tier1 w2) (id x) = Some r
    /\ dict_get (tier_of tier2 w2) (id x) = Some r
    /\ (2 <= tier_count w2 (id x))%nat.
Proof.
  intros Hx H1 H2 Hne.
  destruct (store_tier tier1 r x w Hx H1) as (w1 & E1 & Hh1 & _ & _ & _ & _ & Hd1 & _).
  assert (Hx1 : heap w1 !! r = Some x) by now rewrite Hh1.
  destruct (store_tier tier2 r x w1 Hx1 H2) as (w2 & E2 & _ & _ & _ & _ & _ & Hd2 & Ho2).
  assert (G1 : dict_get (tier_of tier1 w2) (id x) = Some r).
  { rewrite (Ho2 tier1 Hne), Hd1. apply dict_get_set_eq. }
  assert (G2 : dict_get (tier_of tier2 w2) (id x) = Some r).
  { rewrite Hd2. apply dict_get_set_eq. }
  exists w1, w2. do 4 (split; [assumption |]).
  assert (Hc : forall t, dict_get (tier_of t w2) (id x) = Some r ->
                         holds (tier_of t w2) (id x) = true).
  { intros t Ht. unfold holds. now rewrite Ht. }
  apply Hc in G1, G2. unfold tier_count.
  destruct (recognized_cases tier1 H1) as [-> | [-> | ->]],
           (recognized_cases tier2 H2) as [-> | [-> | ->]];
    try contradiction; unfold tier_of in G1, G2; cbn in G1, G2;
    rewrite G1, G2; cbn; lia.
Qed.

End TierStoreTheorems.

Lemma fox_world_heap : heap fox_world !! 0%nat = Some (new_segment fox_id fox None (demo_clock 2)).
Proof. reflexivity. Qed.

Lemma working_recognized : ~ unrecognized MemoryTier.WORKING.
Proof. intros (_ & H & _). now apply H. Qed.

Lemma active_recognized : ~ unrecognized MemoryTier.ACTIVE.
Proof. intros (H & _). now apply H. Qed.

Lemma long_term_recognized : ~ unrecognized MemoryTier.LONG_TERM.
Proof. intros (_ & _ & H). now apply H. Qed.

Lemma store_then_lookup_witness :
  exists w',
    MemoryManager.store MemoryTier.WORKING 0%nat fox_world = (Ret fox_id, w')
    /\ dict_keys (working_of w') = [fox_id].
Proof.
  destruct (store_then_lookup MemoryTier.WORKING 0%nat _ fox_world fox_world_heap
              working_recognized) as (w' & E & _ & _ & _ & _ & Hk).
  exists w'. split; [exact E | exact Hk].
Defined.

Lemma store_then_retrieve_witness :
  exists w1,
    MemoryManager.store MemoryTier.LONG_TERM 0%nat fox_world = (Ret fox_id, w1)
    /\ fst (MemoryManager.retrieve MemoryTier.LONG_TERM fox_id w1) = Ret (Some 0%nat).
Proof.
  destruct (store_then_retrieve MemoryTier.LONG_TERM 0%nat _ fox_world fox_world_heap
              long_term_recognized) as (w1 & E & R & _).
  exists w1. split; [exact E |]. change fox_id with (id (new_segment fox_id fox None (demo_clock 2))).
  now rewrite R.
Defined.

Lemma store_then_delete_witness :
  exists w1,
    MemoryManager.store MemoryTier.WORKING 0%nat fox_world = (Ret fox_id, w1)
    /\ MemoryManager.delete MemoryTier.WORKING fox_id w1 = (Ret true, fox_world).
Proof.
  exact (store_then_delete MemoryTier.WORKING 0%nat _ fox_world fox_world_heap
           working_recognized eq_refl).
Defined.

Lemma delete_then_absent_witness :
  exists w',
    MemoryManager.delete MemoryTier.ACTIVE fox_id fox_world = (Ret true, w')
    /\ holds (active_of w') fox_id = false.
Proof.
  destruct (delete_then_absent MemoryTier.ACTIVE fox_id fox_world active_recognized)
    as (w' & E & Hg & _).
  - cbn. apply NoDup_cons. split; [intros H; inversion H | constructor].
  - exists w'. split; [exact E | exact Hg].
Defined.

Lemma store_twice_two_tiers_witness :
  exists w1 w2,
    MemoryManager.store MemoryTier.ACTIVE 0%nat fox_world = (Ret fox_id, w1)
    /\ MemoryManager.store MemoryTier.WORKING 0%nat w1 = (Ret fox_id, w2)
    /\ (2 <= tier_count w2 fox_id)%nat.
Proof.
  destruct (store_twice_two_tiers MemoryTier.ACTIVE MemoryTier.WORKING 0%nat _ fox_world
              fox_world_heap active_recognized working_recognized)
    as (w1 & w2 & E1 & E2 & _ & _ & Hc).
  - discriminate.
  - exists w1, w2. split; [exact E1 |]. split; [exact E2 | exact Hc].
Defined.

(** ** The compression engine at the edges *)

Section Compression.

Import BasicCompressionEngine.

Lemma int_of_float_raises (x : float) (e : exn) :
  int_of_float x = Raise e -> e = ValueError nan_message \/ e = OverflowError.
Proof.
  unfold int_of_float. destruct (Prim2SF x); intros [=]; subst; auto.
Qed.

Lemma string_of_list_app (l1 l2 : list ascii) :
  string_of_list_ascii (l1 ++ l2)
  = (string_of_list_ascii l1 ++ string_of_list_ascii l2)%string.
Proof. induction l1 as [| a l1 IH]; cbn; [reflexivity | now rewrite IH]. Qed.

Lemma slice_to_prefix (s : string) (k : Z) :
  exists rest, s = (PyStr.slice_to s k ++ rest)%string.
Proof.
  unfold PyStr.slice_to, PySeq.slice_to.
  destruct (0 <=? k).
  - exists (string_of_list_ascii (skipn (Z.to_nat k) (list_ascii_of_string s))).
    rewrite <- string_of_list_app, firstn_skipn. now rewrite string_of_list_ascii_of_string.
  - set (n := Z.to_nat _).
    exists (string_of_list_ascii (skipn n (list_ascii_of_string s))).
    rewrite <- string_of_list_app, firstn_skipn. now rewrite string_of_list_ascii_of_string.
Qed.

Lemma slice_from_suffix (s : string) (k : Z) :
  exists front, s = (front ++ PyStr.slice_from s k)%string.
Proof.
  unfold PyStr.slice_from, PySeq.slice_from.
  destruct (0 <=? k).
  - exists (string_of_list_ascii (firstn (Z.to_nat k) (list_ascii_of_string s))).
    rewrite <- string_of_list_app, firstn_skipn. now rewrite string_of_list_ascii_of_string.
  - set (n := Z.to_nat _).
    exists (string_of_list_ascii (firstn n (list_ascii_of_string s))).
    rewrite <- string_of_list_app, firstn_skipn. now rewrite string_of_list_ascii_of_string.
Qed.

Lemma float_of_int_raises (z : Z) (e : exn) :
  float_of_int z = Raise e -> e = OverflowError.
Proof.
  unfold float_of_int. destruct (binary_normalize _ _ _ _ _); intros [=]; now subst.
Qed.

(** The errors [compress] can raise are those of the two conversions. *)
Lemma compress_keeps_ends_raise (c : string) (r : float) (e : exn) :
  compress c r = Raise e -> e = ValueError nan_message \/ e = OverflowError.
Proof.
  unfold compress.
  destruct (float_of_int (PyStr.len c)) as [n | e'] eqn:Hn; cbn [obind];
    [| intros [= <-]; right; now apply (float_of_int_raises _ _ Hn)].
  destruct (int_of_float (PrimFloat.mul n r))
    as [target_length | e'] eqn:Ht; cbn [obind];
    [| intros [= <-]; now apply (int_of_float_raises _ _ Ht)].
  destruct (PyStr.len c <=? target_length); [discriminate |].
  destruct (float_of_int target_length) as [t | e'] eqn:Hc; cbn [obind];
    [| intros [= <-]; right; now apply (float_of_int_raises _ _ Hc)].
  destruct (int_of_float (PrimFloat.mul t 0.7%float))
    as [keep_start | e'] eqn:Hk; cbn [obind];
    [| intros [= <-]; now apply (int_of_float_raises _ _ Hk)].
  destruct (0 <? target_length - keep_start); discriminate.
Qed.

(** X6: whatever the content and the ratio, [compress] either raises one of
    the two errors of [int()] on a float that is no number, or returns the
    content as it is, or returns a beginning of the content, the marker,
    and (with the longer marker) an end of the content: what it keeps, it
    keeps in place and unaltered. *)
Theorem compress_keeps_ends (c : string) (r : float) :
  match compress c r with
  | Ret c' =>
      c' = c
      \/ exists p q,
           (exists rest, c = (p ++ rest)%string)
           /\ (exists front, c = (front ++ q)%string)
           /\ (c' = (p ++ marker_mid ++ q)%string \/ c' = (p ++ marker_end)%string)
  | Raise e => e = ValueError nan_message \/ e = OverflowError
  end.
Proof.
  unfold compress.
  destruct (float_of_int (PyStr.len c)) as [n | e] eqn:Hn; cbn [obind];
    [| right; now apply (float_of_int_raises _ _ Hn)].
  destruct (int_of_float (PrimFloat.mul n r))
    as [target_length | e] eqn:Ht; cbn [obind]; [| now apply (int_of_float_raises _ _ Ht)].
  destruct (PyStr.len c <=? target_length); [now left |].
  destruct (float_of_int target_length) as [t | e] eqn:Hc; cbn [obind];
    [| right; now apply (float_of_int_raises _ _ Hc)].
  destruct (int_of_float (PrimFloat.mul t 0.7%float))
    as [keep_start | e] eqn:Hk; cbn [obind]; [| now apply (int_of_float_raises _ _ Hk)].
  destruct (0 <? target_length - keep_start); right;
    exists (PyStr.slice_to c keep_start).
  - exists (PyStr.slice_from c (- (target_length - keep_start))).
    split; [apply slice_to_prefix |]. split; [apply slice_from_suffix | now left].
  - exists ""%string. split; [apply slice_to_prefix |].
    split; [| now right]. exists c. clear. induction c as [| a c IH]; [reflexivity |].
    change (String a c = String a (c ++ ""))%string. now f_equal.
Qed.

Lemma mul_classes (a r : float) :
  Prim2SF (PrimFloat.mul a r) = SF64mul (Prim2SF a) (Prim2SF r).
Proof. apply FloatAxioms.mul_spec. Qed.

(** X7: [compress] at the ratios that are no proper ratios, for a content
    of fewer than [2^63] characters.  A NaN ratio raises [ValueError]; an
    infinite one raises [OverflowError], on the empty content [ValueError];
    at ratio zero every non-empty content becomes the bare fourteen
    characters of the marker; and the empty content comes back empty at
    every finite ratio. *)
Theorem compress_edge_ratios (c : string) (r : float) :
  PyStr.len c < 2 ^ 63 ->
  match Prim2SF r with
  | S754_nan => compress c r = Raise (ValueError nan_message)
  | S754_infinity _ =>
      compress c r
      = if PyStr.len c =? 0 then Raise (ValueError nan_message) else Raise OverflowError
  | S754_zero _ =>
      compress c r = Ret (if PyStr.len c =? 0 then c else marker_end)
  | S754_finite _ _ _ => PyStr.len c = 0 -> compress c r = Ret c
  end.
Proof.
  intros Hlen.
  assert (Hc : exists n,
            float_of_int (PyStr.len c) = Ret n
            /\ ((Prim2SF n = S754_zero false
                 /\ (PyStr.len c =? 0) = true /\ (PyStr.len c <=? 0) = true)
                \/ ((exists m e, Prim2SF n = S754_finite false m e)
                    /\ (PyStr.len c =? 0) = false /\ (PyStr.len c <=? 0) = false))).
  { assert (Hn : 0 <= PyStr.len c) by (unfold PyStr.len; lia).
    destruct (Z.eqb_spec (PyStr.len c) 0) as [H0 | H0].
    - exists 0%float. rewrite H0. split; [reflexivity |]. left. now repeat split.
    - destruct (float_of_int_finite (PyStr.len c) ltac:(lia)) as (n & m & e & E & Hf).
      exists n. split; [exact E |]. right. split; [now exists m, e |].
      split; [reflexivity |]. apply Z.leb_gt. lia. }
  destruct Hc as (n & En & Hc).
  pose proof (mul_classes n r) as Hmul.
  pose proof (proj1 float_of_int_literals) as E00.
  destruct (Prim2SF r) as [s | s | | s m e] eqn:Hr;
    [| | | intros H0; apply Z.eqb_eq in H0];
    unfold compress; rewrite En; cbn [obind]; unfold int_of_float at 1; rewrite Hmul;
    destruct Hc as [(-> & E0 & L0) | [(m' & e' & ->) (E0 & L0)]];
    rewrite ?E0; try congruence; cbn [SF64mul SFmul obind]; rewrite ?L0, ?E00;
    reflexivity.
Qed.

End Compression.

Lemma compress_edge_ratios_witness :
  BasicCompressionEngine.compress fox nan = Raise (ValueError nan_message)
  /\ BasicCompressionEngine.compress fox infinity = Raise OverflowError
  /\ BasicCompressionEngine.compress fox 0%float = Ret "...[truncated]"
  /\ BasicCompressionEngine.compress fox (-0)%float = Ret "...[truncated]".
Proof.
  assert (H : PyStr.len fox < 2 ^ 63) by (vm_compute; reflexivity).
  split; [exact (compress_edge_ratios fox nan H) |].
  split; [exact (compress_edge_ratios fox infinity H) |].
  split; [exact (compress_edge_ratios fox 0%float H) |].
  exact (compress_edge_ratios fox (-0)%float H).
Defined.

(** ** Products of binary64 numbers *)

Section Binary64Products.

Import Binary64.

Local Abbreviation shr_fexp := (SpecFloat.shr_fexp prec emax).
Local Abbreviation round_aux := (binary_round_aux prec emax).
Local Abbreviation fexp := (SpecFloat.fexp prec emax).
Local Abbreviation emin := (SpecFloat.emin prec emax).

Lemma digits2_above (m : positive) : Z.pos m < 2 ^ Z.pos (digits2_pos m).
Proof.
  induction m as [m IH | m IH |]; cbn [digits2_pos]; [| | reflexivity];
    rewrite Pos2Z.inj_succ, Z.pow_succ_r by lia; lia.
Qed.

(** Rounding a positive number at an exponent not below the least one: the
    result is finite, and its exponent is not below the given one. *)
Lemma round_aux_finite_exp sx (m : positive) (e k : Z) :
  0 <= k -> Z.pos m < 2 ^ k -> emin <= e -> e + 2 * k <= 900 ->
  exists m' e', round_aux sx (Z.pos m) e loc_Exact = S754_finite sx m' e'
                /\ e <= e' <= e + 2 * k + 1.
Proof.
  intros Hk Hm He Hb. unfold binary_round_aux.
  destruct (shr_fexp_pos m e loc_Exact He) as [H1 H1e].
  pose proof (shr_fexp_le (Z.pos m) e loc_Exact ltac:(lia)) as H1le.
  pose proof (shr_fexp_exp (Z.pos m) e loc_Exact) as H1x.
  destruct (shr_fexp (Z.pos m) e loc_Exact) as [r1 e1]. cbn [fst snd] in *.
  pose proof (round_nearest_even_ge (shr_m r1) (loc_of_shr_record r1)) as H2.
  pose proof (round_nearest_even_le (shr_m r1) (loc_of_shr_record r1)) as H2le.
  destruct (round_nearest_even (shr_m r1) (loc_of_shr_record r1)) as [| m2 | m2] eqn:Hm2;
    try lia.
  destruct (shr_fexp_pos m2 e1 loc_Exact H1e) as [H3 _].
  pose proof (shr_fexp_exp (Z.pos m2) e1 loc_Exact) as H3x.
  destruct (shr_fexp (Z.pos m2) e1 loc_Exact) as [r2 e2]. cbn [fst snd] in *.
  pose proof (digits2_upper m k Hk Hm) as Hd1.
  assert (Hm2k : Z.pos m2 < 2 ^ (k + 1)).
  { rewrite Z.pow_add_r by lia. change (2 ^ 1) with 2. lia. }
  pose proof (digits2_upper m2 (k + 1) ltac:(lia) Hm2k) as Hd2.
  cbn [Zdigits2] in *. unfold SpecFloat.fexp in *.
  change prec with 53 in *. change emax with 1024 in *.
  assert (He2 : e <= e2 <= e + 2 * k + 1) by lia.
  destruct (shr_m r2) as [| m3 | m3]; try lia.
  rewrite (proj2 (Z.leb_le e2 (1024 - 53))) by lia.
  now exists m3, e2.
Qed.

Lemma float_of_int_finite_exp (z : Z) :
  0 < z < 2 ^ 63 ->
  exists x m e, float_of_int z = Ret x
                /\ Prim2SF x = S754_finite false m e
                /\ -52 <= e <= 231 /\ Z.pos m < 2 ^ 53.
Proof.
  intros Hz. rewrite float_of_int_small by lia.
  exists (PrimFloat.of_uint63 (Uint63.of_Z z)).
  assert (H : exists m e, Prim2SF (PrimFloat.of_uint63 (Uint63.of_Z z)) = S754_finite false m e
                          /\ -52 <= e <= 231 /\ Z.pos m < 2 ^ 53);
    [| destruct H as (m & e & H); exists m, e; split; [reflexivity | exact H]].
  pose proof (FloatAxioms.Prim2SF_valid (PrimFloat.of_uint63 (Uint63.of_Z z))) as Hv.
  rewrite FloatAxioms.of_uint63_spec, Uint63.of_Z_spec in *.
  rewrite Z.mod_small in * by (change wB with (2 ^ 63); lia).
  destruct z as [| p | p]; try lia. cbn [binary_normalize] in *.
  unfold binary_round in *.
  destruct (shl_align_value p 0 (fexp (Z.pos (digits2_pos p) + 0))) as [Hval He].
  pose proof (shl_align_exp p 0 (fexp (Z.pos (digits2_pos p) + 0))
                ltac:(vm_compute; discriminate) (fexp_ge_emin _)) as Hemin.
  destruct (shl_align p 0 _) as [mz ez]. cbn [fst snd] in *.
  assert (Hez : -52 <= ez <= 0).
  { unfold SpecFloat.fexp in He. change prec with 53 in He.
    pose proof (Pos2Z.is_pos (digits2_pos p)). lia. }
  destruct (round_aux_finite_exp false mz ez 115) as (m & e & E & Hee); try lia.
  { rewrite Hval. replace 115 with (63 + 52) by reflexivity. rewrite Z.pow_add_r by lia.
    assert (2 ^ (0 - ez) <= 2 ^ 52) by (apply Z.pow_le_mono_r; lia).
    assert (0 < 2 ^ (0 - ez)) by (apply Z.pow_pos_nonneg; lia).
    nia. }
  rewrite E in *. exists m, e. split; [reflexivity |]. split; [lia |].
  cbn [valid_binary] in Hv. unfold bounded, canonical_mantissa in Hv.
  apply andb_prop in Hv as [Hc _]. apply Z.eqb_eq in Hc.
  unfold SpecFloat.fexp in Hc. change prec with 53 in Hc.
  pose proof (digits2_above m) as Hd.
  assert (Hd53 : Z.pos (digits2_pos m) <= 53) by lia.
  eapply Z.lt_le_trans; [exact Hd |]. apply Z.pow_le_mono_r; lia.
Qed.

(** The product of an integer below [2^63] and a positive number of at
    most 53 bits at an exponent between [-1000] and [0] is a positive
    number. *)
Lemma mul_int_finite (z : Z) (y : float) (my : positive) (ey : Z) :
  0 < z < 2 ^ 63 ->
  Prim2SF y = S754_finite false my ey -> Z.pos my < 2 ^ 53 -> -1000 <= ey <= 0 ->
  exists x m e, float_of_int z = Ret x
                /\ Prim2SF (PrimFloat.mul x y) = S754_finite false m e.
Proof.
  intros Hz Hy Hmy Hey.
  destruct (float_of_int_finite_exp z Hz) as (x & mx & ex & Ex & Hx & Hex & Hmx).
  exists x. rewrite FloatAxioms.mul_spec, Hy, Hx.
  cbn [SF64mul SFmul xorb].
  destruct (round_aux_finite_exp false (mx * my) (ex + ey) 106) as (m & e & E & _);
    try lia.
  - rewrite Pos2Z.inj_mul. replace 106 with (53 + 53) by reflexivity.
    rewrite Z.pow_add_r by lia. nia.
  - change emin with (-1074). lia.
  - now exists m, e.
Qed.

Lemma int_of_float_nonneg (x : float) (m : positive) (e : Z) :
  Prim2SF x = S754_finite false m e ->
  exists a, int_of_float x = Ret a /\ 0 <= a.
Proof.
  intros Hx. unfold int_of_float. rewrite Hx. eexists. split; [reflexivity |].
  destruct (0 <=? e); [apply Z.shiftl_nonneg | apply Z.shiftr_nonneg]; lia.
Qed.

(** [int(n * 0.6)] is defined and not negative. *)
Lemma keep_count_nonneg (n : Z) :
  0 <= n < 2 ^ 63 -> exists kc, keep_count n = Ret kc /\ 0 <= kc.
Proof.
  intros Hn. unfold keep_count.
  destruct (Z.eq_dec n 0) as [-> | Hne];
    [exists 0; split; [vm_compute; reflexivity | lia] |].
  destruct (mul_int_finite n 0.6%float 5404319552844595 (-53)) as (x & m & e & -> & E);
    [lia | reflexivity | reflexivity | lia |].
  cbn [obind]. exact (int_of_float_nonneg _ m e E).
Qed.

End Binary64Products.

Section Binary64Ratios.

Import Binary64.

Local Abbreviation shr_fexp := (SpecFloat.shr_fexp prec emax).
Local Abbreviation round_aux := (binary_round_aux prec emax).
Local Abbreviation fexp := (SpecFloat.fexp prec emax).

Lemma Zdigits2_upper (m k : Z) : 0 <= k -> 0 <= m < 2 ^ k -> Zdigits2 m <= k.
Proof.
  intros Hk Hm. destruct m as [| p | p]; cbn [Zdigits2]; [lia | | lia].
  apply digits2_upper; lia.
Qed.

(** Rounding a number of bounded size gives zero or a finite number of the
    given sign, never an infinity. *)
Lemma round_aux_bounded sx (m e k : Z) (l : location) :
  0 <= k <= 1000 -> 0 <= m < 2 ^ k -> e + 2 * k <= 900 ->
  match round_aux sx m e l with
  | S754_zero s | S754_finite s _ _ => s = sx
  | _ => False
  end.
Proof.
  intros Hk Hm Hb. unfold binary_round_aux.
  pose proof (shr_fexp_nonneg m e l ltac:(lia)) as H1.
  pose proof (shr_fexp_le m e l ltac:(lia)) as H1le.
  pose proof (shr_fexp_exp m e l) as H1x.
  destruct (shr_fexp m e l) as [r1 e1]. cbn [fst snd] in *.
  pose proof (round_nearest_even_ge (shr_m r1) (loc_of_shr_record r1)) as H2.
  pose proof (round_nearest_even_le (shr_m r1) (loc_of_shr_record r1)) as H2le.
  set (m2 := round_nearest_even (shr_m r1) (loc_of_shr_record r1)) in *.
  pose proof (shr_fexp_nonneg m2 e1 loc_Exact ltac:(lia)) as H3.
  pose proof (shr_fexp_exp m2 e1 loc_Exact) as H3x.
  destruct (shr_fexp m2 e1 loc_Exact) as [r2 e2]. cbn [fst snd] in *.
  pose proof (Zdigits2_upper m k ltac:(lia) Hm) as Hd1.
  assert (Hm2k : 0 <= m2 < 2 ^ (k + 1)).
  { rewrite Z.pow_add_r by lia. change (2 ^ 1) with 2. lia. }
  pose proof (Zdigits2_upper m2 (k + 1) ltac:(lia) Hm2k) as Hd2.
  unfold SpecFloat.fexp, SpecFloat.emin in *.
  change prec with 53 in *. change emax with 1024 in *.
  assert (He2 : e2 <= 971) by lia.
  destruct (shr_m r2) as [| m3 | m3]; [reflexivity | | lia].
  rewrite (proj2 (Z.leb_le e2 (1024 - 53))) by lia. reflexivity.
Qed.

Lemma valid_mantissa (s : bool) (m : positive) (e : Z) :
  valid_binary (S754_finite s m e) = true -> Z.pos m < 2 ^ 53.
Proof.
  cbn [valid_binary]. unfold bounded, canonical_mantissa. intros Hv.
  apply andb_prop in Hv as [Hc _]. apply Z.eqb_eq in Hc.
  unfold SpecFloat.fexp in Hc. change prec with 53 in Hc.
  pose proof (digits2_above m) as Hd.
  assert (Hd53 : Z.pos (digits2_pos m) <= 53) by lia.
  eapply Z.lt_le_trans; [exact Hd |]. apply Z.pow_le_mono_r; lia.
Qed.

Lemma leb_unit_ratio (r : float) :
  PrimFloat.leb 0 r = true -> PrimFloat.leb r 1 = true -> unit_ratio (Prim2SF r).
Proof.
  rewrite !FloatAxioms.leb_spec.
  pose proof (FloatAxioms.Prim2SF_valid r) as Hv.
  change (Prim2SF 0) with (S754_zero false).
  change (Prim2SF 1) with (S754_finite false 4503599627370496 (-52)).
  destruct (Prim2SF r) as [s | s | | s m e]; unfold unit_ratio, SFleb, SFcompare.
  - intros _ _. exact I.
  - destruct s; intros H0 H1; discriminate.
  - intros H0; discriminate.
  - destruct s; intros H0 H1; [discriminate |].
    split; [| exact (valid_mantissa _ _ _ Hv)].
    destruct (Z.compare_spec e (-52)); lia || discriminate.
Qed.

(** The product of a converted integer below [2^63] and a number between
    0 and 1 converts to an integer that is not negative. *)
Lemma int_of_unit_product (x y : float) :
  (Prim2SF x = S754_zero false
   \/ exists mx ex, Prim2SF x = S754_finite false mx ex
                    /\ -52 <= ex <= 231 /\ Z.pos mx < 2 ^ 53) ->
  unit_ratio (Prim2SF y) ->
  exists a, int_of_float (PrimFloat.mul x y) = Ret a /\ 0 <= a.
Proof.
  intros Hx Hy. unfold int_of_float. rewrite FloatAxioms.mul_spec.
  destruct Hx as [-> | (mx & ex & -> & Hex & Hmx)].
  - destruct (Prim2SF y) as [s | s | | [|] m e]; cbn in Hy |- *; try contradiction;
      exists 0; split; (reflexivity || lia).
  - destruct (Prim2SF y) as [s | s | | [|] m e]; cbn in Hy; try contradiction.
    + exists 0. cbn. split; [reflexivity | lia].
    + destruct Hy as [He Hm]. cbn [SF64mul SFmul xorb].
      pose proof (round_aux_bounded false (Z.pos (mx * m)) (ex + e) 106 loc_Exact) as H.
      destruct (binary_round_aux prec emax false (Z.pos (mx * m)) (ex + e) loc_Exact)
        as [s | s | | s m' e'] eqn:E.
      * exists 0. split; [reflexivity | lia].
      * exfalso. apply H; try lia. rewrite Pos2Z.inj_mul.
        replace 106 with (53 + 53) by reflexivity. rewrite Z.pow_add_r by lia. nia.
      * exfalso. apply H; try lia. rewrite Pos2Z.inj_mul.
        replace 106 with (53 + 53) by reflexivity. rewrite Z.pow_add_r by lia. nia.
      * assert (s = false) as ->.
        { apply H; try lia. rewrite Pos2Z.inj_mul.
          replace 106 with (53 + 53) by reflexivity. rewrite Z.pow_add_r by lia. nia. }
        eexists. split; [reflexivity |].
        destruct (0 <=? e'); [apply Z.shiftl_nonneg | apply Z.shiftr_nonneg]; lia.
Qed.

Lemma int_of_product (z : Z) (y : float) :
  0 <= z < 2 ^ 63 -> unit_ratio (Prim2SF y) ->
  exists x a, float_of_int z = Ret x
              /\ int_of_float (PrimFloat.mul x y) = Ret a /\ 0 <= a.
Proof.
  intros Hz Hy.
  destruct (Z.eq_dec z 0) as [-> | Hne].
  - destruct (int_of_unit_product 0%float y (or_introl eq_refl) Hy) as (a & Ha).
    exists 0%float, a. split; [apply float_of_int_literals | exact Ha].
  - destruct (float_of_int_finite_exp z ltac:(lia)) as (x & mx & ex & Ex & Hx & Hb).
    destruct (int_of_unit_product x y) as (a & Ha); [right; now exists mx, ex | exact Hy |].
    exists x, a. split; [exact Ex | exact Ha].
Qed.

End Binary64Ratios.

(** ** The values of rounded results *)

Section Binary64Values.

Import Binary64.

Local Abbreviation shr_fexp := (SpecFloat.shr_fexp prec emax).
Local Abbreviation round_aux := (binary_round_aux prec emax).
Local Abbreviation fexp := (SpecFloat.fexp prec emax).
Local Abbreviation emin := (SpecFloat.emin prec emax).

Lemma digits2_shift (m p : positive) :
  digits2_pos (Pos.iter xO m p) = (digits2_pos m + p)%positive.
Proof.
  induction p as [| p IH] using Pos.peano_ind.
  - cbn. lia.
  - rewrite Pos.iter_succ. cbn [digits2_pos]. rewrite IH. lia.
Qed.

(** A number that has its place is rounded to itself. *)
Lemma round_aux_exact (s : bool) (m : positive) (e : Z) :
  fexp (Z.pos (digits2_pos m) + e) = e -> e <= emax - prec ->
  round_aux s (Z.pos m) e loc_Exact = S754_finite s m e.
Proof.
  intros Hf He. unfold binary_round_aux, SpecFloat.shr_fexp. cbn [Zdigits2].
  rewrite Hf, Z.sub_diag. cbn [shr shr_record_of_loc shr_m loc_of_shr_record
                               shr_r shr_s round_nearest_even Zdigits2].
  rewrite Hf, Z.sub_diag. cbn [shr shr_record_of_loc shr_m].
  now rewrite (proj2 (Z.leb_le _ _) He).
Qed.

Lemma shr_fexp_value (m e : Z) (l : location) :
  0 <= m ->
  shr_m (fst (shr_fexp m e l)) = m / 2 ^ (snd (shr_fexp m e l) - e)
  /\ e <= snd (shr_fexp m e l).
Proof.
  intros Hm. unfold SpecFloat.shr_fexp, shr.
  destruct (fexp (Zdigits2 m + e) - e) as [| p | p] eqn:Hn; cbn [fst snd].
  - rewrite shr_record_of_loc_m, Z.sub_diag, Z.div_1_r. lia.
  - rewrite iter_shr_1 by (rewrite shr_record_of_loc_m; exact Hm).
    rewrite shr_record_of_loc_m. split; [f_equal; f_equal; lia | lia].
  - rewrite shr_record_of_loc_m, Z.sub_diag, Z.div_1_r. lia.
Qed.

(** The value of a rounded result: the mantissa is the quotient by the
    shift, or one more. *)
Lemma round_aux_value sx (m : positive) (e k : Z) :
  0 <= k -> Z.pos m < 2 ^ k -> emin <= e <= 900 -> e + k <= 1000 ->
  exists m' e',
    round_aux sx (Z.pos m) e loc_Exact = S754_finite sx m' e'
    /\ e <= e' <= Z.max e (e + k - 52)
    /\ Z.pos m / 2 ^ (e' - e) <= Z.pos m' <= Z.pos m / 2 ^ (e' - e) + 1.
Proof.
  intros Hk Hm [He He'] Hb. unfold binary_round_aux.
  destruct (shr_fexp_pos m e loc_Exact He) as [H1 H1e].
  destruct (shr_fexp_value (Z.pos m) e loc_Exact ltac:(lia)) as [H1v H1ge].
  pose proof (shr_fexp_exp (Z.pos m) e loc_Exact) as H1x.
  destruct (shr_fexp (Z.pos m) e loc_Exact) as [r1 e1]. cbn [fst snd] in *.
  pose proof (round_nearest_even_ge (shr_m r1) (loc_of_shr_record r1)) as H2.
  pose proof (round_nearest_even_le (shr_m r1) (loc_of_shr_record r1)) as H2le.
  destruct (round_nearest_even (shr_m r1) (loc_of_shr_record r1)) as [| m2 | m2] eqn:Hm2;
    try lia.
  destruct (shr_fexp_pos m2 e1 loc_Exact H1e) as [H3 _].
  destruct (shr_fexp_value (Z.pos m2) e1 loc_Exact ltac:(lia)) as [H3v H3ge].
  pose proof (shr_fexp_exp (Z.pos m2) e1 loc_Exact) as H3x.
  destruct (shr_fexp (Z.pos m2) e1 loc_Exact) as [r2 e2]. cbn [fst snd] in *.
  pose proof (digits2_upper m k Hk Hm) as Hd1.
  remember (e1 - e) as s1 eqn:Es1. remember (e2 - e1) as s2 eqn:Es2.
  assert (Hs1 : 0 <= s1) by lia. assert (Hs2 : 0 <= s2) by lia.
  assert (Hp1 : 0 < 2 ^ s1) by (apply Z.pow_pos_nonneg; lia).
  assert (Hp2 : 0 < 2 ^ s2) by (apply Z.pow_pos_nonneg; lia).
  (* the size of the first quotient *)
  assert (Hm1k : shr_m r1 < 2 ^ (Z.max 0 (k - s1))).
  { rewrite H1v. destruct (Z.le_gt_cases s1 k) as [Hle | Hgt].
    - rewrite Z.max_r by lia. apply Z.div_lt_upper_bound; [lia |].
      rewrite <- Z.pow_add_r by lia. replace (s1 + (k - s1)) with k by lia. exact Hm.
    - rewrite Z.max_l by lia. apply Z.div_lt_upper_bound; [lia |].
      change (2 ^ 0) with 1. rewrite Z.mul_1_r.
      eapply Z.lt_le_trans; [exact Hm |]. apply Z.pow_le_mono_r; lia. }
  assert (Hm2k : Z.pos m2 < 2 ^ (Z.max 0 (k - s1) + 1)).
  { rewrite Z.pow_add_r by lia. change (2 ^ 1) with 2. lia. }
  pose proof (digits2_upper m2 (Z.max 0 (k - s1) + 1) ltac:(lia) Hm2k) as Hd2.
  cbn [Zdigits2] in *. unfold SpecFloat.fexp, SpecFloat.emin in *.
  change prec with 53 in *. change emax with 1024 in *.
  assert (He2 : e <= e2 <= Z.max e (e + k - 52))
    by (clear - He Hb H1e Es1 H1ge H1x Es2 H3ge H3x Hd1 Hs1 Hs2 Hd2 Hk; lia).
  assert (He971 : e2 <= 1024 - 53) by (clear - He2 He' Hb; lia).
  destruct (shr_m r2) as [| m3 | m3] eqn:Hm3; try lia.
  rewrite (proj2 (Z.leb_le e2 (1024 - 53))) by exact He971.
  exists m3, e2. split; [reflexivity |]. split; [exact He2 |].
  replace (e2 - e) with (s1 + s2) by lia.
  rewrite Z.pow_add_r, <- Z.div_div by lia. rewrite <- H1v, H3v.
  split.
  - apply Z.div_le_mono; lia.
  - apply Z.le_trans with ((shr_m r1 + 1) / 2 ^ s2); [apply Z.div_le_mono; lia |].
    assert (Hd : shr_m r1 + 1 <= (shr_m r1 / 2 ^ s2 + 1) * 2 ^ s2).
    { pose proof (Z.mod_pos_bound (shr_m r1) (2 ^ s2) Hp2).
      pose proof (Z.div_mod (shr_m r1) (2 ^ s2) ltac:(lia)). nia. }
    apply Z.div_le_upper_bound; [lia |]. lia.
Qed.

Local Abbreviation round := (binary_round prec emax).

(** An integer below [2^53] converts to itself. *)
Lemma float_of_int_exact (z : Z) :
  0 < z < 2 ^ 53 ->
  exists x m t,
    float_of_int z = Ret x
    /\ Prim2SF x = S754_finite false m (- t)
    /\ 0 <= t <= 52 /\ Z.pos m = z * 2 ^ t /\ 2 ^ 52 <= Z.pos m.
Proof.
  intros Hz. rewrite float_of_int_small by lia.
  exists (PrimFloat.of_uint63 (Uint63.of_Z z)).
  rewrite FloatAxioms.of_uint63_spec, Uint63.of_Z_spec.
  rewrite Z.mod_small by (change wB with (2 ^ 63); lia).
  destruct z as [| p | p]; try lia. cbn [binary_normalize]. unfold binary_round.
  pose proof (digits2_upper p 53 ltac:(lia) ltac:(lia)) as Hd.
  pose proof (Pos2Z.is_pos (digits2_pos p)) as Hd0.
  pose proof (digits2_lower p) as Hlow.
  unfold shl_align. cbn [Zdigits2].
  assert (Hf : fexp (Z.pos (digits2_pos p) + 0) = Z.pos (digits2_pos p) - 53).
  { unfold SpecFloat.fexp, SpecFloat.emin. change prec with 53. change emax with 1024. lia. }
  rewrite Hf.
  destruct (Z.pos (digits2_pos p) - 53 - 0) as [| q | q] eqn:Hq; try lia.
  - (* 53 digits *)
    exists p, 0. split; [reflexivity |].
    rewrite round_aux_exact.
    + split; [reflexivity |]. split; [lia |]. split; [lia |].
      replace (Z.pos (digits2_pos p) - 1) with 52 in Hlow by lia. exact Hlow.
    + rewrite Hf. lia.
    + vm_compute. discriminate.
  - (* fewer digits: the mantissa is shifted to 53 *)
    exists (Pos.iter xO p q), (Z.pos q).
    split; [reflexivity |].
    assert (Hq' : Z.pos (digits2_pos p) - 53 = - Z.pos q) by lia.
    rewrite Hq'. rewrite round_aux_exact.
    + split; [reflexivity |]. split; [lia |].
      rewrite iter_xO_value. split; [reflexivity |].
      assert (Hlow' : 2 ^ (Z.pos (digits2_pos p) - 1) * 2 ^ Z.pos q <= Z.pos p * 2 ^ Z.pos q).
      { apply Z.mul_le_mono_nonneg_r; [apply Z.pow_nonneg; lia | exact Hlow]. }
      rewrite <- Z.pow_add_r in Hlow' by lia.
      replace (Z.pos (digits2_pos p) - 1 + Z.pos q) with 52 in Hlow' by lia. exact Hlow'.
    + rewrite digits2_shift, Pos2Z.inj_add.
      unfold SpecFloat.fexp, SpecFloat.emin. change prec with 53. change emax with 1024. lia.
    + change emax with 1024. change prec with 53. lia.
Qed.

(** [int(n * 0.6)] is below [n], and at least 1 from [n = 2] on. *)
Lemma keep_count_bounds (n : Z) :
  0 < n < 2 ^ 53 ->
  exists kc, keep_count n = Ret kc /\ 0 <= kc < n /\ (2 <= n -> 1 <= kc).
Proof.
  intros Hn. unfold keep_count.
  destruct (float_of_int_exact n Hn) as (x & mx & t & -> & Hx & Ht & Hmx & Hlo).
  cbn [obind]. unfold int_of_float. rewrite FloatAxioms.mul_spec.
  pose proof (FloatAxioms.Prim2SF_valid x) as Hv. rewrite Hx in *.
  apply valid_mantissa in Hv.
  change (Prim2SF 0.6%float) with (S754_finite false 5404319552844595 (-53)).
  cbn [SF64mul SFmul xorb].
  set (my := 5404319552844595%positive) in *.
  assert (Hmy : 2 ^ 52 <= Z.pos my /\ Z.pos my + 2 ^ 51 < 2 ^ 53) by (subst my; lia).
  destruct (round_aux_value false (mx * my) (- t + -53) 106) as (m3 & e3 & -> & He3 & Hq).
  - lia.
  - rewrite Pos2Z.inj_mul. replace 106 with (53 + 53) by reflexivity.
    rewrite Z.pow_add_r by lia. nia.
  - change (SpecFloat.emin prec emax) with (-1074). lia.
  - lia.
  - rewrite Pos2Z.inj_mul in Hq.
    remember (e3 - (- t + -53)) as s eqn:Es.
    assert (Hs : 0 <= s <= 54) by lia.
    assert (Hps : 0 < 2 ^ s) by (apply Z.pow_pos_nonneg; lia).
    assert (Hps54 : 2 ^ s <= 2 ^ 54) by (apply Z.pow_le_mono_r; lia).
    assert (Hpt : 0 < 2 ^ t) by (apply Z.pow_pos_nonneg; lia).
    set (M := Z.pos mx * Z.pos my) in *.
    assert (HM : 0 < M) by (subst M; lia).
    pose proof (Z.mul_div_le M (2 ^ s) Hps) as Hfloor.
    assert (F1 : Z.pos m3 * 2 ^ s <= M + 2 ^ s) by nia.
    assert (F2 : M + 2 ^ 54 < Z.pos mx * 2 ^ 53).
    { subst M. change (2 ^ 54) with (2 ^ 52 * 4). change (2 ^ 51) with 2251799813685248 in Hmy.
      change (2 ^ 53) with 9007199254740992 in *. change (2 ^ 52) with 4503599627370496 in *.
      nia. }
    assert (F3 : Z.pos m3 * 2 ^ s < n * 2 ^ (t + 53)).
    { rewrite Z.pow_add_r by lia. rewrite Z.mul_assoc, <- Hmx. lia. }
    eexists. split; [reflexivity |].
    destruct (Z.leb_spec 0 e3) as [Hpos | Hneg].
    + rewrite Z.shiftl_mul_pow2 by lia.
      assert (Hpe : 0 < 2 ^ e3) by (apply Z.pow_pos_nonneg; lia).
      replace s with (e3 + (t + 53)) in F3 by lia.
      rewrite Z.pow_add_r in F3 by lia.
      assert (Hpt53 : 0 < 2 ^ (t + 53)) by (apply Z.pow_pos_nonneg; lia).
      split; [| nia]. split; [nia |]. nia.
    + rewrite Z.shiftr_div_pow2 by lia.
      remember (- e3) as u eqn:Eu.
      assert (Hu : 0 < u) by lia.
      assert (Hpu : 0 < 2 ^ u) by (apply Z.pow_pos_nonneg; lia).
      assert (Hsu : t + 53 = u + s) by lia.
      rewrite Hsu, Z.pow_add_r in F3 by lia.
      split; [split |].
      * apply Z.div_pos; lia.
      * apply Z.div_lt_upper_bound; [lia |]. nia.
      * intros H2. apply Z.div_le_lower_bound; [lia |]. rewrite Z.mul_1_r.
        apply Z.le_trans with (M / 2 ^ s); [| lia].
        apply Z.div_le_lower_bound; [lia |].
        rewrite Z.mul_comm, <- Z.pow_add_r, <- Hsu by lia.
        subst M. rewrite Hmx. rewrite Z.pow_add_r by lia.
        change (2 ^ 53) with (2 * 2 ^ 52). nia.
Qed.

End Binary64Values.

Section CompressionTotal.

Import BasicCompressionEngine.

(** X8: on a proper ratio [compress] always returns.  For a content of
    fewer than [2^63] characters and a ratio [0 <= r <= 1], neither
    [int()] call can fail and the target length is not negative, so the
    result is the content itself or a truncation of it. *)
Theorem compress_returns (c : string) (r : float) :
  PyStr.len c < 2 ^ 63 ->
  PrimFloat.leb 0 r = true ->
  PrimFloat.leb r 1 = true ->
  exists c', compress c r = Ret c'.
Proof.
  intros Hlen H0 H1. pose proof (leb_unit_ratio r H0 H1) as Hr.
  assert (Hn : 0 <= PyStr.len c) by (unfold PyStr.len; lia).
  unfold compress.
  destruct (int_of_product (PyStr.len c) r ltac:(lia) Hr) as (n & t & En & Et & Ht).
  rewrite En. cbn [obind]. rewrite Et. cbn [obind].
  destruct (Z.leb_spec (PyStr.len c) t) as [Hle | Hlt]; [now eexists |].
  destruct (int_of_product t 0.7%float ltac:(lia)) as (x & ks & Ex & Ek & _).
  { vm_compute. split; [intros H; discriminate H | reflexivity]. }
  rewrite Ex. cbn [obind]. rewrite Ek. cbn [obind]. destruct (0 <? t - ks); now eexists.
Qed.

End CompressionTotal.

Lemma compress_returns_witness :
  exists c', BasicCompressionEngine.compress fox 0.3%float = Ret c'.
Proof.
  apply (compress_returns fox 0.3%float); reflexivity.
Defined.

(** ** The retrieval engine at the edges *)

Section RetrievalEdges.

Import KeywordSpec.

(** The engine returns the ranking of the specification, cut at [limit]. *)
Lemma retrieve_ranking (query : string) (candidates : list ref) (limit : Z) (w : World) :
  (forall r, r ∈ candidates -> is_Some (heap w !! r)) ->
  exists w',
    BasicRetrievalEngine.retrieve query candidates limit w
    = (Ret (slice_to (ranking (heap w) query candidates) limit), w')
    /\ self w' = self w /\ ticks w' = ticks w
    /\ forall r, heap w' !! r = rescored query candidates r <$> heap w !! r.
Proof.
  intros Hv.
  destruct (score_loop_spec query candidates w Hv) as (w' & E & Hs & Ht & Hh).
  set (included_refs :=
         List.filter (fun r => included query (content_at (heap w) r)) candidates) in *.
  assert (Hinc : forall r, In r included_refs ->
            r ∈ candidates /\ included query (content_at (heap w) r) = true).
  { intros r Hr. apply filter_In in Hr as [Hr Hi].
    split; [now apply list_elem_of_In | exact Hi]. }
  assert (Hv' : forall r, r ∈ included_refs -> is_Some (heap w' !! r)).
  { intros r Hr. apply list_elem_of_In in Hr. destruct (Hinc r Hr) as [Hc _].
    rewrite Hh. destruct (Hv r Hc) as (x & ->). now eexists. }
  exists w'. split; [| now repeat split].
  unfold BasicRetrievalEngine.retrieve. unfold bind at 1. rewrite E.
  unfold bind at 1. rewrite (engine_sort_keys included_refs w' Hv').
  unfold ret. do 3 f_equal.
  apply (sort_by_ext PrimFloat.ltb
           (fun r => match heap w' !! r with
                     | Some x => relevance_score x
                     | None => 0%float
                     end) (fun r => score query (content_at (heap w) r)) included_refs).
  intros r Hr. destruct (Hinc r Hr) as [Hc Hi]. rewrite Hh.
  destruct (Hv r Hc) as (x & Hx). unfold content_at in *. rewrite Hx in *.
  cbn [fmap option_fmap option_map]. unfold rescored.
  rewrite (bool_decide_eq_true_2 _ Hc), Hi. reflexivity.
Qed.

Lemma length_slice_to {A} (l : list A) (k : Z) :
  Z.of_nat (length (slice_to l k))
  = if 0 <=? k then Z.min k (Z.of_nat (length l))
    else Z.max 0 (Z.of_nat (length l) + k).
Proof.
  unfold slice_to. destruct (Z.leb_spec 0 k); rewrite length_take; lia.
Qed.

Lemma take_length_take {A} (n : nat) (l : list A) : take (length (take n l)) l = take n l.
Proof.
  revert n. induction l as [| a l IH]; intros [| n]; cbn; try reflexivity.
  now rewrite IH.
Qed.

Lemma slice_to_take {A} (l : list A) (k : Z) :
  slice_to l k = take (length (slice_to l k)) l.
Proof.
  unfold slice_to. destruct (0 <=? k); now rewrite take_length_take.
Qed.

(** X9: how many segments [retrieve] returns.  With [n] candidates sharing
    a word with the query, a limit [k >= 0] gives the first [min k n]
    entries of the ranking; a negative limit is a Python slice bound counted
    from the end, so [-k] gives the ranking without its last [k] entries,
    not an empty list and not an error. *)
Theorem retrieve_limit (query : string) (candidates : list ref) (limit : Z) (w : World) :
  (forall r, r ∈ candidates -> is_Some (heap w !! r)) ->
  let n := Z.of_nat
             (length (List.filter (fun r => included query (content_at (heap w) r))
                        candidates)) in
  exists l w',
    BasicRetrievalEngine.retrieve query candidates limit w = (Ret l, w')
    /\ l = take (length l) (ranking (heap w) query candidates)
    /\ Z.of_nat (length l)
       = if 0 <=? limit then Z.min limit n else Z.max 0 (n + limit).
Proof.
  intros Hv n. destruct (retrieve_ranking query candidates limit w Hv) as (w' & E & _).
  eexists. exists w'. split; [exact E |]. split; [apply slice_to_take |].
  rewrite length_slice_to.
  assert (Hn : Z.of_nat (length (ranking (heap w) query candidates)) = n).
  { subst n. f_equal. apply Permutation_length. apply (sort_by_perm PrimFloat.ltb). }
  now rewrite Hn.
Qed.

Lemma score_loop_no_words (candidates : list ref) (w : World) :
  (forall r, r ∈ candidates -> is_Some (heap w !! r)) ->
  BasicRetrievalEngine.score_loop ∅ candidates w = (Ret [], w).
Proof.
  induction candidates as [| r l IH]; intros Hv; [reflexivity |].
  destruct (Hv r) as (x & Hx); [apply elem_of_cons; now left |].
  cbn [BasicRetrievalEngine.score_loop]. unfold bind at 1. rewrite (deref_some r x w Hx).
  rewrite intersection_empty_l_L, size_empty. cbn [Z.of_nat Z.ltb Z.compare].
  apply IH. intros r' H. apply Hv. apply elem_of_cons. now right.
Qed.

(** X10: a query without a word (empty, or white space only) retrieves
    nothing, whatever the candidates and the limit, and leaves every
    segment as it was: no score is written, and the division by the number
    of query words is never reached. *)
Theorem retrieve_blank_query (query : string) (candidates : list ref) (limit : Z)
    (w : World) :
  PyStr.split (PyStr.lower query) = [] ->
  (forall r, r ∈ candidates -> is_Some (heap w !! r)) ->
  BasicRetrievalEngine.retrieve query candidates limit w = (Ret [], w).
Proof.
  intros Hq Hv. unfold BasicRetrievalEngine.retrieve, BasicRetrievalEngine.words.
  rewrite Hq. cbn [list_to_set foldr]. unfold bind at 1.
  rewrite (score_loop_no_words candidates w Hv). unfold bind, ret. cbn.
  unfold slice_to. now destruct (0 <=? limit); rewrite take_nil.
Qed.

Lemma lower_char_idem (c : ascii) : PyStr.lower_char (PyStr.lower_char c) = PyStr.lower_char c.
Proof. destruct c as [[] [] [] [] [] [] [] []]; reflexivity. Qed.

Lemma lower_idem (s : string) : PyStr.lower (PyStr.lower s) = PyStr.lower s.
Proof.
  induction s as [| c s IH]; cbn; [reflexivity |]. now rewrite lower_char_idem, IH.
Qed.

(** X11: retrieval ignores the case of the query: the lower-cased query
    gives the same result and the same final state as the query itself, on
    every store. *)
Theorem retrieve_ignores_case (query : string) (candidates : list ref) (limit : Z)
    (w : World) :
  BasicRetrievalEngine.retrieve (PyStr.lower query) candidates limit w
  = BasicRetrievalEngine.retrieve query candidates limit w.
Proof.
  unfold BasicRetrievalEngine.retrieve, BasicRetrievalEngine.words.
  now rewrite lower_idem.
Qed.

End RetrievalEdges.

Lemma alpha_world_live r : r ∈ [0%nat] -> is_Some (heap alpha_world !! r).
Proof. intros Hr. apply list_elem_of_singleton in Hr as ->. now eexists. Qed.

Lemma retrieve_limit_witness :
  exists l w',
    BasicRetrievalEngine.retrieve "beta" [0%nat] (-1) alpha_world = (Ret l, w')
    /\ Z.of_nat (length l) = 0.
Proof.
  destruct (retrieve_limit "beta" [0%nat] (-1) alpha_world alpha_world_live)
    as (l & w' & E & _ & Hl).
  exists l, w'. split; [exact E | exact Hl].
Defined.

Lemma retrieve_blank_query_witness :
  BasicRetrievalEngine.retrieve "  " [0%nat] 5 alpha_world = (Ret [], alpha_world).
Proof.
  exact (retrieve_blank_query "  " [0%nat] 5 alpha_world eq_refl alpha_world_live).
Defined.

(** ** Retrieval, ingestion and removal by the controller *)

Section Controller.

Variable now_at : nat -> datetime.
Variable md5_hexdigest : string -> datetime -> string.

Lemma gather_all (w : World) : gather all_tiers w = (Ret (stored_refs w), w).
Proof.
  unfold stored_refs. cbn [gather all_tiers]. unfold bind at 1. rewrite get_all_active.
  unfold bind at 1. unfold bind at 1. rewrite get_all_working.
  unfold bind at 1. unfold bind at 1. rewrite get_all_long_term.
  unfold bind, ret. now rewrite app_nil_r.
Qed.

Lemma stored_refs_live (w : World) (r : ref) :
  wf w -> r ∈ stored_refs w -> is_Some (heap w !! r).
Proof.
  intros ((_ & Ha) & (_ & Hw) & (_ & Hl)) Hr. unfold stored_refs in Hr.
  rewrite !elem_of_app in Hr.
  destruct Hr as [Hr | [Hr | Hr]]; apply values_elem in Hr as (k & Hin);
    [destruct (Ha k r Hin) as (x & Hx & _) | destruct (Hw k r Hin) as (x & Hx & _)
     | destruct (Hl k r Hin) as (x & Hx & _)]; now exists x.
Qed.

(** What a retrieval does to a well-formed store. *)
Lemma retrieve_relevant_effect (query : string) (limit : Z) (w : World) :
  wf w ->
  exists l w',
    retrieve_relevant now_at query limit w = (Ret l, w')
    /\ memory_manager (self w') = memory_manager (self w)
    /\ config (self w') = config (self w)
    /\ _last_cleanup (self w') = _last_cleanup (self w)
    /\ with_average_retrieval_time_ms (average_retrieval_time_ms (metrics (self w)))
         (metrics (self w')) = metrics (self w)
    /\ ticks w' = S (S (ticks w))
    /\ length (heap w') = length (heap w)
    /\ (forall r x, heap w !! r = Some x ->
          exists x', heap w' !! r = Some x'
                     /\ with_relevance_score (relevance_score x) x' = x)
    /\ l = slice_to (KeywordSpec.ranking (heap w) query (stored_refs w)) limit
    /\ (forall r, r ∈ l -> r ∈ stored_refs w).
Proof.
  intros Hwf. unfold retrieve_relevant.
  unfold bind at 1. unfold now at 1. unfold bind at 1. rewrite gather_all.
  change (stored_refs (with_ticks (S (ticks w)) w)) with (stored_refs w).
  destruct (retrieve_ranking query (stored_refs w) limit (with_ticks (S (ticks w)) w))
    as (w1 & E & Hs & Ht & Hh).
  { intros r Hr. now apply stored_refs_live. }
  unfold bind at 1. rewrite E. unfold bind at 1. unfold now at 1.
  unfold bind at 1. unfold set_metrics, modify, ret.
  eexists. eexists. split; [reflexivity |].
  cbn [self with_self with_ticks ticks heap memory_manager with_metrics config
       _last_cleanup metrics] in *.
  rewrite Hs, Ht. do 3 (split; [reflexivity |]).
  split; [now destruct (metrics (self w)) |]. split; [reflexivity |].
  split.
  { apply Nat.le_antisymm.
    - destruct (Nat.le_gt_cases (length (heap w1)) (length (heap w))) as [H | H]; [exact H |].
      exfalso. destruct (lookup_lt_is_Some_2 (heap w1) (length (heap w)) H) as (y & Hy).
      rewrite Hh in Hy. rewrite lookup_ge_None_2 in Hy by lia. discriminate.
    - destruct (Nat.le_gt_cases (length (heap w)) (length (heap w1))) as [H | H]; [exact H |].
      exfalso. destruct (lookup_lt_is_Some_2 (heap w) (length (heap w1)) H) as (y & Hy).
      specialize (Hh (length (heap w1))). rewrite Hy in Hh.
      rewrite lookup_ge_None_2 in Hh by lia. discriminate. }
  split.
  { intros r x Hx. rewrite Hh, Hx. cbn [fmap option_fmap option_map].
    eexists. split; [reflexivity |]. unfold KeywordSpec.rescored.
    destruct (_ && _); now destruct x. }
  split; [reflexivity |].
  intros r Hr. unfold slice_to in Hr.
  assert (Hin : r ∈ KeywordSpec.ranking (heap w) query (stored_refs w)).
  { destruct (0 <=? limit); (eapply elem_of_sublist; [exact Hr | apply sublist_take]). }
  apply list_elem_of_In in Hin.
  apply (Permutation_in _ (sort_by_perm PrimFloat.ltb _ _)) in Hin.
  apply filter_In in Hin as [Hin _]. now apply list_elem_of_In.
Qed.

(** X12: [retrieve_relevant] searches the segments of all three tiers and
    is not an access.  It returns (never raises), reads the clock twice,
    and leaves the three tiers, the configuration and the time of the last
    cleanup as they were; no segment is created or dropped, and a segment
    can differ afterwards in its [relevance_score] only: content, id,
    metadata, timestamp, [access_count] and [compression_ratio] are
    untouched.  Of the metrics only [average_retrieval_time_ms] moves.
    The result is the ranking of the segments of the active, then the
    working, then the long-term tier, cut at [limit]: among equal scores
    the tiers come in that order. *)
Theorem retrieve_relevant_frame (query : string) (limit : Z) (w : World) :
  wf w ->
  exists l w',
    retrieve_relevant now_at query limit w = (Ret l, w')
    /\ memory_manager (self w') = memory_manager (self w)
    /\ config (self w') = config (self w)
    /\ _last_cleanup (self w') = _last_cleanup (self w)
    /\ with_average_retrieval_time_ms (average_retrieval_time_ms (metrics (self w)))
         (metrics (self w')) = metrics (self w)
    /\ ticks w' = S (S (ticks w))
    /\ length (heap w') = length (heap w)
    /\ (forall r x, heap w !! r = Some x ->
          exists x', heap w' !! r = Some x'
                     /\ with_relevance_score (relevance_score x) x' = x)
    /\ l = slice_to (KeywordSpec.ranking (heap w) query (stored_refs w)) limit
    /\ (forall r, r ∈ l -> r ∈ stored_refs w).
Proof. exact (retrieve_relevant_effect query limit w). Qed.

(** *** Ingestion within the budget *)

Lemma sum_len_total (l : list ref) (w : World) :
  (forall r, r ∈ l -> is_Some (heap w !! r)) ->
  sum_len l w = (Ret (total_length (heap w) l), w).
Proof.
  induction l as [| r l IH]; intros Hv; [reflexivity |].
  destruct (Hv r) as (x & Hx); [apply elem_of_cons; now left |].
  cbn [total_length foldr]. rewrite Hx. apply sum_len_cons; [exact Hx |].
  apply IH. intros r' H. apply Hv. apply elem_of_cons. now right.
Qed.

Lemma total_length_app (h : list ContextSegment) (l1 l2 : list ref) :
  total_length h (l1 ++ l2) = total_length h l1 + total_length h l2.
Proof.
  induction l1 as [| r l1 IH]; cbn; [reflexivity |].
  fold (total_length h (l1 ++ l2)). fold (total_length h l1). rewrite IH.
  destruct (h !! r); lia.
Qed.

Lemma total_length_grow (h : list ContextSegment) (x : ContextSegment) (l : list ref) :
  (forall r, r ∈ l -> is_Some (h !! r)) ->
  total_length (h ++ [x]) l = total_length h l.
Proof.
  induction l as [| r l IH]; intros Hv; [reflexivity |].
  destruct (Hv r) as (y & Hy); [apply elem_of_cons; now left |].
  cbn. fold (total_length (h ++ [x]) l). fold (total_length h l).
  rewrite (lookup_app_l_Some _ _ _ _ Hy), Hy, IH; [reflexivity |].
  intros r' H. apply Hv. apply elem_of_cons. now right.
Qed.

Lemma wf_dict_live (h : list ContextSegment) (d : dict) (r : ref) :
  wf_dict h d -> r ∈ dict_values d -> is_Some (h !! r).
Proof.
  intros [_ Hd] Hr. apply values_elem in Hr as (k & Hin).
  destruct (Hd k r Hin) as (x & Hx & _). now exists x.
Qed.

(** X13: an ingestion that stays within the budget.  When the id about to
    be generated is not in the active tier and the characters of the active
    segments plus those of the new content do not exceed
    [max_context_size], [add_context] returns the id, makes one new segment
    (relevance 1.0, never read, uncompressed, stamped with the second clock
    reading) and files it at the end of the active tier; the working and
    long-term tiers are untouched, no optimization runs, [total_segments]
    grows by one and [active_segments] is the new size of the active
    tier. *)
Theorem add_context_within_budget (c : string) (md : option (list (string * string)))
    (w : World) :
  wf_dict (heap w) (active_of w) ->
  holds (active_of w) (md5_hexdigest c (now_at (ticks w))) = false ->
  total_length (heap w) (dict_values (active_of w)) + PyStr.len c
  <= max_context_size (config (self w)) ->
  exists w',
    add_context now_at md5_hexdigest c md w
    = (Ret (md5_hexdigest c (now_at (ticks w))), w')
    /\ heap w'
       = heap w ++ [new_segment (md5_hexdigest c (now_at (ticks w))) c md
                      (now_at (S (ticks w)))]
    /\ active_of w' = active_of w ++ [(md5_hexdigest c (now_at (ticks w)), length (heap w))]
    /\ working_of w' = working_of w
    /\ long_term_of w' = long_term_of w
    /\ ticks w' = S (S (ticks w))
    /\ total_segments (metrics (self w')) = total_segments (metrics (self w)) + 1
    /\ active_segments (metrics (self w')) = Z.of_nat (length (active_of w)) + 1.
Proof.
  intros Hwf Hfresh Hfit. rewrite add_context_eq.
  set (k := md5_hexdigest c (now_at (ticks w))) in *.
  set (x := new_segment k c md (now_at (S (ticks w)))).
  rewrite (dict_set_fresh _ _ _ Hfresh).
  set (w0 := set_active _ _).
  assert (Hsum : sum_len (dict_values (active_of w0)) w0
                 = (Ret (total_length (heap w) (dict_values (active_of w)) + PyStr.len c), w0)).
  { rewrite sum_len_total.
    - f_equal. f_equal. subst w0. cbn [active_of set_active heap with_heap with_self self
        memory_manager with_memory_manager active_memory with_active with_ticks].
      fold (active_of w). unfold dict_values. rewrite map_app. cbn [map snd].
      rewrite total_length_app. fold (dict_values (active_of w)).
      rewrite total_length_grow by (intros r Hr; now apply (wf_dict_live _ (active_of w))).
      cbn. rewrite list_lookup_middle by reflexivity. cbn. lia.
    - intros r Hr. subst w0. cbn [active_of set_active heap with_heap with_self self
        memory_manager with_memory_manager active_memory with_active with_ticks] in *.
      fold (active_of w) in Hr. unfold dict_values in Hr. rewrite map_app in Hr.
      apply elem_of_app in Hr as [Hr | Hr].
      + destruct (wf_dict_live _ _ r Hwf Hr) as (y & Hy). exists y.
        now apply lookup_app_l_Some.
      + cbn in Hr. apply list_elem_of_singleton in Hr as ->. exists x.
        now apply list_lookup_middle. }
  rewrite (maybe_optimize_eq now_at w0 _ Hsum).
  change (max_context_size (config (self w0))) with (max_context_size (config (self w))).
  rewrite (proj2 (Z.ltb_ge _ _)) by lia.
  eexists. split; [reflexivity |].
  subst w0. destruct w as [h n [cf [a b l] m t]]. cbn.
  repeat split. rewrite length_map, length_app. cbn. lia.
Qed.

(** *** Removal *)

Lemma remove_context_eq (k : string) (w : World) :
  remove_context k w
  = if holds (active_of w) k
    then (Ret true, count_removed (set_active (dict_pop (active_of w) k).2 w))
    else if holds (working_of w) k
    then (Ret true, count_removed (set_working (dict_pop (working_of w) k).2 w))
    else if holds (long_term_of w) k
    then (Ret true, count_removed (set_long_term (dict_pop (long_term_of w) k).2 w))
    else (Ret false, w).
Proof.
  unfold remove_context. cbn [remove_from all_tiers].
  unfold bind at 1. rewrite delete_active.
  destruct (holds (active_of w) k) eqn:Ha; [reflexivity |].
  rewrite (dict_pop_miss _ _ Ha), set_active_same.
  unfold bind at 1. rewrite delete_working.
  destruct (holds (working_of w) k) eqn:Hw; [reflexivity |].
  rewrite (dict_pop_miss _ _ Hw), set_working_same.
  unfold bind at 1. rewrite delete_long_term.
  destruct (holds (long_term_of w) k) eqn:Hl; [reflexivity |].
  now rewrite (dict_pop_miss _ _ Hl), set_long_term_same.
Qed.

Lemma holds_pop_ne (d : dict) (k k' : string) :
  k' <> k -> holds (dict_pop d k).2 k' = holds d k'.
Proof. intros H. unfold holds. now rewrite dict_get_pop_ne. Qed.

Lemma holds_pop_eq (d : dict) (k : string) :
  NoDup (dict_keys d) -> holds (dict_pop d k).2 k = false.
Proof. intros H. apply holds_false. now apply dict_pop_gone. Qed.

(** What a removal does to a store that satisfies the store invariant. *)
Lemma remove_context_effect (k : string) (w : World) :
  inv w ->
  exists w',
    remove_context k w = (Ret (negb (tier_count w k =? 0)%nat), w')
    /\ tier_count w' k = 0%nat
    /\ (forall k', k' <> k ->
          holds (active_of w') k' = holds (active_of w) k'
          /\ holds (working_of w') k' = holds (working_of w) k'
          /\ holds (long_term_of w') k' = holds (long_term_of w) k')
    /\ heap w' = heap w
    /\ remove_context k w' = (Ret false, w')
    /\ (tier_count w k = 0%nat -> w' = w)
    /\ (tier_count w k = 1%nat ->
        total_segments (metrics (self w')) = total_segments (metrics (self w)) - 1
        /\ active_segments (metrics (self w')) = Z.of_nat (length (active_of w'))).
Proof.
  intros [((Hna & _) & (Hnw & _) & (Hnl & _)) H1]. specialize (H1 k).
  rewrite remove_context_eq. unfold tier_count in *.
  destruct (holds (active_of w) k) eqn:Ha;
    [| destruct (holds (working_of w) k) eqn:Hw;
       [| destruct (holds (long_term_of w) k) eqn:Hl]].
  - destruct (holds (working_of w) k) eqn:Hw; [cbn in H1; lia |].
    destruct (holds (long_term_of w) k) eqn:Hl; [cbn in H1; lia |].
    pose proof (holds_pop_eq _ k Hna) as Hg.
    pose proof (holds_pop_ne (active_of w) k) as Hne.
    eexists. split; [reflexivity |]. rewrite remove_context_eq.
    destruct w as [h n [cf [a b l] m t]]. cbn in *. rewrite Hg, Hw, Hl. cbn.
    split; [reflexivity |]. split; [intros k' Hk'; now rewrite Hne |].
    split; [reflexivity |]. split; [reflexivity |]. split; [discriminate |].
    intros _. split; [reflexivity |]. now rewrite length_map.
  - pose proof (holds_pop_eq _ k Hnw) as Hg.
    pose proof (holds_pop_ne (working_of w) k) as Hne.
    destruct (holds (long_term_of w) k) eqn:Hl; [cbn in H1; lia |].
    eexists. split; [reflexivity |]. rewrite remove_context_eq.
    destruct w as [h n [cf [a b l] m t]]. cbn in *. rewrite Hg, Ha, Hl. cbn.
    split; [reflexivity |]. split; [intros k' Hk'; now rewrite Hne |].
    split; [reflexivity |]. split; [reflexivity |]. split; [discriminate |].
    intros _. split; [reflexivity |]. now rewrite length_map.
  - pose proof (holds_pop_eq _ k Hnl) as Hg.
    pose proof (holds_pop_ne (long_term_of w) k) as Hne.
    eexists. split; [reflexivity |]. rewrite remove_context_eq.
    destruct w as [h n [cf [a b l] m t]]. cbn in *. rewrite Hg, Ha, Hw. cbn.
    split; [reflexivity |]. split; [intros k' Hk'; now rewrite Hne |].
    split; [reflexivity |]. split; [reflexivity |]. split; [discriminate |].
    intros _. split; [reflexivity |]. now rewrite length_map.
  - exists w. split; [reflexivity |]. rewrite remove_context_eq, Ha, Hw, Hl. cbn.
    split; [reflexivity |]. split; [now intros |]. split; [reflexivity |].
    split; [reflexivity |]. split; [reflexivity |]. discriminate.
Qed.

(** X14: [remove_context] on a store that satisfies the store invariant.
    It returns whether a tier held the id.  Afterwards no tier holds it, so
    a second removal of the same id returns [False] and changes nothing;
    every other id is where it was; no segment object is touched.  A
    removal that found nothing changes nothing at all; one that found the id
    takes one off [total_segments] and refreshes [active_segments]. *)
Theorem remove_context_then_absent (k : string) (w : World) :
  inv w ->
  exists w',
    remove_context k w = (Ret (negb (tier_count w k =? 0)%nat), w')
    /\ tier_count w' k = 0%nat
    /\ (forall k', k' <> k ->
          holds (active_of w') k' = holds (active_of w) k'
          /\ holds (working_of w') k' = holds (working_of w) k'
          /\ holds (long_term_of w') k' = holds (long_term_of w) k')
    /\ heap w' = heap w
    /\ remove_context k w' = (Ret false, w')
    /\ (tier_count w k = 0%nat -> w' = w)
    /\ (tier_count w k = 1%nat ->
        total_segments (metrics (self w')) = total_segments (metrics (self w)) - 1
        /\ active_segments (metrics (self w')) = Z.of_nat (length (active_of w'))).
Proof. exact (remove_context_effect k w). Qed.

(** A removal takes as many entries from the tiers as it takes off the
    count. *)
Lemma remove_context_count (k : string) (w : World) :
  inv w ->
  stored_count (snd (remove_context k w)) = stored_count w - Z.of_nat (tier_count w k)
  /\ total_segments (metrics (self (snd (remove_context k w))))
     = total_segments (metrics (self w)) - Z.of_nat (tier_count w k).
Proof.
  intros [_ H1]. specialize (H1 k). rewrite remove_context_eq.
  unfold tier_count, stored_count in *.
  pose proof (dict_pop_length (active_of w) k) as La.
  pose proof (dict_pop_length (working_of w) k) as Lw.
  pose proof (dict_pop_length (long_term_of w) k) as Ll.
  destruct (holds (active_of w) k), (holds (working_of w) k), (holds (long_term_of w) k);
    cbn in H1; try lia;
    destruct w as [h n [cf [a b l] m t]]; cbn in *; split; lia.
Qed.

End Controller.

(** ** The optimization pass *)

Section Pass.

Variable now_at : nat -> datetime.

Lemma wf_values_NoDup (h : list ContextSegment) (d : dict) :
  wf_dict h d -> NoDup (dict_values d).
Proof.
  intros [Hnd Hd]. induction d as [| [k r] d IH]; cbn; [constructor |].
  cbn in Hnd. apply NoDup_cons in Hnd as [Hk Hnd]. apply NoDup_cons. split.
  - intros Hr. apply values_elem in Hr as (k' & Hin).
    destruct (Hd k r) as (x & Hx & Hid); [apply elem_of_cons; now left |].
    destruct (Hd k' r) as (x' & Hx' & Hid'); [apply elem_of_cons; now right |].
    assert (k' = k) as -> by congruence. apply Hk. eapply elem_keys; eassumption.
  - apply IH; [exact Hnd |]. intros k' r' Hin. apply Hd. apply elem_of_cons. now right.
Qed.

Lemma dict_pop_elem_ne (d : dict) (k k' : string) (r' : ref) :
  (k', r') ∈ d -> k' <> k -> (k', r') ∈ (dict_pop d k).2.
Proof.
  induction d as [| [k0 v0] d IH]; cbn; [easy |]. intros Hin Hne.
  destruct (String.eqb_spec k0 k) as [-> | Hk]; cbn.
  - apply elem_of_cons in Hin as [[= -> ->] | Hin]; [contradiction | exact Hin].
  - destruct (dict_pop d k) as [o d'] eqn:E. cbn in *.
    apply elem_of_cons in Hin as [Hin | Hin]; apply elem_of_cons; [now left | right].
    now apply IH.
Qed.

Lemma set_working_set_active_twice (a a' b b' : dict) (w : World) :
  set_working b' (set_active a' (set_working b (set_active a w)))
  = set_working b' (set_active a' w).
Proof. reflexivity. Qed.

(** Moving segments that the active tier holds: every id stays in as many
    tiers as before, the two tiers exchange as many entries as are moved,
    and nothing else changes. *)
Lemma move_loop_conserves (l : list ref) (w : World) :
  inv w -> NoDup l ->
  (forall r, r ∈ l -> r ∈ dict_values (active_of w)) ->
  exists a' b',
    for_each l move_to_working_step w = (Ret tt, set_working b' (set_active a' w))
    /\ inv (set_working b' (set_active a' w))
    /\ (forall k, tier_count (set_working b' (set_active a' w)) k = tier_count w k)
    /\ (length a' + length l = length (active_of w))%nat
    /\ (length b' = length (working_of w) + length l)%nat
    /\ (forall k, holds (working_of w) k = true -> holds b' k = true)
    /\ (forall k, holds a' k = true -> holds (active_of w) k = true).
Proof.
  revert w. induction l as [| r l IH]; intros w Hi Hnd Hl.
  - exists (active_of w), (working_of w). cbn [for_each].
    rewrite set_active_same, set_working_same.
    split; [reflexivity |]. split; [exact Hi |]. split; [reflexivity |].
    split; [cbn; lia |]. split; [cbn; lia |]. now split.
  - apply NoDup_cons in Hnd as [Hr Hnd].
    assert (Hin : r ∈ dict_values (active_of w)) by (apply Hl, elem_of_cons; now left).
    apply values_elem in Hin as (k & Hin).
    pose proof Hi as [Hwf H1]. pose proof Hwf as ((Hna & Ha) & (Hnw & Hw) & _).
    destruct (Ha k r Hin) as (x & Hx & Hid).
    pose proof (active_not_long_term w k r x Hi Hin Hx) as Hnl.
    assert (Hka : holds (active_of w) k = true)
      by (apply holds_elem; eapply elem_keys; eassumption).
    assert (Hkw : holds (working_of w) k = false).
    { specialize (H1 k). unfold tier_count in H1. rewrite Hka in H1.
      destruct (holds (working_of w) k); [cbn in H1; lia | reflexivity]. }
    cbn [for_each]. unfold bind at 1. rewrite (move_step r x w Hx). rewrite Hid in *.
    set (w1 := set_working (dict_set (working_of w) k r)
                 (set_active (dict_pop (active_of w) k).2 w)).
    assert (Hi1 : inv w1) by (subst w1; rewrite <- Hid; now apply inv_move; rewrite ?Hid).
    assert (Hc1 : forall k', tier_count w1 k' = tier_count w k').
    { intros k'. unfold tier_count. subst w1.
      change (long_term_of (set_working _ _)) with (long_term_of w).
      change (active_of (set_working _ (set_active ?a _))) with a.
      change (working_of (set_working ?b _)) with b.
      rewrite dict_set_holds.
      destruct (String.eqb_spec k' k) as [-> | Hne].
      - rewrite (holds_pop_eq _ k Hna), Hka, Hkw. reflexivity.
      - now rewrite (holds_pop_ne _ _ _ Hne). }
    destruct (IH w1 Hi1 Hnd) as (a' & b' & E & Hi' & Hc & Hla & Hlb & Hkeep & Hsub).
    { intros r' Hr'. assert (Hin' : r' ∈ dict_values (active_of w))
        by (apply Hl, elem_of_cons; now right).
      apply values_elem in Hin' as (k' & Hin').
      assert (Hne : k' <> k).
      { intros ->. apply Hr.
        assert (Some r' = Some r) as [= ->]; [| exact Hr'].
        rewrite <- (elem_dict_get _ _ _ Hna Hin'). now apply elem_dict_get. }
      apply (elem_values _ k'). subst w1.
      change (active_of (set_working _ (set_active ?a _))) with a.
      now apply dict_pop_elem_ne. }
    exists a', b'. subst w1. rewrite set_working_set_active_twice in *.
    split; [exact E |]. split; [exact Hi' |].
    split; [intros k'; now rewrite Hc, Hc1 |].
    change (active_of (set_working _ (set_active ?a _))) with a in Hla, Hsub.
    change (working_of (set_working ?b _)) with b in Hlb, Hkeep.
    pose proof (dict_pop_length (active_of w) k) as Hpl. rewrite Hka in Hpl.
    pose proof (dict_set_length (working_of w) k r) as Hsl. rewrite Hkw in Hsl.
    split; [cbn [length]; lia |]. split; [cbn [length]; lia |].
    split.
    + intros k' Hk'. apply Hkeep. rewrite dict_set_holds, Hk'. now rewrite orb_true_r.
    + intros k' Hk'. eapply dict_pop_holds_le. apply Hsub. exact Hk'.
Qed.

Lemma slice_from_sublist {A} (l : list A) (k : Z) : sublist (slice_from l k) l.
Proof. unfold slice_from. destruct (0 <=? k); apply sublist_drop. Qed.

(** Computing the keys reads the clock once per segment. *)
Lemma sort_keys_ticks (l : list ref) (w w' : World) (keyed : list (float * ref)) :
  map_m (sort_key now_at) l w = (Ret keyed, w') ->
  w' = with_ticks (ticks w + length l) w /\ map snd keyed = l.
Proof.
  revert w w' keyed. induction l as [| r l IH]; intros w w' keyed.
  - cbn. intros [= <- <-]. split; [| reflexivity].
    rewrite Nat.add_0_r. now destruct w.
  - cbn [map_m]. unfold bind at 1. rewrite sort_key_eq.
    destruct (match heap w !! r with
              | Some x => obind (score_value (now_at (ticks w)) x) (fun k => Ret (k, r))
              | None => Raise DanglingReference
              end) as [kr | e] eqn:Hkr; [| discriminate].
    unfold bind at 1.
    destruct (map_m (sort_key now_at) l (with_ticks (S (ticks w)) w)) as [[ks | e] w1] eqn:E;
      [| discriminate].
    unfold ret. intros [= <- <-]. destruct (IH _ _ _ E) as [-> Hk].
    split.
    + cbn [ticks with_ticks length]. unfold with_ticks. cbn. f_equal. lia.
    + cbn [map]. rewrite Hk. f_equal.
      destruct (heap w !! r) as [x |]; [| discriminate].
      destruct (score_value _ x); [| discriminate]. cbn in Hkr. now injection Hkr as <-.
Qed.

(** What a run of the pass can be: it raises before anything has moved, or
    it moves a duplicate-free selection of the active segments. *)
Lemma optimize_cases (w : World) :
  inv w ->
  (exists e n, _optimize_active_memory now_at w = (Raise e, with_ticks n w))
  \/ (exists l,
        _optimize_active_memory now_at w
        = for_each l move_to_working_step
            (with_ticks (ticks w + length (active_of w)) w)
        /\ NoDup l /\ forall r, r ∈ l -> r ∈ dict_values (active_of w)).
Proof.
  intros Hi. rewrite optimize_eq.
  destruct (sort_keys_spec now_at (dict_values (active_of w)) w)
    as (o & w1 & E & Hh & Hs & _).
  rewrite E. destruct o as [keyed | e].
  - destruct (sort_keys_ticks _ _ _ _ E) as [-> Hk].
    unfold dict_values in *. rewrite length_map in *.
    destruct (keep_count _) as [k | e]; [right | left; eauto].
    exists (slice_from (map snd (sort_desc PrimFloat.ltb keyed)) k).
    split; [reflexivity |].
    assert (Hp : Permutation (map snd (sort_desc PrimFloat.ltb keyed))
                   (map snd (active_of w))).
    { rewrite <- Hk. apply Permutation_map, sort_desc_perm. }
    pose proof (wf_values_NoDup (heap w) (active_of w) (proj1 (proj1 Hi))) as Hnd.
    unfold dict_values in Hnd. rewrite <- Hp in Hnd.
    split; [eapply sublist_NoDup; [exact Hnd | apply slice_from_sublist] |].
    intros r Hr. rewrite <- Hp. eapply elem_of_sublist; [exact Hr | apply slice_from_sublist].
  - left. exists e, (ticks w1).
    f_equal. destruct w as [h n s], w1 as [h1 n1 s1]. cbn in *. now subst.
Qed.

(** The pass loses nothing and promotes nothing, however it ends. *)
Lemma pass_conserves (w : World) :
  inv w ->
  let o := fst (_optimize_active_memory now_at w) in
  let w' := snd (_optimize_active_memory now_at w) in
  (forall k, tier_count w' k = tier_count w k)
  /\ (length (active_of w') + length (working_of w')
      = length (active_of w) + length (working_of w))%nat
  /\ (forall k, holds (working_of w) k = true -> holds (working_of w') k = true)
  /\ (forall k, holds (active_of w') k = true -> holds (active_of w) k = true)
  /\ long_term_of w' = long_term_of w
  /\ heap w' = heap w
  /\ config (self w') = config (self w)
  /\ metrics (self w') = metrics (self w)
  /\ _last_cleanup (self w') = _last_cleanup (self w)
  /\ (forall e, o = Raise e -> memory_manager (self w') = memory_manager (self w)).
Proof.
  intros Hi o w'. subst o w'.
  destruct (optimize_cases w Hi) as [(e & n & ->) | (l & -> & Hnd & Hl)].
  - cbn [fst snd]. now repeat split.
  - set (w0 := with_ticks (ticks w + length (active_of w)) w).
    assert (Hi0 : inv w0).
    { apply (inv_steady w); [exact Hi |]. split; [reflexivity | apply ids_stable_refl]. }
    destruct (move_loop_conserves l w0 Hi0 Hnd Hl)
      as (a' & b' & -> & _ & Hc & Hla & Hlb & Hkeep & Hsub).
    cbn [fst snd].
    change (active_of (set_working _ (set_active ?a _))) with a.
    change (working_of (set_working ?b _)) with b.
    split; [exact Hc |].
    change (active_of w0) with (active_of w) in *.
    change (working_of w0) with (working_of w) in *.
    split; [lia |]. split; [exact Hkeep |]. split; [exact Hsub |].
    do 5 (split; [reflexivity |]). discriminate.
Qed.

(** X15: the optimization pass loses nothing and promotes nothing.  On a
    store that satisfies the store invariant, however the pass ends, each
    id is in as many tiers as before; the active and the working tier
    together hold as many entries as before; what was in the working tier
    is still there and what is in the active tier was there before; the
    long-term tier, every segment object, the configuration, the metrics
    and the time of the last cleanup are untouched.  A pass that raises
    has moved nothing. *)
Theorem optimize_active_conserves (w : World) :
  inv w ->
  let o := fst (_optimize_active_memory now_at w) in
  let w' := snd (_optimize_active_memory now_at w) in
  (forall k, tier_count w' k = tier_count w k)
  /\ (length (active_of w') + length (working_of w')
      = length (active_of w) + length (working_of w))%nat
  /\ (forall k, holds (working_of w) k = true -> holds (working_of w') k = true)
  /\ (forall k, holds (active_of w') k = true -> holds (active_of w) k = true)
  /\ long_term_of w' = long_term_of w
  /\ heap w' = heap w
  /\ config (self w') = config (self w)
  /\ metrics (self w') = metrics (self w)
  /\ _last_cleanup (self w') = _last_cleanup (self w)
  /\ (forall e, o = Raise e -> memory_manager (self w') = memory_manager (self w)).
Proof. exact (pass_conserves w). Qed.

(** *** The pass over segments that were never read *)

Lemma sort_desc_ties {K A : Type} (lt : K -> K -> bool) (l : list (K * A)) :
  (forall a b, In a l -> In b l -> lt (fst a) (fst b) = false) ->
  sort_desc lt l = l.
Proof.
  induction l as [| x l IH]; intros H; [reflexivity |].
  cbn [sort_desc]. rewrite IH by (intros a b Ha Hb; apply H; now right).
  destruct l as [| y l]; [reflexivity |]. cbn [insert_desc].
  rewrite H; [reflexivity | now left | right; now left].
Qed.

Lemma sort_keys_unread (l : list ref) (w : World) :
  (forall r, r ∈ l ->
     exists x, heap w !! r = Some x /\ access_count x = 0
               /\ forall n, (ticks w <= n)%nat -> timestamp x <= now_at n) ->
  exists keyed,
    map_m (sort_key now_at) l w = (Ret keyed, with_ticks (ticks w + length l) w)
    /\ map snd keyed = l
    /\ forall p, In p keyed -> exists q, fst p = PrimFloat.mul q 0%float.
Proof.
  revert w. induction l as [| r l IH]; intros w Hl.
  - exists []. cbn. rewrite Nat.add_0_r. split; [now destruct w |]. now split.
  - destruct (Hl r) as (x & Hx & Hac & Ht); [apply elem_of_cons; now left |].
    destruct (score_value_unread (now_at (ticks w)) x) as (q & Hq);
      [apply decay_defined_later, Ht; lia | exact Hac |].
    destruct (IH (with_ticks (S (ticks w)) w)) as (keyed & E & Hk & Hz).
    { intros r' Hr'. destruct (Hl r') as (x' & Hx' & Hac' & Ht'); [apply elem_of_cons; now right |].
      exists x'. split; [exact Hx' |]. split; [exact Hac' |].
      intros n Hn. apply Ht'. cbn in Hn. lia. }
    exists ((PrimFloat.mul q 0%float, r) :: keyed).
    cbn [map_m]. unfold bind at 1. rewrite sort_key_eq, Hx, Hq. cbn [obind].
    unfold bind at 1. rewrite E. unfold ret.
    split; [| split].
    + f_equal. unfold with_ticks. cbn. f_equal. lia.
    + cbn. now rewrite Hk.
    + intros p [<- | Hp]; [now exists q | now apply Hz].
Qed.

(** Moving the entries [q] at the end of the active tier, in their order. *)
Lemma move_loop_suffix (q p : dict) (w : World) :
  active_of w = p ++ q ->
  NoDup (dict_keys (p ++ q)) ->
  (forall k r, (k, r) ∈ q ->
     exists x, heap w !! r = Some x /\ id x = k /\ holds (working_of w) k = false) ->
  for_each (dict_values q) move_to_working_step w
  = (Ret tt, set_working (working_of w ++ q) (set_active p w)).
Proof.
  revert w. induction q as [| [k r] q IH]; intros w Ha Hnd Hq.
  - cbn. rewrite !app_nil_r in *. rewrite <- Ha. now rewrite set_active_same, set_working_same.
  - destruct (Hq k r) as (x & Hx & Hid & Hnw); [apply elem_of_cons; now left |].
    cbn [dict_values map snd for_each]. unfold bind at 1.
    rewrite (move_step r x w Hx), Hid, Ha.
    assert (Hk : k ∉ dict_keys p).
    { unfold dict_keys in Hnd. rewrite fmap_app in Hnd.
      apply NoDup_app in Hnd as (_ & Hd & _). intros Hin. apply (Hd k Hin).
      cbn. apply elem_of_cons. now left. }
    rewrite (dict_pop_middle p q k r Hk). cbn [snd].
    rewrite (dict_set_fresh _ _ _ Hnw). fold (dict_values q).
    assert (Hnd' : NoDup (dict_keys (p ++ q))).
    { unfold dict_keys in *. rewrite fmap_app in *. cbn in Hnd.
      apply NoDup_app in Hnd as (H1 & H2 & H3). apply NoDup_cons in H3 as [_ H3].
      apply NoDup_app. repeat split; try assumption.
      intros y Hy Hy'. apply (H2 y Hy). apply elem_of_cons. now right. }
    rewrite IH.
    + rewrite set_working_set_active_twice.
      change (working_of (set_working ?b _)) with b. now rewrite <- app_assoc.
    + reflexivity.
    + exact Hnd'.
    + intros k' r' Hin. destruct (Hq k' r') as (x' & Hx' & Hid' & Hnw');
        [apply elem_of_cons; now right |].
      exists x'. split; [exact Hx' |]. split; [exact Hid' |].
      change (working_of (set_working ?b _)) with b.
      unfold holds in *. unfold dict_keys in Hnd. rewrite fmap_app in Hnd. cbn in Hnd.
      apply NoDup_app in Hnd as (_ & _ & H3). apply NoDup_cons in H3 as [H3 _].
      assert (Hne : k' <> k).
      { intros ->. apply H3. apply (elem_keys q k r'). exact Hin. }
      apply holds_false. fold (holds (working_of w ++ [(k, r)]) k').
      rewrite <- (dict_set_fresh _ _ _ Hnw). apply holds_false.
      rewrite dict_set_holds. apply String.eqb_neq in Hne. now rewrite Hne.
Qed.

(** X16: the pass over an active tier of segments that were never read
    (only [compress_context] reads by id).  All their scores are products
    with the access count zero, so no score is below another and the stable
    sort keeps the order of insertion: the pass keeps the first
    [int(n * 0.6)] entries of the active tier and appends the others, in
    their order, to the working tier; relevance and age play no part.  The
    clock is read once per active segment. *)
Theorem optimize_active_unread (w : World) :
  inv w ->
  Z.of_nat (length (active_of w)) < 2 ^ 63 ->
  (forall k r, (k, r) ∈ active_of w ->
     exists x, heap w !! r = Some x /\ access_count x = 0
               /\ forall n, (ticks w <= n)%nat -> timestamp x <= now_at n) ->
  exists kc,
    keep_count (Z.of_nat (length (active_of w))) = Ret kc
    /\ 0 <= kc
    /\ _optimize_active_memory now_at w
       = (Ret tt,
          set_working (working_of w ++ drop (Z.to_nat kc) (active_of w))
            (set_active (take (Z.to_nat kc) (active_of w))
               (with_ticks (ticks w + length (active_of w)) w))).
Proof.
  intros Hi Hlen Hun.
  destruct (keep_count_nonneg (Z.of_nat (length (active_of w))) ltac:(lia))
    as (kc & Hkc & Hnn).
  exists kc. split; [exact Hkc |]. split; [exact Hnn |].
  destruct (sort_keys_unread (dict_values (active_of w)) w) as (keyed & E & Hk & Hz).
  { intros r Hr. apply values_elem in Hr as (k & Hin). now apply (Hun k). }
  rewrite optimize_eq, E.
  assert (Hlk : length keyed = length (active_of w)).
  { rewrite <- (length_map snd keyed), Hk. apply length_map. }
  rewrite Hlk, Hkc, sort_desc_ties, Hk.
  2:{ intros a b Ha Hb. destruct (Hz a Ha) as (qa & ->), (Hz b Hb) as (qb & ->).
      apply ltb_mul_zero. }
  unfold slice_from. rewrite (proj2 (Z.leb_le 0 kc) Hnn).
  unfold dict_values. rewrite skipn_map. fold (dict_values (drop (Z.to_nat kc) (active_of w))).
  unfold dict_values at 1. rewrite length_map.
  set (w0 := with_ticks (ticks w + length (active_of w)) w).
  pose proof Hi as [((Hna & Ha) & _) H1].
  apply (move_loop_suffix (drop (Z.to_nat kc) (active_of w))
           (take (Z.to_nat kc) (active_of w)) w0).
  - change (active_of w0) with (active_of w). now rewrite take_drop.
  - now rewrite take_drop.
  - intros k r Hin.
    assert (Hin' : (k, r) ∈ active_of w)
      by (eapply elem_of_sublist; [exact Hin | apply sublist_drop]).
    destruct (Ha k r Hin') as (x & Hx & Hid). exists x.
    split; [exact Hx |]. split; [exact Hid |].
    change (working_of w0) with (working_of w).
    specialize (H1 k). unfold tier_count in H1.
    assert (Hka : holds (active_of w) k = true)
      by (apply holds_elem; eapply elem_keys; eassumption).
    rewrite Hka in H1. destruct (holds (working_of w) k); [cbn in H1; lia | reflexivity].
Qed.

End Pass.

(** ** Ingestion at the edges *)

Section IngestionEdges.

Variable now_at : nat -> datetime.
Variable md5_hexdigest : string -> datetime -> string.

(** The check of the budget on a store whose active references are live. *)
Lemma maybe_optimize_cases (w : World) :
  wf_dict (heap w) (active_of w) ->
  _maybe_optimize_memory now_at w
  = if max_context_size (config (self w))
       <? total_length (heap w) (dict_values (active_of w))
    then _optimize_active_memory now_at w
    else (Ret tt, w).
Proof.
  intros Hwf. apply maybe_optimize_eq. apply sum_len_total.
  intros r Hr. now apply (wf_dict_live _ (active_of w)).
Qed.

(** The store after the new segment has been filed, before the budget is
    checked. *)
Lemma inv_ingested (c : string) (md : option (list (string * string))) (w : World) :
  inv w ->
  tier_count w (md5_hexdigest c (now_at (ticks w))) = 0%nat ->
  let k := md5_hexdigest c (now_at (ticks w)) in
  let w0 := set_active (dict_set (active_of w) k (length (heap w)))
              (with_heap (heap w ++ [new_segment k c md (now_at (S (ticks w)))])
                 (with_ticks (S (S (ticks w))) w)) in
  inv w0
  /\ tier_count w0 k = 1%nat
  /\ (forall k', k' <> k -> tier_count w0 k' = tier_count w k')
  /\ stored_count w0 = stored_count w + 1.
Proof.
  intros Hi Hfresh k w0. subst k.
  set (k := md5_hexdigest c (now_at (ticks w))) in *.
  set (x := new_segment k c md (now_at (S (ticks w)))) in *.
  set (w1 := with_heap (heap w ++ [x]) (with_ticks (S (S (ticks w))) w)) in *.
  pose proof Hfresh as Hf. apply count_zero in Hf as (Hna & Hnw & Hnl).
  assert (Hi1 : inv w1).
  { apply (inv_steady w); [exact Hi |]. split; [reflexivity | apply ids_stable_app]. }
  assert (Hx : heap w1 !! length (heap w) = Some x)
    by (apply list_lookup_middle; reflexivity).
  pose proof (inv_store_active w1 (length (heap w)) x Hi1 Hx Hnw Hnl) as Hi0.
  change (id x) with k in Hi0. change (active_of w1) with (active_of w) in Hi0.
  split; [exact Hi0 |].
  assert (Hh : forall k', holds (active_of w0) k' = String.eqb k' k || holds (active_of w) k').
  { intros k'. subst w0. change (active_of (set_active ?a _)) with a. apply dict_set_holds. }
  unfold tier_count, stored_count.
  change (working_of w0) with (working_of w). change (long_term_of w0) with (long_term_of w).
  split; [rewrite Hh, String.eqb_refl, Hnw, Hnl; reflexivity |].
  split.
  - intros k' Hne. rewrite Hh. apply String.eqb_neq in Hne. now rewrite Hne.
  - subst w0. change (active_of (set_active ?a _)) with a.
    rewrite dict_set_length, Hna. lia.
Qed.

(** What an ingestion that returns has done to the tiers and the count. *)
Lemma add_context_effect (c : string) (md : option (list (string * string)))
    (w w1 : World) (k' : string) :
  inv w ->
  tier_count w (md5_hexdigest c (now_at (ticks w))) = 0%nat ->
  add_context now_at md5_hexdigest c md w = (Ret k', w1) ->
  k' = md5_hexdigest c (now_at (ticks w))
  /\ inv w1
  /\ tier_count w1 k' = 1%nat
  /\ (forall k, k <> k' -> tier_count w1 k = tier_count w k)
  /\ stored_count w1 = stored_count w + 1
  /\ total_segments (metrics (self w1)) = total_segments (metrics (self w)) + 1
  /\ active_segments (metrics (self w1)) = Z.of_nat (length (active_of w1)).
Proof.
  intros Hi Hfresh. rewrite add_context_eq.
  destruct (inv_ingested c md w Hi Hfresh) as (Hi0 & Hk0 & Ho0 & Hs0).
  set (k := md5_hexdigest c (now_at (ticks w))) in *.
  set (w0 := set_active _ _) in *.
  rewrite (maybe_optimize_cases w0 (proj1 (proj1 Hi0))).
  assert (Hpass : forall o w2,
            (if max_context_size (config (self w0))
                <? total_length (heap w0) (dict_values (active_of w0))
             then _optimize_active_memory now_at w0 else (Ret tt, w0)) = (o, w2) ->
            inv w2 /\ (forall k, tier_count w2 k = tier_count w0 k)
            /\ stored_count w2 = stored_count w0
            /\ metrics (self w2) = metrics (self w0)).
  { intros o w2. destruct (_ <? _).
    - intros E. pose proof (pass_conserves now_at w0 Hi0) as H. rewrite E in H.
      cbn [fst snd] in H. destruct H as (Hc & Hl & _ & _ & Hlt & _ & _ & Hm & _).
      split; [| split; [exact Hc | split; [| exact Hm]]].
      + pose proof (preserves_optimize_active now_at w0 Hi0) as H. now rewrite E in H.
      + unfold stored_count. rewrite Hlt. lia.
    - intros [= <- <-]. split; [exact Hi0 | now repeat split]. }
  destruct (if _ <? _ then _ else _) as [[[] | e] w2] eqn:E; [| discriminate].
  destruct (Hpass _ _ eq_refl) as (Hi2 & Hc2 & Hs2 & Hm2).
  intros [= <- <-]. split; [reflexivity |].
  split.
  { apply (inv_steady w2); [exact Hi2 |]. split; [reflexivity | apply ids_stable_refl]. }
  change (tier_count (count_added w2)) with (tier_count w2).
  change (stored_count (count_added w2)) with (stored_count w2).
  split; [now rewrite Hc2 |]. split; [intros k0 Hne; rewrite Hc2; now apply Ho0 |].
  split; [lia |]. cbn. rewrite Hm2. split; [reflexivity |].
  change (active_of (count_added w2)) with (active_of w2). unfold dict_values.
  now rewrite length_map.
Qed.

(** X17: ingestion and removal as a round trip.  On a store that
    satisfies the store invariant, an [add_context] that returns (its id
    being new) has put the id into exactly one tier, the active or, if the
    ingestion triggered a pass that moved it, the working one; the
    [remove_context] of that id then returns [True], and afterwards every
    id is in as many tiers as before the ingestion and [total_segments] is
    back at its value. *)
Theorem add_then_remove (c : string) (md : option (list (string * string)))
    (w w1 : World) (k : string) :
  inv w ->
  tier_count w (md5_hexdigest c (now_at (ticks w))) = 0%nat ->
  add_context now_at md5_hexdigest c md w = (Ret k, w1) ->
  tier_count w1 k = 1%nat
  /\ holds (long_term_of w1) k = false
  /\ exists w2,
       remove_context k w1 = (Ret true, w2)
       /\ (forall k', tier_count w2 k' = tier_count w k')
       /\ total_segments (metrics (self w2)) = total_segments (metrics (self w)).
Proof.
  intros Hi Hfresh Hadd.
  destruct (add_context_effect c md w w1 k Hi Hfresh Hadd)
    as (-> & Hi1 & Hk1 & Ho1 & _ & Ht1 & _).
  set (k := md5_hexdigest c (now_at (ticks w))) in *.
  split; [exact Hk1 |].
  split.
  { (* the long-term tier has not changed since before the ingestion *)
    rewrite add_context_eq in Hadd. fold k in Hadd.
    set (w0 := set_active _ _) in Hadd.
    destruct (inv_ingested c md w Hi Hfresh) as (Hi0 & _).
    rewrite (maybe_optimize_cases w0 (proj1 (proj1 Hi0))) in Hadd.
    apply count_zero in Hfresh as (_ & _ & Hnl).
    destruct (_ <? _).
    - pose proof (pass_conserves now_at w0 Hi0) as H.
      destruct (_optimize_active_memory now_at w0) as [[[] | e] w2]; [| discriminate].
      cbn [fst snd] in H. destruct H as (_ & _ & _ & _ & Hlt & _).
      injection Hadd as <-. change (long_term_of (count_added w2)) with (long_term_of w2).
      now rewrite Hlt.
    - injection Hadd as <-. exact Hnl. }
  destruct (remove_context_effect k w1 Hi1) as (w2 & E & Hk2 & Ho2 & _ & _ & _ & Ht2).
  rewrite Hk1 in E. exists w2. split; [exact E |]. split.
  - intros k'. destruct (String.eqb_spec k' k) as [-> | Hne]; [now rewrite Hk2, Hfresh |].
    rewrite <- (Ho1 k' Hne). unfold tier_count.
    destruct (Ho2 k' Hne) as (-> & -> & ->). reflexivity.
  - destruct (Ht2 Hk1) as [-> _]. lia.
Qed.

(** X18: a single segment larger than the whole budget.  Ingested into a
    new manager (the clock not going back between its creation and its
    scoring), it triggers the pass, and the pass keeps [int(1 * 0.6) = 0]
    segments: the new segment goes to the working tier at once, the active
    tier is left empty and [active_segments] is 0. *)
Theorem add_context_oversized (cfg : ContextConfig) (c : string)
    (md : option (list (string * string))) :
  max_context_size cfg < PyStr.len c ->
  now_at 2 <= now_at 3 ->
  exists w',
    add_context now_at md5_hexdigest c md (new now_at cfg)
    = (Ret (md5_hexdigest c (now_at 1)), w')
    /\ active_of w' = []
    /\ working_of w' = [(md5_hexdigest c (now_at 1), 0%nat)]
    /\ long_term_of w' = []
    /\ total_segments (metrics (self w')) = 1
    /\ active_segments (metrics (self w')) = 0.
Proof.
  intros Hbig Hclock. rewrite add_context_eq.
  set (k := md5_hexdigest c (now_at 1)).
  set (x := new_segment k c md (now_at 2)).
  set (w0 := set_active [(k, 0%nat)] (with_heap [x] (with_ticks 3 (new now_at cfg)))).
  change (_maybe_optimize_memory now_at _) with (_maybe_optimize_memory now_at w0).
  assert (S1 : sum_len (dict_values (active_of w0)) w0 = (Ret (PyStr.len c + 0), w0))
    by (apply (sum_len_cons 0%nat [] x 0 w0); reflexivity).
  rewrite (maybe_optimize_eq now_at w0 _ S1).
  change (max_context_size (config (self w0))) with (max_context_size cfg).
  rewrite (proj2 (Z.ltb_lt _ _)) by lia.
  rewrite (optimize_single now_at w0 k 0%nat x eq_refl eq_refl).
  destruct (score_value_unread (now_at (ticks w0)) x) as (q & ->);
    [apply decay_defined_later; exact Hclock | reflexivity |].
  eexists. split; [reflexivity |].
  cbn. rewrite String.eqb_refl. cbn. now repeat split.
Qed.

(** X19: ids are not checked for being new.  When a second ingestion
    generates the id of the first (the same content within one reading of
    the clock, or two inputs with one digest), and either content alone
    fits the budget, the second segment silently takes the place of the
    first in the active tier: the tier holds one entry, the first object is
    no longer reachable from any tier, yet [total_segments] says 2. *)
Theorem add_context_same_id (cfg : ContextConfig) (c1 c2 : string)
    (md1 md2 : option (list (string * string))) :
  md5_hexdigest c2 (now_at 3) = md5_hexdigest c1 (now_at 1) ->
  PyStr.len c1 <= max_context_size cfg ->
  PyStr.len c2 <= max_context_size cfg ->
  exists w1 w2,
    add_context now_at md5_hexdigest c1 md1 (new now_at cfg)
    = (Ret (md5_hexdigest c1 (now_at 1)), w1)
    /\ add_context now_at md5_hexdigest c2 md2 w1
       = (Ret (md5_hexdigest c1 (now_at 1)), w2)
    /\ active_of w2 = [(md5_hexdigest c1 (now_at 1), 1%nat)]
    /\ working_of w2 = [] /\ long_term_of w2 = []
    /\ heap w2 !! 1%nat
       = Some (new_segment (md5_hexdigest c1 (now_at 1)) c2 md2 (now_at 4))
    /\ total_segments (metrics (self w2)) = 2
    /\ active_segments (metrics (self w2)) = 1.
Proof.
  intros Hsame L1 L2.
  set (k := md5_hexdigest c1 (now_at 1)) in *.
  set (x1 := new_segment k c1 md1 (now_at 2)).
  set (x2 := new_segment k c2 md2 (now_at 4)).
  set (u1 := set_active [(k, 0%nat)] (with_heap [x1] (with_ticks 3 (new now_at cfg)))).
  set (u2 := set_active [(k, 1%nat)]
               (with_heap [x1; x2] (with_ticks 5 (count_added u1)))).
  assert (E1 : add_context now_at md5_hexdigest c1 md1 (new now_at cfg)
               = (Ret k, count_added u1)).
  { rewrite add_context_eq.
    change (_maybe_optimize_memory now_at _) with (_maybe_optimize_memory now_at u1).
    assert (S1 : sum_len (dict_values (active_of u1)) u1 = (Ret (PyStr.len c1 + 0), u1))
      by (apply (sum_len_cons 0%nat [] x1 0 u1); reflexivity).
    rewrite (maybe_optimize_eq now_at u1 _ S1).
    change (max_context_size (config (self u1))) with (max_context_size cfg).
    rewrite (proj2 (Z.ltb_ge _ _)) by lia. reflexivity. }
  assert (E2 : add_context now_at md5_hexdigest c2 md2 (count_added u1)
               = (Ret k, count_added u2)).
  { rewrite add_context_eq.
    change (ticks (count_added u1)) with 3%nat.
    change (heap (count_added u1)) with [x1].
    change (active_of (count_added u1)) with [(k, 0%nat)].
    rewrite Hsame. cbn [length app dict_set]. rewrite String.eqb_refl.
    change (_maybe_optimize_memory now_at _) with (_maybe_optimize_memory now_at u2).
    assert (S2 : sum_len (dict_values (active_of u2)) u2 = (Ret (PyStr.len c2 + 0), u2))
      by (apply (sum_len_cons 1%nat [] x2 0 u2); reflexivity).
    rewrite (maybe_optimize_eq now_at u2 _ S2).
    change (max_context_size (config (self u2))) with (max_context_size cfg).
    rewrite (proj2 (Z.ltb_ge _ _)) by lia. reflexivity. }
  exists (count_added u1), (count_added u2).
  split; [exact E1 |]. split; [exact E2 |]. now repeat split.
Qed.

End IngestionEdges.

(** ** When the pass fails *)

Section Failures.

Variable now_at : nat -> datetime.
Variable md5_hexdigest : string -> datetime -> string.

(** One way [score_segment] fails: the clock shows exactly one hour less
    than the segment's timestamp, so [1.0 + time_decay] is zero. *)
Lemma score_value_hour_back (t : datetime) (x : ContextSegment) :
  timestamp x - t = 3600000000 -> score_value t x = Raise ZeroDivisionError.
Proof.
  intros H. unfold score_value. replace (t - timestamp x) with (-3600000000) by lia.
  reflexivity.
Qed.

(** The other way: the access count is too large for a float. *)
Lemma score_value_raises (t : datetime) (x : ContextSegment) (e : exn) :
  score_value t x = Raise e -> e = ZeroDivisionError \/ e = OverflowError.
Proof.
  rewrite score_value_eq. destruct (PrimFloat.eqb _ _); [intros [= <-]; now left |].
  destruct (float_of_int (access_count x)) as [n | e'] eqn:E; cbn [obind]; intros [= <-].
  right. exact (float_of_int_raises _ _ E).
Qed.

Lemma sort_keys_raise (l : list ref) (w w' : World) (e : exn) :
  (forall r, r ∈ l -> is_Some (heap w !! r)) ->
  map_m (sort_key now_at) l w = (Raise e, w') ->
  e = ZeroDivisionError \/ e = OverflowError.
Proof.
  revert w. induction l as [| r l IH]; intros w Hl; [discriminate |].
  destruct (Hl r) as (x & Hx); [apply elem_of_cons; now left |].
  cbn [map_m]. unfold bind at 1. rewrite sort_key_eq, Hx.
  destruct (score_value (now_at (ticks w)) x) as [v | e'] eqn:Hs; cbn [obind].
  - unfold bind at 1.
    destruct (map_m (sort_key now_at) l (with_ticks (S (ticks w)) w)) as [[ks | e'] w1] eqn:E;
      [discriminate |].
    intros [= <- <-]. apply (IH (with_ticks (S (ticks w)) w)) ; [| exact E].
    intros r' Hr'. apply Hl. apply elem_of_cons. now right.
  - intros [= <- <-]. exact (score_value_raises _ _ _ Hs).
Qed.

(** X20: the pass divides by zero when the clock shows exactly one hour
    less than the timestamp of a segment it scores (a clock set back by an
    hour).  For the first active segment in that position the pass, and
    [optimize] with it, raise [ZeroDivisionError] after one reading of the
    clock; no segment has moved and nothing else has changed. *)
Theorem pass_division_by_zero (w : World) (k : string) (r : ref) (d : dict)
    (x : ContextSegment) :
  active_of w = (k, r) :: d ->
  heap w !! r = Some x ->
  timestamp x - now_at (ticks w) = 3600000000 ->
  _optimize_active_memory now_at w
  = (Raise ZeroDivisionError, with_ticks (S (ticks w)) w)
  /\ optimize now_at w = (Raise ZeroDivisionError, with_ticks (S (ticks w)) w).
Proof.
  intros Ha Hx Ht.
  assert (E : _optimize_active_memory now_at w
              = (Raise ZeroDivisionError, with_ticks (S (ticks w)) w)).
  { rewrite optimize_eq, Ha. cbn [dict_values map snd map_m].
    unfold bind at 1. rewrite sort_key_eq, Hx, (score_value_hour_back _ _ Ht). reflexivity. }
  split; [exact E |]. unfold optimize. unfold bind at 1. now rewrite E.
Qed.

(** X21: [add_context] is not atomic.  On a store that satisfies the store
    invariant (fewer than [2^63] active segments, the id new), an ingestion
    can raise only from the scoring of the pass it triggers:
    [ZeroDivisionError] (the clock one hour behind a timestamp) or
    [OverflowError] (an access count beyond the range of a float).  When
    it does, the new segment has already been created and filed in the
    active tier, no segment has moved, but the metrics have not been
    updated and no id has been returned. *)
Theorem add_context_raise_keeps_segment (c : string)
    (md : option (list (string * string))) (w w1 : World) (e : exn) :
  inv w ->
  tier_count w (md5_hexdigest c (now_at (ticks w))) = 0%nat ->
  Z.of_nat (length (active_of w)) + 1 < 2 ^ 63 ->
  add_context now_at md5_hexdigest c md w = (Raise e, w1) ->
  (e = ZeroDivisionError \/ e = OverflowError)
  /\ active_of w1
     = active_of w ++ [(md5_hexdigest c (now_at (ticks w)), length (heap w))]
  /\ working_of w1 = working_of w
  /\ long_term_of w1 = long_term_of w
  /\ heap w1
     = heap w ++ [new_segment (md5_hexdigest c (now_at (ticks w))) c md
                    (now_at (S (ticks w)))]
  /\ metrics (self w1) = metrics (self w).
Proof.
  intros Hi Hfresh Hlen. rewrite add_context_eq.
  destruct (inv_ingested now_at md5_hexdigest c md w Hi Hfresh) as (Hi0 & _).
  set (k := md5_hexdigest c (now_at (ticks w))) in *.
  pose proof Hfresh as Hf. apply count_zero in Hf as (Hna & _ & _).
  rewrite (dict_set_fresh _ _ _ Hna) in *.
  set (w0 := set_active _ _) in *.
  rewrite (maybe_optimize_cases now_at w0 (proj1 (proj1 Hi0))).
  destruct (_ <? _); [| discriminate].
  rewrite optimize_eq.
  destruct (map_m (sort_key now_at) (dict_values (active_of w0)) w0)
    as [[keyed | e'] w2] eqn:E.
  - destruct (sort_keys_ticks now_at _ _ _ _ E) as [-> Hk].
    assert (Hlk : Z.of_nat (length keyed) = Z.of_nat (length (active_of w)) + 1).
    { rewrite <- (length_map snd keyed), Hk. unfold dict_values. rewrite length_map.
      subst w0. change (active_of (set_active ?a _)) with a. rewrite length_app. cbn. lia. }
    destruct (keep_count_nonneg (Z.of_nat (length keyed)) ltac:(lia)) as (kc & -> & _).
    set (l := slice_from _ kc).
    intros Hloop. exfalso.
    assert (Hl : forall r, r ∈ l -> r ∈ dict_values (active_of w0)).
    { intros r Hr. rewrite <- Hk. subst l.
      assert (Hr' : r ∈ map snd (sort_desc PrimFloat.ltb keyed))
        by (eapply elem_of_sublist; [exact Hr | apply slice_from_sublist]).
      apply list_elem_of_In. apply list_elem_of_In in Hr'.
      apply in_map_iff in Hr' as (kr & <- & Hkr). apply in_map.
      eapply Permutation_in; [apply sort_desc_perm | exact Hkr]. }
    assert (Hnd : NoDup l).
    { subst l. eapply sublist_NoDup; [| apply slice_from_sublist].
      assert (Hp : Permutation (map snd (sort_desc PrimFloat.ltb keyed))
                     (dict_values (active_of w0))).
      { rewrite <- Hk. apply Permutation_map, sort_desc_perm. }
      rewrite Hp. apply (wf_values_NoDup (heap w0)). apply Hi0. }
    set (w3 := with_ticks _ w0) in Hloop.
    assert (Hi3 : inv w3).
    { apply (inv_steady w0); [exact Hi0 |]. split; [reflexivity | apply ids_stable_refl]. }
    destruct (move_loop_conserves l w3 Hi3 Hnd Hl) as (a' & b' & El & _).
    rewrite El in Hloop. discriminate.
  - intros [= <- <-].
    destruct (sort_keys_spec now_at (dict_values (active_of w0)) w0)
      as (o & w2' & E' & Hh & Hs & _).
    rewrite E in E'. injection E' as <- <-.
    split.
    { apply (sort_keys_raise _ _ _ _ (fun r Hr => wf_dict_live _ _ r (proj1 (proj1 Hi0)) Hr) E). }
    unfold active_of, working_of, long_term_of. rewrite Hs, Hh. now repeat split.
Qed.

End Failures.

(** ** The pass, run twice *)

Section TwicePass.

Variable now_at : nat -> datetime.

Lemma length_slice_from {A} (l : list A) (k : Z) :
  0 <= k -> Z.of_nat (length (slice_from l k)) = Z.of_nat (length l) - Z.min k (Z.of_nat (length l)).
Proof.
  intros Hk. unfold slice_from. rewrite (proj2 (Z.leb_le 0 k) Hk), length_skipn. lia.
Qed.

(** How a pass over fewer than [2^63] active segments ends: it raises
    from the scoring, with nothing moved, or it returns and has kept
    [int(n * 0.6)] of the [n] active segments. *)
Lemma pass_count (w : World) :
  inv w ->
  Z.of_nat (length (active_of w)) < 2 ^ 63 ->
  match _optimize_active_memory now_at w with
  | (Ret _, w') =>
      exists kc,
        keep_count (Z.of_nat (length (active_of w))) = Ret kc
        /\ Z.of_nat (length (active_of w')) = Z.min kc (Z.of_nat (length (active_of w)))
  | (Raise e, w') =>
      (e = ZeroDivisionError \/ e = OverflowError)
      /\ memory_manager (self w') = memory_manager (self w)
  end.
Proof.
  intros Hi Hlen. rewrite optimize_eq.
  destruct (map_m (sort_key now_at) (dict_values (active_of w)) w)
    as [[keyed | e] w0] eqn:E.
  - destruct (sort_keys_ticks now_at _ _ _ _ E) as [-> Hk].
    assert (Hlk : length keyed = length (active_of w)).
    { rewrite <- (length_map snd keyed), Hk. apply length_map. }
    rewrite Hlk.
    destruct (keep_count_nonneg (Z.of_nat (length (active_of w))) ltac:(lia))
      as (kc & -> & Hkc).
    set (l := slice_from _ kc).
    assert (Hp : Permutation (map snd (sort_desc PrimFloat.ltb keyed))
                   (dict_values (active_of w))).
    { rewrite <- Hk. apply Permutation_map, sort_desc_perm. }
    assert (Hl : forall r, r ∈ l -> r ∈ dict_values (active_of w)).
    { intros r Hr. rewrite <- Hp. subst l.
      eapply elem_of_sublist; [exact Hr | apply slice_from_sublist]. }
    assert (Hnd : NoDup l).
    { subst l. eapply sublist_NoDup; [| apply slice_from_sublist].
      rewrite Hp. apply (wf_values_NoDup (heap w)). apply Hi. }
    set (w3 := with_ticks _ w).
    assert (Hi3 : inv w3).
    { apply (inv_steady w); [exact Hi |]. split; [reflexivity | apply ids_stable_refl]. }
    destruct (move_loop_conserves l w3 Hi3 Hnd Hl) as (a' & b' & -> & _ & _ & Hla & _).
    exists kc. split; [reflexivity |].
    change (active_of (set_working b' (set_active a' w3))) with a'.
    change (active_of w3) with (active_of w) in Hla.
    pose proof (length_slice_from (map snd (sort_desc PrimFloat.ltb keyed)) kc Hkc) as Hls.
    fold l in Hls. rewrite length_map, sort_desc_length, Hlk in Hls. lia.
  - destruct (sort_keys_spec now_at (dict_values (active_of w)) w)
      as (o & w2' & E' & Hh & Hs & _).
    rewrite E in E'. injection E' as <- <-.
    split; [| now rewrite Hs].
    apply (sort_keys_raise now_at _ _ _ _
             (fun r Hr => wf_dict_live _ _ r (proj1 (proj1 Hi)) Hr) E).
Qed.

(** C3, as amended.  For a first pass that has completed, the second pass
    leaves the membership of the three tiers as the first left it when the
    active tier held at most one segment before the first.  When it held
    [n >= 2] segments (on a store that satisfies the store invariant,
    [n < 2^53]), the first pass has kept [int(n * 0.6)] of them, at least
    one and fewer than [n]; a second pass that completes applies the split
    again to those [m] and keeps [int(m * 0.6) < m]: it moves further
    segments to the working tier, so the membership differs, and it never
    brings one back, and what leaves the active tier is in the working
    tier; a second pass that raises (from the scoring) has moved nothing. *)
Theorem C3_optimize_twice (w : World) :
  fst (_optimize_active_memory now_at w) = Ret tt ->
  let w1 := snd (_optimize_active_memory now_at w) in
  let w2 := snd (_optimize_active_memory now_at w1) in
  ((length (active_of w) <= 1)%nat ->
   memory_manager (self w2) = memory_manager (self w1))
  /\ (inv w ->
      (2 <= length (active_of w))%nat ->
      Z.of_nat (length (active_of w)) < 2 ^ 53 ->
      exists m,
        keep_count (Z.of_nat (length (active_of w))) = Ret m
        /\ Z.of_nat (length (active_of w1)) = m
        /\ 1 <= m < Z.of_nat (length (active_of w))
        /\ match fst (_optimize_active_memory now_at w1) with
           | Ret _ =>
               exists m',
                 keep_count m = Ret m'
                 /\ Z.of_nat (length (active_of w2)) = m'
                 /\ 0 <= m' < m
                 /\ (forall k, holds (active_of w2) k = true ->
                               holds (active_of w1) k = true)
                 /\ (forall k, holds (working_of w1) k = true ->
                               holds (working_of w2) k = true)
                 /\ (forall k, holds (active_of w1) k = true ->
                               holds (active_of w2) k = false ->
                               holds (working_of w2) k = true)
                 /\ memory_manager (self w2) <> memory_manager (self w1)
           | Raise e =>
               (e = ZeroDivisionError \/ e = OverflowError)
               /\ memory_manager (self w2) = memory_manager (self w1)
           end).
Proof.
  intros Hret w1 w2. split.
  { intros Hlen. now apply optimize_twice_small. }
  intros Hi Hn Hlt. subst w2 w1.
  pose proof (pass_count w Hi ltac:(lia)) as H1.
  pose proof (preserves_optimize_active now_at w Hi) as Hi1.
  destruct (_optimize_active_memory now_at w) as [[[] | e] w1]; [| discriminate].
  cbn [snd] in *. destruct H1 as (m & Em & Hm).
  destruct (keep_count_bounds (Z.of_nat (length (active_of w))) ltac:(lia))
    as (m0 & Em0 & Hb & Hb2).
  rewrite Em in Em0. injection Em0 as <-.
  exists m. split; [exact Em |]. split; [lia |]. split; [lia |].
  pose proof (pass_count w1 Hi1 ltac:(lia)) as H2.
  pose proof (pass_conserves now_at w1 Hi1) as Hc. cbv zeta in Hc.
  destruct (_optimize_active_memory now_at w1) as [[[] | e] w2]; cbn [fst snd] in *.
  - destruct H2 as (m' & Em' & Hm').
    destruct (keep_count_bounds (Z.of_nat (length (active_of w1))) ltac:(lia))
      as (m0 & Em0 & Hb' & _).
    rewrite Em' in Em0. injection Em0 as <-.
    destruct Hc as (Hcount & _ & Hw & Ha & Hlong & _).
    exists m'. replace m with (Z.of_nat (length (active_of w1))) by lia.
    split; [exact Em' |]. split; [lia |]. split; [lia |].
    split; [exact Ha |]. split; [exact Hw |].
    split.
    { intros k H1k H2k. specialize (Hcount k). unfold tier_count in Hcount.
      rewrite Hlong, H1k, H2k in Hcount.
      destruct (holds (working_of w2) k); [reflexivity |].
      destruct (holds (working_of w1) k), (holds (long_term_of w1) k); cbn in Hcount; lia. }
    intros Heq. apply (f_equal (fun mm => length (active_memory mm))) in Heq.
    unfold active_of in *. lia.
  - exact H2.
Qed.

End TwicePass.

(** ** What a compression leaves alone *)

Section CompressContext.

Lemma locate_wf (w : World) (k : string) (r : ref) (t : string) :
  wf w -> locate w k = Some (r, t) -> exists x, heap w !! r = Some x /\ id x = k.
Proof.
  intros ((_ & Ha) & (_ & Hw) & (_ & Hl)) Hloc. unfold locate in Hloc.
  destruct (dict_get (active_of w) k) as [r0 |] eqn:Ga.
  { injection Hloc as -> _. apply Ha. now apply dict_get_elem. }
  destruct (dict_get (working_of w) k) as [r0 |] eqn:Gw.
  { injection Hloc as -> _. apply Hw. now apply dict_get_elem. }
  destruct (dict_get (long_term_of w) k) as [r0 |] eqn:Gl; [| discriminate].
  injection Hloc as -> _. apply Hl. now apply dict_get_elem.
Qed.

Lemma with_self_same (w : World) (h : list ContextSegment) :
  with_self (with_memory_manager (memory_manager (self w)) (self w)) (with_heap h w)
  = with_heap h w.
Proof. destruct w as [h0 n [c m me t]]. reflexivity. Qed.

(** The three ways a [compress_context] on a well-formed store can go. *)
Lemma compress_context_cases (k : string) (w : World) :
  wf w ->
  (locate w k = None /\ compress_context k w = (Ret false, w))
  \/ exists r t x,
       locate w k = Some (r, t) /\ heap w !! r = Some x
       /\ compress_context k w
          = match BasicCompressionEngine.compress (content x)
                    (compression_target_ratio (config (self w))) with
            | Ret c => (Ret true, with_heap (<[r := compressed c x]> (heap w)) w)
            | Raise e => (Raise e, with_heap (<[r := touched x]> (heap w)) w)
            end.
Proof.
  intros Hwf. destruct (locate w k) as [[r t] |] eqn:Hloc.
  - right. destruct (locate_wf w k r t Hwf Hloc) as (x & Hx & _).
    exists r, t, x. split; [reflexivity |]. split; [exact Hx |].
    rewrite (compress_context_found k w r t x Hloc Hx).
    destruct (BasicCompressionEngine.compress _ _) as [c | e]; [| reflexivity].
    rewrite (stored_same w k r t x Hwf Hloc Hx). now rewrite with_self_same.
  - left. split; [reflexivity |].
    unfold compress_context, bind. now rewrite find_segment_all, Hloc.
Qed.

(** X22: what [compress_context] leaves alone, on a well-formed store and
    whatever its outcome.  The three tiers (the segment stays in its tier
    and at its place), the configuration, the metrics and the clock are
    untouched, and so is every segment but the one found.  Of that one only
    the content, the compression ratio and the access count can change, and
    the access is counted even when the engine raises (a configured ratio
    that is NaN or infinite): the call then fails with the segment's
    content and ratio as they were and its [access_count] one higher. *)
Theorem compress_context_frame (k : string) (w : World) :
  wf w ->
  let o := fst (compress_context k w) in
  let w' := snd (compress_context k w) in
  self w' = self w
  /\ ticks w' = ticks w
  /\ length (heap w') = length (heap w)
  /\ (forall r x, heap w !! r = Some x -> (forall t, locate w k <> Some (r, t)) ->
        heap w' !! r = Some x)
  /\ (forall r t x, locate w k = Some (r, t) -> heap w !! r = Some x ->
        exists x',
          heap w' !! r = Some x'
          /\ id x' = id x /\ metadata x' = metadata x /\ timestamp x' = timestamp x
          /\ relevance_score x' = relevance_score x
          /\ access_count x' = access_count x + 1
          /\ (forall e, o = Raise e ->
                content x' = content x /\ compression_ratio x' = compression_ratio x
                /\ (e = ValueError nan_message \/ e = OverflowError)))
  /\ (o = Ret false <-> locate w k = None).
Proof.
  intros Hwf o w'. subst o w'.
  destruct (compress_context_cases k w Hwf) as [[Hloc ->] | (r & t & x & Hloc & Hx & ->)].
  - cbn [fst snd]. do 3 (split; [reflexivity |]). split; [now intros |].
    split; [intros r t x H; congruence |]. now split.
  - pose proof (lookup_lt_Some _ _ _ Hx) as Hlt.
    pose proof (compress_keeps_ends_raise (content x)
                  (compression_target_ratio (config (self w)))) as Hraise.
    destruct (BasicCompressionEngine.compress _ _) as [c | e]; cbn [fst snd heap with_heap].
    + do 2 (split; [reflexivity |]). split; [apply length_insert |].
      split.
      { intros r' x' Hx' Hn. rewrite list_lookup_insert_ne; [exact Hx' |].
        intros <-. now apply (Hn t). }
      split.
      { intros r' t' x' Hloc' Hx'. assert (r' = r) as -> by congruence.
        assert (x' = x) as -> by congruence.
        exists (compressed c x). split; [now apply list_lookup_insert_eq |].
        do 5 (split; [reflexivity |]). discriminate. }
      split; [discriminate | congruence].
    + do 2 (split; [reflexivity |]). split; [apply length_insert |].
      split.
      { intros r' x' Hx' Hn. rewrite list_lookup_insert_ne; [exact Hx' |].
        intros <-. now apply (Hn t). }
      split.
      { intros r' t' x' Hloc' Hx'. assert (r' = r) as -> by congruence.
        assert (x' = x) as -> by congruence.
        exists (touched x). split; [now apply list_lookup_insert_eq |].
        do 5 (split; [reflexivity |]). intros e' [= <-].
        do 2 (split; [reflexivity |]). now apply Hraise. }
      split; [discriminate | congruence].
Qed.

End CompressContext.

(** ** Maintenance and the status report *)

Section Maintenance.

Variable now_at : nat -> datetime.

(** A pass that returns has read the clock once per active segment and
    has changed the active and the working tier only. *)
Lemma pass_returns (w : World) :
  inv w ->
  fst (_optimize_active_memory now_at w) = Ret tt ->
  exists a' b',
    _optimize_active_memory now_at w
    = (Ret tt,
       set_working b' (set_active a' (with_ticks (ticks w + length (active_of w)) w))).
Proof.
  intros Hi Hret.
  destruct (optimize_cases now_at w Hi) as [(e & n & E) | (l & E & Hnd & Hl)].
  - rewrite E in Hret. discriminate.
  - set (w0 := with_ticks (ticks w + length (active_of w)) w) in *.
    assert (Hi0 : inv w0).
    { apply (inv_steady w); [exact Hi |]. split; [reflexivity | apply ids_stable_refl]. }
    destruct (move_loop_conserves l w0 Hi0 Hnd Hl) as (a' & b' & El & _).
    exists a', b'. now rewrite E, El.
Qed.

(** X23: [optimize] and the cleanup it gates.  On a store that satisfies
    the store invariant, when the optimization pass returns, ending at
    clock reading [n], [optimize] reads the clock and then builds
    [timedelta(minutes=cleanup_interval_minutes)].  For an interval beyond
    the range of a [timedelta] that raises [OverflowError]: the pass has
    done its moves, the clock has been read once more, and no result is
    returned.  Otherwise [optimize] returns a result with
    [optimization_completed] set, the sizes of the tiers as they are at
    the end, and the metrics, which it never updates; the cleanup runs
    exactly when reading [n] is more than the interval after the last
    cleanup; it then takes its cutoff from reading [n + 1], and reading
    [n + 2] becomes the time of the last cleanup.  Otherwise the long-term
    tier and the time of the last cleanup stay as they are. *)
Theorem optimize_gates_cleanup (w : World) :
  inv w ->
  fst (_optimize_active_memory now_at w) = Ret tt ->
  let n := (ticks w + length (active_of w))%nat in
  let w1 := snd (_optimize_active_memory now_at w) in
  match timedelta_of_minutes (cleanup_interval_minutes (config (self w))) with
  | Raise e =>
      e = OverflowError
      /\ ~ (-1439999998560 <= cleanup_interval_minutes (config (self w)) < 1440000000000)
      /\ optimize now_at w = (Raise OverflowError, with_ticks (S n) w1)
  | Ret interval =>
      interval = cleanup_interval_minutes (config (self w)) * 60000000
      /\ exists res w',
        optimize now_at w = (Ret res, w')
        /\ optimization_completed res = true
        /\ metrics_snapshot res = metrics (self w)
        /\ metrics (self w') = metrics (self w)
        /\ active_of w' = active_of w1 /\ working_of w' = working_of w1
        /\ heap w' = heap w
        /\ MemoryManager.u_active (memory_usage res) = Z.of_nat (length (active_of w'))
        /\ MemoryManager.u_working (memory_usage res) = Z.of_nat (length (working_of w'))
        /\ MemoryManager.u_long_term (memory_usage res)
           = Z.of_nat (length (long_term_of w'))
        /\ MemoryManager.u_total (memory_usage res) = stored_count w'
        /\ if interval <? now_at n - _last_cleanup (self w)
           then long_term_of w'
                = List.filter (survives (heap w) (now_at (S n) - timedelta_of_days 30))
                    (long_term_of w)
                /\ _last_cleanup (self w') = now_at (S (S n))
                /\ ticks w' = S (S (S n))
           else long_term_of w' = long_term_of w
                /\ _last_cleanup (self w') = _last_cleanup (self w)
                /\ ticks w' = S n
  end.
Proof.
  intros Hi Hret n w1. subst w1.
  destruct (pass_returns w Hi Hret) as (a' & b' & E). rewrite E. cbn [snd].
  fold n. set (w1 := set_working b' (set_active a' (with_ticks n w))).
  assert (Eo : optimize now_at w
               = match timedelta_of_minutes (cleanup_interval_minutes (config (self w))) with
                 | Raise e => (Raise e, with_ticks (S n) w1)
                 | Ret interval =>
                     ((if interval <? now_at n - _last_cleanup (self w)
                       then
                         _cleanup_old_segments now_at ;;;
                         t' <- now now_at ;;
                         modify (fun w => with_self (with_last_cleanup t' (self w)) w)
                       else ret tt) ;;;
                      u <- MemoryManager.get_memory_usage ;;
                      m <- the_metrics ;;
                      ret {| optimization_completed := true; memory_usage := u;
                             metrics_snapshot := m |}) (with_ticks (S n) w1)
                 end).
  { unfold optimize. unfold bind at 1. rewrite E. fold n. fold w1.
    unfold bind at 1. unfold now at 1. unfold bind at 1. unfold get at 1.
    cbn [self with_ticks ticks].
    change (config (self w1)) with (config (self w)).
    change (_last_cleanup (self w1)) with (_last_cleanup (self w)).
    change (ticks w1) with n.
    unfold bind at 1. unfold lift at 1.
    now destruct (timedelta_of_minutes (cleanup_interval_minutes (config (self w)))). }
  rewrite Eo. clear Eo.
  destruct (timedelta_of_minutes (cleanup_interval_minutes (config (self w))))
    as [interval | e] eqn:Ei.
  2:{ unfold timedelta_of_minutes in Ei.
      destruct (_ && _) eqn:Hr; [discriminate |]. injection Ei as <-.
      split; [reflexivity |]. split; [| reflexivity].
      intros Hm. apply andb_false_iff in Hr as [Hr | Hr];
        [apply Z.leb_gt in Hr | apply Z.leb_gt in Hr].
      - assert (-999999999 <= cleanup_interval_minutes (config (self w)) * 60000000
                                / 86400000000); [| lia].
        apply Z.div_le_lower_bound; lia.
      - assert (cleanup_interval_minutes (config (self w)) * 60000000 / 86400000000
                < 1000000000); [| lia].
        apply Z.div_lt_upper_bound; lia. }
  split.
  { unfold timedelta_of_minutes in Ei. destruct (_ && _); now inversion Ei. }
  destruct (interval <? now_at n - _last_cleanup (self w)).
  - unfold bind at 1. unfold bind at 1.
    rewrite (cleanup_result now_at (with_ticks (S n) w1)).
    2:{ change (heap (with_ticks (S n) w1)) with (heap w).
        change (long_term_of (with_ticks (S n) w1)) with (long_term_of w). apply Hi. }
    unfold bind at 1. unfold now at 1. unfold modify at 1.
    unfold bind at 1. unfold MemoryManager.get_memory_usage at 1.
    unfold bind at 1. unfold MemoryManager.tiers at 1. unfold ret at 1.
    unfold bind at 1. unfold the_metrics at 1. unfold ret.
    eexists. eexists. split; [reflexivity |].
    cbn. unfold stored_count. cbn. repeat split; lia.
  - unfold bind at 1. unfold ret at 1.
    unfold bind at 1. unfold MemoryManager.get_memory_usage at 1.
    unfold bind at 1. unfold MemoryManager.tiers at 1. unfold ret at 1.
    unfold bind at 1. unfold the_metrics at 1. unfold ret.
    eexists. eexists. split; [reflexivity |].
    cbn. unfold stored_count. cbn. repeat split; lia.
Qed.

End Maintenance.

Section StatusReport.

Variable isoformat : datetime -> string.

(** X24: [get_status] is a read.  It returns the sizes of the tiers, the
    metrics with [active_segments] refreshed (so that it agrees with the
    size reported for the active tier), the configuration and the time of
    the last cleanup; it changes nothing but that one metric, and a second
    call returns the same report and changes nothing at all. *)
Theorem get_status_reads (w : World) :
  exists st w',
    get_status isoformat w = (Ret st, w')
    /\ get_status isoformat w' = (Ret st, w')
    /\ active_segments (s_metrics st) = MemoryManager.u_active (s_memory_usage st)
    /\ MemoryManager.u_active (s_memory_usage st) = Z.of_nat (length (active_of w))
    /\ MemoryManager.u_total (s_memory_usage st) = stored_count w
    /\ s_config st = config (self w)
    /\ s_last_cleanup st = isoformat (_last_cleanup (self w))
    /\ metrics (self w')
       = with_active_segments (Z.of_nat (length (active_of w))) (metrics (self w))
    /\ memory_manager (self w') = memory_manager (self w)
    /\ heap w' = heap w /\ ticks w' = ticks w.
Proof.
  eexists. eexists. split; [reflexivity |].
  destruct w as [h n [cf [a b l] m t]]. cbn. unfold dict_values, stored_count. cbn.
  rewrite !length_map. repeat split; try reflexivity; lia.
Qed.

End StatusReport.

(** ** What no method assigns, and what the count counts *)

Create HintDb quiet discriminated.

Section Quiet.

Lemma quiet_ret {A} (a : A) : quiet (ret a).
Proof. now intros w. Qed.

Lemma quiet_raise {A} (e : exn) : quiet (raise (A := A) e).
Proof. now intros w. Qed.

Lemma quiet_lift {A} (o : outcome A) : quiet (lift o).
Proof. now intros w. Qed.

Lemma quiet_get : quiet get.
Proof. now intros w. Qed.

Lemma quiet_bind {A B} (m : M A) (k : A -> M B) :
  quiet m -> (forall a, quiet (k a)) -> quiet (bind m k).
Proof.
  intros Hm Hk w. unfold bind. specialize (Hm w).
  destruct (m w) as [[a | e] w']; cbn [snd] in *; [| assumption].
  now rewrite Hk.
Qed.

Lemma quiet_for_each {A} (l : list A) (body : A -> M unit) :
  (forall x, quiet (body x)) -> quiet (for_each l body).
Proof.
  intros Hb. induction l as [| x l IH]; cbn [for_each].
  - apply quiet_ret.
  - apply quiet_bind; [apply Hb | intros _; exact IH].
Qed.

Lemma quiet_map_m {A B} (f : A -> M B) (l : list A) :
  (forall x, quiet (f x)) -> quiet (map_m f l).
Proof.
  intros Hf. induction l as [| x l IH]; cbn [map_m].
  - apply quiet_ret.
  - apply quiet_bind; [apply Hf | intros y].
    apply quiet_bind; [exact IH | intros ys; apply quiet_ret].
Qed.

Lemma quiet_deref r : quiet (deref r).
Proof. intros w. unfold deref. now destruct (heap w !! r). Qed.

Lemma quiet_update r f : quiet (update r f).
Proof. intros w. unfold update, bind, deref, modify. now destruct (heap w !! r). Qed.

Lemma quiet_alloc x : quiet (alloc x).
Proof. now intros w. Qed.

Lemma quiet_tiers : quiet MemoryManager.tiers.
Proof. now intros w. Qed.

Lemma quiet_set_tiers f : quiet (MemoryManager.set_tiers f).
Proof. now intros w. Qed.

Lemma quiet_the_config : quiet the_config.
Proof. now intros w. Qed.

Lemma quiet_the_metrics : quiet the_metrics.
Proof. now intros w. Qed.

Lemma quiet_set_metrics (f : ContextMetrics -> ContextMetrics) :
  (forall m, total_size_bytes (f m) = total_size_bytes m
             /\ m_compression_ratio (f m) = m_compression_ratio m
             /\ cache_hit_rate (f m) = cache_hit_rate m
             /\ memory_usage_bytes (f m) = memory_usage_bytes m) ->
  quiet (set_metrics f).
Proof.
  intros Hf w. unfold fixed_part. cbn.
  destruct (Hf (metrics (self w))) as (-> & -> & -> & ->). reflexivity.
Qed.

End Quiet.

#[local] Hint Resolve quiet_ret quiet_raise quiet_lift quiet_get quiet_deref quiet_update
  quiet_alloc quiet_tiers quiet_set_tiers quiet_the_config quiet_the_metrics : quiet.

(** Splits a method into its calls; the branches of a conditional are
    taken one by one. *)
Ltac quiet_calls :=
  repeat first
    [ solve [auto with quiet]
    | apply quiet_set_metrics; intros ?; now repeat split
    | apply quiet_bind; [| intros ?]
    | apply quiet_for_each; intros ?
    | apply quiet_map_m; intros ?
    | match goal with
      | |- quiet (if ?b then _ else _) => destruct b
      | |- quiet (match ?x with _ => _ end) => destruct x
      end ].

Section QuietMethods.

Variable now_at : nat -> datetime.
Variable md5_hexdigest : string -> datetime -> string.

Lemma quiet_now : quiet (now now_at).
Proof. now intros w. Qed.

Hint Resolve quiet_now : quiet.

Lemma quiet_store tier r : quiet (MemoryManager.store tier r).
Proof. unfold MemoryManager.store. quiet_calls. Qed.

Lemma quiet_touch o : quiet (MemoryManager.touch o).
Proof. unfold MemoryManager.touch. quiet_calls. Qed.

Hint Resolve quiet_store quiet_touch : quiet.

Lemma quiet_mm_retrieve tier k : quiet (MemoryManager.retrieve tier k).
Proof. unfold MemoryManager.retrieve. quiet_calls. Qed.

Lemma quiet_delete tier k : quiet (MemoryManager.delete tier k).
Proof. unfold MemoryManager.delete. quiet_calls. Qed.

Lemma quiet_get_all tier : quiet (MemoryManager.get_all_segments tier).
Proof. unfold MemoryManager.get_all_segments. quiet_calls. Qed.

Lemma quiet_get_memory_usage : quiet MemoryManager.get_memory_usage.
Proof. unfold MemoryManager.get_memory_usage. quiet_calls. Qed.

Hint Resolve quiet_mm_retrieve quiet_delete quiet_get_all quiet_get_memory_usage : quiet.

Lemma quiet_score_loop q l : quiet (BasicRetrievalEngine.score_loop q l).
Proof.
  induction l as [| r l IH]; cbn [BasicRetrievalEngine.score_loop]; quiet_calls.
Qed.

Hint Resolve quiet_score_loop : quiet.

Lemma quiet_engine_retrieve q l limit : quiet (BasicRetrievalEngine.retrieve q l limit).
Proof. unfold BasicRetrievalEngine.retrieve, BasicRetrievalEngine.sort_key. quiet_calls. Qed.

Lemma quiet_sum_len l : quiet (sum_len l).
Proof. induction l as [| r l IH]; cbn [sum_len]; quiet_calls. Qed.

Lemma quiet_gather tiers : quiet (gather tiers).
Proof. induction tiers as [| t ts IH]; cbn [gather]; quiet_calls. Qed.

Lemma quiet_find_segment tiers k : quiet (find_segment tiers k).
Proof. induction tiers as [| t ts IH]; cbn [find_segment]; quiet_calls. Qed.

Lemma quiet_remove_from tiers k : quiet (remove_from tiers k).
Proof. induction tiers as [| t ts IH]; cbn [remove_from]; quiet_calls. Qed.

Hint Resolve quiet_engine_retrieve quiet_sum_len quiet_gather quiet_find_segment
  quiet_remove_from : quiet.

Lemma quiet_optimize_active : quiet (_optimize_active_memory now_at).
Proof.
  unfold _optimize_active_memory, move_to_working_step, sort_key, score_segment.
  quiet_calls.
Qed.

Hint Resolve quiet_optimize_active : quiet.

Lemma quiet_maybe_optimize : quiet (_maybe_optimize_memory now_at).
Proof. unfold _maybe_optimize_memory. quiet_calls. Qed.

Lemma quiet_cleanup : quiet (_cleanup_old_segments now_at).
Proof. unfold _cleanup_old_segments. quiet_calls. Qed.

Hint Resolve quiet_maybe_optimize quiet_cleanup : quiet.

Lemma quiet_add_context c md : quiet (add_context now_at md5_hexdigest c md).
Proof. unfold add_context, _generate_segment_id. quiet_calls. Qed.

Lemma quiet_retrieve_relevant q limit : quiet (retrieve_relevant now_at q limit).
Proof. unfold retrieve_relevant. quiet_calls. Qed.

Lemma quiet_compress_context k : quiet (compress_context k).
Proof. unfold compress_context. quiet_calls. Qed.

Lemma quiet_get_metrics : quiet get_metrics.
Proof. unfold get_metrics. quiet_calls. Qed.

Lemma quiet_optimize : quiet (optimize now_at).
Proof. unfold optimize. quiet_calls. Qed.

Lemma quiet_perform (o : operation) (w : World) :
  fixed_part (perform now_at md5_hexdigest o w) = fixed_part w.
Proof.
  destruct o; cbn [perform].
  - apply quiet_add_context.
  - apply quiet_retrieve_relevant.
  - apply quiet_remove_from.
  - apply quiet_compress_context.
  - apply quiet_optimize_active.
  - apply quiet_cleanup.
  - apply quiet_optimize.
  - apply quiet_get_metrics.
Qed.

(** X25: what no method ever assigns.  In every world that a history of
    controller calls reaches from a new manager, whether the calls returned
    or raised, the configuration is the one given to the constructor and
    four of the seven metrics still have their initial values:
    [total_size_bytes] and [memory_usage_bytes] are 0, [compression_ratio]
    is 1.0 (also after compressions) and [cache_hit_rate] is 0.0. *)
Theorem metrics_never_assigned (cfg : ContextConfig) (w : World) :
  reachable now_at md5_hexdigest cfg w ->
  config (self w) = cfg
  /\ total_size_bytes (metrics (self w)) = 0
  /\ memory_usage_bytes (metrics (self w)) = 0
  /\ m_compression_ratio (metrics (self w)) = 1.0%float
  /\ cache_hit_rate (metrics (self w)) = 0.0%float.
Proof.
  intros Hr.
  assert (H : fixed_part w = (cfg, (0, 1.0%float, 0.0%float, 0))).
  { induction Hr as [| w o Hr IH Hf]; [reflexivity |]. now rewrite quiet_perform. }
  unfold fixed_part in H. injection H as -> -> -> -> ->. now repeat split.
Qed.

End QuietMethods.

Section BookkeepingTheorem.

Variable now_at : nat -> datetime.
Variable md5_hexdigest : string -> datetime -> string.

Lemma bookkept_reachable (cfg : ContextConfig) (w : World) :
  bookkept now_at md5_hexdigest cfg w -> reachable now_at md5_hexdigest cfg w.
Proof.
  induction 1 as [| w o Hb IH Hf Hc]; [apply reachable_new | now apply reachable_step].
Qed.

(** X26: [total_segments] counts the stored segments as long as nothing
    expires and no ingestion fails.  In every world reached from a new
    manager by calls of [add_context] that returned (each with a new id),
    [retrieve_relevant], [remove_context], [compress_context], the
    optimization pass and [get_metrics], whatever the other calls did,
    [total_segments] is the number of entries of the three tiers.  (The
    cleanup deletes without counting down, and a failed ingestion stores
    without counting up.) *)
Theorem total_segments_in_step (cfg : ContextConfig) (w : World) :
  bookkept now_at md5_hexdigest cfg w ->
  total_segments (metrics (self w)) = stored_count w.
Proof.
  induction 1 as [| w o Hb IH Hf Hc]; [reflexivity |].
  pose proof (reachable_inv now_at md5_hexdigest cfg w (bookkept_reachable cfg w Hb)) as Hi.
  destruct o; cbn [perform counted generates_fresh_id] in *; try contradiction.
  - destruct Hc as (k & w' & E). rewrite E. cbn [snd].
    destruct (add_context_effect now_at md5_hexdigest _ _ _ _ _ Hi Hf E)
      as (_ & _ & _ & _ & Hs & Ht & _). lia.
  - destruct (retrieve_relevant_effect now_at query limit w (proj1 Hi))
      as (l & w' & -> & Hm & _ & _ & Hme & _). cbn [snd].
    unfold stored_count, active_of, working_of, long_term_of. rewrite Hm.
    fold (active_of w) (working_of w) (long_term_of w). fold (stored_count w).
    rewrite <- IH, <- Hme. reflexivity.
  - destruct (remove_context_count segment_id w Hi) as [-> ->]. lia.
  - destruct (compress_context_cases segment_id w (proj1 Hi))
      as [[_ ->] | (r & t & x & _ & _ & ->)]; [exact IH |].
    destruct (BasicCompressionEngine.compress _ _); exact IH.
  - pose proof (pass_conserves now_at w Hi) as (_ & Hl & _ & _ & Hlt & _ & _ & Hm & _).
    rewrite Hm, IH. unfold stored_count. rewrite Hlt. lia.
  - exact IH.
Qed.

End BookkeepingTheorem.

(** ** Serialization *)

Section SerializationTheorems.

Import Serialization.

Variable parse_isoformat : string -> option datetime.

(** X27: [to_dict] and [from_dict] are not inverse to each other.
    [to_dict] leaves the timestamp a [datetime], and [from_dict] passes the
    timestamp to [datetime.fromisoformat], which takes a [str] only: for
    every segment, [from_dict] on the result of [to_dict] raises
    [TypeError] and leaves the dictionary as it is. *)
Theorem from_dict_of_to_dict (x : ContextSegment) :
  from_dict parse_isoformat (to_dict x) = (Err TypeError, to_dict x).
Proof. reflexivity. Qed.

(** X28: [from_dict] decodes a dictionary once.  Given the dictionary of a
    segment with the timestamp as an ISO string, it returns the segment and
    has replaced the string in the caller's dictionary by the [datetime],
    so that the dictionary is now the one [to_dict] gives; a second
    [from_dict] on the same dictionary therefore raises [TypeError].  A
    dictionary without a timestamp raises [KeyError]. *)
Theorem from_dict_once (x : ContextSegment) (s : string) :
  parse_isoformat s = Some (timestamp x) ->
  let data := assign (to_dict x) "timestamp" (VStr s) in
  from_dict parse_isoformat data = (Ok (to_dict x), to_dict x)
  /\ from_dict parse_isoformat (snd (from_dict parse_isoformat data))
     = (Err TypeError, to_dict x)
  /\ (forall d, lookup d "timestamp" = None ->
        from_dict parse_isoformat d = (Err (KeyError "timestamp"), d)).
Proof.
  intros Hs data. subst data.
  assert (E : from_dict parse_isoformat (assign (to_dict x) "timestamp" (VStr s))
              = (Ok (to_dict x), to_dict x)).
  { unfold from_dict. cbn. rewrite Hs. reflexivity. }
  split; [exact E |]. split; [now rewrite E |].
  intros d Hd. unfold from_dict. now rewrite Hd.
Qed.

End SerializationTheorems.

Lemma from_dict_once_witness :
  Serialization.from_dict demo_isoformat
    (Serialization.assign (Serialization.to_dict (new_segment "k" "text" None 2000000))
       "timestamp" (Serialization.VStr "1970-01-01T00:00:02"))
  = (Serialization.Ok (Serialization.to_dict (new_segment "k" "text" None 2000000)),
     Serialization.to_dict (new_segment "k" "text" None 2000000)).
Proof.
  exact (proj1 (from_dict_once demo_isoformat (new_segment "k" "text" None 2000000)
                  "1970-01-01T00:00:02" eq_refl)).
Defined.

(** ** The properties above on the sample inputs *)

Lemma fox_world_reachable : reachable demo_clock demo_digest default_config fox_world.
Proof.
  apply (reachable_step demo_clock demo_digest default_config _ (AddContext fox None));
    [apply reachable_new | reflexivity].
Qed.

Lemma fox_world_inv : inv fox_world.
Proof. exact (reachable_inv _ _ _ _ fox_world_reachable). Qed.

Lemma pair_world_reachable : reachable demo_clock demo_digest default_config pair_world.
Proof.
  apply (reachable_step demo_clock demo_digest default_config _
           (AddContext "second note" None)); [| reflexivity].
  apply (reachable_step demo_clock demo_digest default_config _
           (AddContext "first note" None)); [apply reachable_new | reflexivity].
Qed.

Lemma pair_world_inv : inv pair_world.
Proof. exact (reachable_inv _ _ _ _ pair_world_reachable). Qed.

Lemma retrieve_relevant_frame_witness :
  exists l w',
    retrieve_relevant demo_clock "fox" 5 fox_world = (Ret l, w')
    /\ memory_manager (self w') = memory_manager (self fox_world)
    /\ l = [0%nat].
Proof.
  destruct (retrieve_relevant_frame demo_clock "fox" 5 fox_world (proj1 fox_world_inv))
    as (l & w' & E & Hm & _ & _ & _ & _ & _ & _ & Hl & _).
  exists l, w'. split; [exact E |]. split; [exact Hm |]. rewrite Hl. reflexivity.
Defined.

Lemma add_context_within_budget_witness :
  exists w',
    add_context demo_clock demo_digest "second note" None fox_world
    = (Ret "second note@3000000", w')
    /\ active_of w' = active_of fox_world ++ [("second note@3000000", 1%nat)]
    /\ working_of w' = [].
Proof.
  destruct (add_context_within_budget demo_clock demo_digest "second note" None fox_world)
    as (w' & E & _ & Ha & Hw & _).
  - apply fox_world_inv.
  - reflexivity.
  - vm_compute. discriminate.
  - exists w'. split; [exact E |]. split; [exact Ha | exact Hw].
Defined.

Lemma remove_context_then_absent_witness :
  exists w',
    remove_context fox_id fox_world = (Ret true, w')
    /\ tier_count w' fox_id = 0%nat
    /\ remove_context fox_id w' = (Ret false, w').
Proof.
  destruct (remove_context_then_absent fox_id fox_world fox_world_inv)
    as (w' & E & Hk & _ & _ & E2 & _).
  exists w'. split; [exact E |]. split; [exact Hk | exact E2].
Defined.

Lemma optimize_active_conserves_witness :
  (forall k, tier_count pair_world_once k = tier_count pair_world k)
  /\ long_term_of pair_world_once = long_term_of pair_world.
Proof.
  pose proof (optimize_active_conserves demo_clock pair_world pair_world_inv)
    as (Hc & _ & _ & _ & Hl & _).
  split; [exact Hc | exact Hl].
Defined.

Lemma pair_world_unread (k : string) (r : ref) :
  (k, r) ∈ active_of pair_world ->
  exists x, heap pair_world !! r = Some x /\ access_count x = 0
            /\ forall n, (ticks pair_world <= n)%nat -> timestamp x <= demo_clock n.
Proof.
  intros Hin. change (active_of pair_world)
    with [("first note@1000000", 0%nat); ("second note@3000000", 1%nat)] in Hin.
  change (ticks pair_world) with 5%nat. unfold demo_clock.
  apply elem_of_cons in Hin as [[= -> ->] | Hin];
    [| apply elem_of_cons in Hin as [[= -> ->] | Hin]; [| inversion Hin]].
  - exists (new_segment "first note@1000000" "first note" None 2000000).
    split; [reflexivity |]. split; [reflexivity |]. intros n Hn. cbn [timestamp new_segment]. lia.
  - exists (new_segment "second note@3000000" "second note" None 4000000).
    split; [reflexivity |]. split; [reflexivity |]. intros n Hn. cbn [timestamp new_segment]. lia.
Qed.

Lemma optimize_active_unread_witness :
  exists kc,
    keep_count 2 = Ret kc
    /\ active_of (snd (_optimize_active_memory demo_clock pair_world))
       = take (Z.to_nat kc) (active_of pair_world).
Proof.
  destruct (optimize_active_unread demo_clock pair_world pair_world_inv)
    as (kc & Hk & _ & E).
  - vm_compute. reflexivity.
  - exact pair_world_unread.
  - exists kc. split; [exact Hk |]. now rewrite E.
Defined.

Lemma add_then_remove_witness :
  exists w2,
    remove_context fox_id fox_world = (Ret true, w2)
    /\ total_segments (metrics (self w2)) = 0.
Proof.
  destruct (add_then_remove demo_clock demo_digest fox None
              (new demo_clock default_config) fox_world fox_id)
    as (_ & _ & w2 & E & _ & Ht).
  - apply inv_new.
  - reflexivity.
  - reflexivity.
  - exists w2. split; [exact E | exact Ht].
Defined.

Lemma add_context_oversized_witness :
  exists w',
    add_context demo_clock demo_digest "abcdefghijkl" None (new demo_clock small_config)
    = (Ret "abcdefghijkl@1000000", w')
    /\ active_of w' = []
    /\ working_of w' = [("abcdefghijkl@1000000", 0%nat)].
Proof.
  destruct (add_context_oversized demo_clock demo_digest small_config "abcdefghijkl" None)
    as (w' & E & Ha & Hw & _).
  - vm_compute. reflexivity.
  - vm_compute. discriminate.
  - exists w'. split; [exact E |]. split; [exact Ha | exact Hw].
Defined.

Lemma add_context_same_id_witness :
  exists w1 w2,
    add_context still_clock demo_digest "same" None (new still_clock default_config)
    = (Ret "same@0", w1)
    /\ add_context still_clock demo_digest "same" None w1 = (Ret "same@0", w2)
    /\ active_of w2 = [("same@0", 1%nat)]
    /\ total_segments (metrics (self w2)) = 2.
Proof.
  destruct (add_context_same_id still_clock demo_digest default_config "same" "same"
              None None)
    as (w1 & w2 & E1 & E2 & Ha & _ & _ & _ & Ht & _).
  - reflexivity.
  - vm_compute. discriminate.
  - vm_compute. discriminate.
  - exists w1, w2. split; [exact E1 |]. split; [exact E2 |]. split; [exact Ha | exact Ht].
Defined.

Lemma pass_division_by_zero_witness :
  _optimize_active_memory set_back_clock set_back_world
  = (Raise ZeroDivisionError, with_ticks 4 set_back_world).
Proof.
  exact (proj1 (pass_division_by_zero set_back_clock set_back_world "abcdef@3600000000"
                  0%nat [] _ eq_refl eq_refl eq_refl)).
Defined.

Lemma much_read_world_inv : inv much_read_world.
Proof.
  split; [split; [| split] |].
  - split.
    + cbn. apply NoDup_cons. split; [intros H; inversion H | constructor].
    + intros k r Hin. cbn in Hin.
      apply elem_of_cons in Hin as [[= -> ->] | Hin]; [eexists; split; reflexivity |].
      inversion Hin.
  - split; [constructor | intros k r Hin; inversion Hin].
  - split; [constructor | intros k r Hin; inversion Hin].
  - intros k. unfold tier_count.
    change (working_of much_read_world) with ([] : dict).
    change (long_term_of much_read_world) with ([] : dict).
    cbn. destruct (holds _ k); cbn; lia.
Qed.

Lemma add_context_raise_keeps_segment_witness :
  (fst (add_context set_back_clock demo_digest "abcdefghijkl" None
          (new set_back_clock small_config)) = Raise ZeroDivisionError
   /\ active_of (snd (add_context set_back_clock demo_digest "abcdefghijkl" None
                        (new set_back_clock small_config)))
      = [("abcdefghijkl@3600000000", 0%nat)]
   /\ total_segments
        (metrics (self (snd (add_context set_back_clock demo_digest "abcdefghijkl" None
                               (new set_back_clock small_config))))) = 0)
  /\ (fst (add_context still_clock demo_digest "ghijkl" None much_read_world)
      = Raise OverflowError
      /\ active_of (snd (add_context still_clock demo_digest "ghijkl" None much_read_world))
         = [("much read", 0%nat); ("ghijkl@0", 1%nat)]).
Proof.
  split.
  2:{ destruct (add_context_raise_keeps_segment still_clock demo_digest "ghijkl" None
                  much_read_world
                  (snd (add_context still_clock demo_digest "ghijkl" None much_read_world))
                  OverflowError)
        as (_ & Ha & _).
      - exact much_read_world_inv.
      - reflexivity.
      - vm_compute. reflexivity.
      - vm_compute. reflexivity.
      - split; [vm_compute; reflexivity | exact Ha]. }
  destruct (add_context_raise_keeps_segment set_back_clock demo_digest "abcdefghijkl" None
              (new set_back_clock small_config)
              (snd (add_context set_back_clock demo_digest "abcdefghijkl" None
                      (new set_back_clock small_config)))
              ZeroDivisionError)
    as (_ & Ha & _ & _ & _ & Hm).
  - apply inv_new.
  - reflexivity.
  - vm_compute. reflexivity.
  - vm_compute. reflexivity.
  - split; [vm_compute; reflexivity |]. split; [exact Ha |]. now rewrite Hm.
Defined.

Lemma compress_context_frame_witness :
  self (snd (compress_context fox_id fox_world)) = self fox_world
  /\ ticks (snd (compress_context fox_id fox_world)) = ticks fox_world.
Proof.
  pose proof (compress_context_frame fox_id fox_world (proj1 fox_world_inv))
    as (Hs & Ht & _).
  split; [exact Hs | exact Ht].
Defined.

Lemma optimize_gates_cleanup_witness :
  (exists res w',
     optimize demo_clock pair_world = (Ret res, w')
     /\ optimization_completed res = true
     /\ long_term_of w' = []
     /\ _last_cleanup (self w') = 0)
  /\ optimize demo_clock (new demo_clock long_interval_config)
     = (Raise OverflowError, with_ticks 2 (new demo_clock long_interval_config)).
Proof.
  split.
  2:{ pose proof (optimize_gates_cleanup demo_clock (new demo_clock long_interval_config)
                    (inv_new demo_clock long_interval_config) eq_refl) as H.
      cbv zeta in H.
      change (timedelta_of_minutes _) with (Raise (A := timedelta) OverflowError) in H.
      cbv iota in H. exact (proj2 (proj2 H)). }
  assert (Hret : fst (_optimize_active_memory demo_clock pair_world) = Ret tt)
    by (vm_compute; reflexivity).
  pose proof (optimize_gates_cleanup demo_clock pair_world pair_world_inv Hret) as H.
  cbv zeta in H.
  change (timedelta_of_minutes _) with (Ret (A := Z) 3600000000) in H. cbv iota in H.
  destruct H as (_ & res & w' & E & Hc & _ & _ & _ & _ & _ & _ & _ & _ & _ & Hif).
  exists res, w'. split; [exact E |]. split; [exact Hc |].
  change (3600000000 <? _) with false in Hif. cbv iota in Hif.
  destruct Hif as (Hl & Ht & _). split; [exact Hl | exact Ht].
Defined.

Lemma metrics_never_assigned_witness :
  config (self sample_world) = default_config
  /\ m_compression_ratio (metrics (self sample_world)) = 1.0%float.
Proof.
  pose proof (metrics_never_assigned demo_clock demo_digest default_config sample_world
                sample_world_reachable) as (Hc & _ & _ & Hr & _).
  split; [exact Hc | exact Hr].
Defined.

Lemma counted_world_bookkept :
  bookkept demo_clock demo_digest default_config counted_world.
Proof.
  unfold counted_world, counted_history. cbn [fold_left].
  apply bookkept_step; [| exact I | exact I].
  apply bookkept_step; [| exact I | exact I].
  apply bookkept_step; [apply bookkept_new | reflexivity |].
  eexists. eexists. vm_compute. reflexivity.
Qed.

Lemma total_segments_in_step_witness :
  total_segments (metrics (self counted_world)) = stored_count counted_world.
Proof.
  exact (total_segments_in_step demo_clock demo_digest default_config counted_world
           counted_world_bookkept).
Defined.

Lemma C3_optimize_twice_witness :
  memory_manager
    (self (snd (_optimize_active_memory demo_clock
                  (snd (_optimize_active_memory demo_clock fox_world)))))
  = memory_manager (self (snd (_optimize_active_memory demo_clock fox_world)))
  /\ Z.of_nat (length (active_of pair_world_once)) = 1
  /\ Z.of_nat (length (active_of pair_world_twice)) = 0.
Proof.
  split.
  - apply (C3_optimize_twice demo_clock fox_world); [vm_compute; reflexivity | vm_compute; lia].
  - assert (Hret : fst (_optimize_active_memory demo_clock pair_world) = Ret tt)
      by (vm_compute; reflexivity).
    destruct (C3_optimize_twice demo_clock pair_world Hret) as [_ H].
    destruct H as (m & Em & Hm & _ & H2).
    + exact pair_world_inv.
    + vm_compute. lia.
    + vm_compute. reflexivity.
    + change (keep_count _) with (Ret (A := Z) 1) in Em. injection Em as <-.
      split; [exact Hm |].
      change (fst (_optimize_active_memory demo_clock _)) with (Ret (A := unit) tt) in H2.
      cbv iota in H2. destruct H2 as (m' & Em' & Hm' & _).
      change (keep_count 1) with (Ret (A := Z) 0) in Em'. injection Em' as <-.
      exact Hm'.
Defined.
